(** * toyserver: the module resolver (src/node/resolver.ts)

    A shallow embedding of the request<->file resolver of the dev server
    ([createResolver] and the module-level locators of resolver.ts, with
    [resolveOptimizedCacheDir] of optimizer/index.ts) and the properties its
    specification states about it.

    Conventions of the embedding.
    - Paths and requests are [string]s.  The host platform is POSIX
      ([isWin = false], so [pathSeparator = "/"] and Node's [path] is
      [path.posix]).
    - JavaScript [undefined] is [None]; a string is "truthy" when it is not
      empty.
    - [Map]s are [gmap string _], and so are the own properties of the two
      alias records; [literalAlias], a plain object, is read and written
      through [Object.prototype].  An alias map that is iterated with
      [for ... in] is a list of entries in iteration order.
    - A JavaScript exception is the [Throw] constructor of [Res]; stateful
      functions are state transformers [M A = State -> Res A * State], so the
      mutations made before an exception survive it.  [fs.statSync] throws on
      a missing path, [resolveFrom] throws when resolution fails, and the
      functions of a resolver entry may throw.
    - The file system, [process.cwd()], [resolveFrom], the [slash] package
      and the client constant are collected in [Env].
    - [cleanUrl], [parseNodeModuleId], [lookupFile] and [moduleRE] live in
      files of the repository that are not part of the sources at hand; they
      are modelled from the specification.
    - The [while] loop of [normalizePublicPath] takes fuel; [None] means the
      fuel ran out.
    - Beyond the resolver the file embeds [resolveRelativeRequest], the plugin
      and environment handling of config.ts ([resolvePlugin], [loadEnv], the
      body of [resolveConfig] once the file is loaded; [dotenv] is a
      parameter), the https options of server/index.ts, and the resolver of
      the playground configuration.  An object that is spread or enumerated is
      a list of entries in enumeration order, each key once; a configuration
      or plugin object records for each of its keys whether it is an own key,
      since a spread copies every own key.

    The file has two parts: the definitions (the embedding, the wording of
    the specification where it is compared with the code, example projects),
    then the properties. *)

From Stdlib Require Import Ascii.
From Stdlib Require String.
From stdpp Require Import base option list strings gmap fin_maps.

Set Default Proof Using "Type".

(** ** JavaScript string primitives *)

Module Js.

Definition truthy (s : string) : bool := negb (String.eqb s "").

(** [if (x)] for [x : string | undefined]. *)
Definition truthy_opt (o : option string) : bool :=
  match o with Some s => truthy s | None => false end.

(** [s.startsWith(p)] *)
Definition startsWith (s p : string) : bool := String.prefix p s.

(** [s.slice(n)] for [n >= 0] *)
Fixpoint slice (n : nat) (s : string) : string :=
  match n, s with
  | O, _ => s
  | S _, EmptyString => EmptyString
  | S n', String _ s' => slice n' s'
  end.

(** [s.endsWith(p)] *)
Definition endsWith (s p : string) : bool :=
  (String.length p <=? String.length s)%nat
  && String.eqb (slice (String.length s - String.length p) s) p.

(** [s[0] === c] *)
Definition head_is (c : ascii) (s : string) : bool :=
  match s with String a _ => Ascii.eqb a c | EmptyString => false end.

(** [s.split(c)] for a one-character separator. *)
Fixpoint split (c : ascii) (s : string) : list string :=
  match s with
  | EmptyString => [EmptyString]
  | String a s' =>
      if Ascii.eqb a c then EmptyString :: split c s'
      else match split c s' with
           | [] => [String a EmptyString]
           | h :: t => String a h :: t
           end
  end.

(** [l.join(sep)] *)
Fixpoint join (sep : string) (l : list string) : string :=
  match l with
  | [] => ""
  | [x] => x
  | x :: rest => x +:+ sep +:+ join sep rest
  end.

(** [s.replace(/^p/, '')] for a literal prefix [p]. *)
Definition stripPrefix (p s : string) : string :=
  if startsWith s p then slice (String.length p) s else s.

(** The characters the regular-expression atom [.] does not match. *)
Definition lineTerminator (a : ascii) : bool :=
  Ascii.eqb a "010" || Ascii.eqb a "013".

Fixpoint hasLineTerminator (s : string) : bool :=
  match s with
  | EmptyString => false
  | String a s' => lineTerminator a || hasLineTerminator s'
  end.

(** [s.match(/\?.*$/)]: the leftmost ["?"] that is followed, up to the end
    of the input, by characters that [.] matches; the match then runs to
    the end of the string. *)
Fixpoint matchQuery (s : string) : option string :=
  match s with
  | EmptyString => None
  | String a s' =>
      if Ascii.eqb a "?" && negb (hasLineTerminator s') then Some s
      else matchQuery s'
  end.

(** [const m = s.match(/\?.*$/); m ? m[0] : ''] *)
Definition queryOf (s : string) : string := default "" (matchQuery s).

End Js.

(** ** Node's [path.posix] *)

Module Path.

Definition sep : ascii := "/".

(** One step of [normalizeString]: the segments kept so far are a stack
    with the last one on top. *)
Definition pushSegment (allowAboveRoot : bool) (stack : list string)
    (seg : string) : list string :=
  if String.eqb seg "" || String.eqb seg "." then stack
  else if String.eqb seg ".." then
    match stack with
    | top :: rest =>
        if String.eqb top ".." then
          (if allowAboveRoot then ".." :: stack else stack)
        else rest
    | [] => if allowAboveRoot then [".."] else []
    end
  else seg :: stack.

Definition normalizeSegments (allowAboveRoot : bool) (segs : list string)
  : list string :=
  rev (fold_left (pushSegment allowAboveRoot) segs []).

Definition normalizeString (path : string) (allowAboveRoot : bool) : string :=
  Js.join "/" (normalizeSegments allowAboveRoot (Js.split sep path)).

Definition isAbsolute (path : string) : bool := Js.head_is sep path.

Definition normalize (path : string) : string :=
  if String.eqb path "" then "."
  else
    let isAbs := isAbsolute path in
    let trailingSeparator := Js.endsWith path "/" in
    let p := normalizeString path (negb isAbs) in
    if String.eqb p "" then
      if isAbs then "/" else if trailingSeparator then "./" else "."
    else
      let p := if trailingSeparator then p +:+ "/" else p in
      if isAbs then "/" +:+ p else p.

(** [path.join(...args)] *)
Definition join (args : list string) : string :=
  match filter (fun a => Js.truthy a = true) args with
  | [] => "."
  | parts => normalize (Js.join "/" parts)
  end.

(** The loop of [path.resolve]: arguments are taken from the right until an
    absolute one is met; [cwd] is the last resort. *)
Fixpoint resolveLoop (rargs : list string) (acc : string) : string * bool :=
  match rargs with
  | [] => (acc, false)
  | p :: rest =>
      if String.eqb p "" then resolveLoop rest acc
      else
        let acc' := p +:+ "/" +:+ acc in
        if isAbsolute p then (acc', true) else resolveLoop rest acc'
  end.

(** [path.resolve(...args)] with [process.cwd() = cwd]. *)
Definition resolve (cwd : string) (args : list string) : string :=
  let '(resolvedPath, resolvedAbsolute) := resolveLoop (rev args ++ [cwd]) "" in
  let p := normalizeString resolvedPath (negb resolvedAbsolute) in
  if resolvedAbsolute then "/" +:+ p
  else if String.eqb p "" then "." else p.

Fixpoint dropCommon (a b : list string) : list string * list string :=
  match a, b with
  | x :: a', y :: b' => if String.eqb x y then dropCommon a' b' else (a, b)
  | _, _ => (a, b)
  end.

Definition segmentsOf (resolved : string) : list string :=
  filter (fun s => Js.truthy s = true) (Js.split sep resolved).

(** [path.relative(from, to)]: both sides are resolved, the common leading
    segments are dropped, every remaining segment of [from] becomes [".."]. *)
Definition relative (cwd : string) (from to : string) : string :=
  if String.eqb from to then ""
  else
    let from := resolve cwd [from] in
    let to := resolve cwd [to] in
    if String.eqb from to then ""
    else
      let '(fromRest, toRest) := dropCommon (segmentsOf from) (segmentsOf to) in
      Js.join "/" (map (fun _ => "..") fromRest ++ toRest).

(** The backwards scan of [path.dirname] over the characters at indices
    [>= 1], given last-first: [Some k] when the separator that ends the
    directory part is [k] characters before the end of that suffix. *)
Fixpoint dirnameScan (rev_tail : list ascii) (matchedSlash : bool) (k : nat)
  : option nat :=
  match rev_tail with
  | [] => None
  | c :: rest =>
      if Ascii.eqb c sep then
        if matchedSlash then dirnameScan rest true (S k) else Some k
      else dirnameScan rest false (S k)
  end.

Fixpoint take (n : nat) (s : string) : string :=
  match n, s with
  | S n', String a s' => String a (take n' s')
  | _, _ => EmptyString
  end.

(** [path.dirname(path)] *)
Definition dirname (path : string) : string :=
  match path with
  | EmptyString => "."
  | String c0 tail =>
      let hasRoot := Ascii.eqb c0 sep in
      match dirnameScan (rev (String.list_ascii_of_string tail)) true 0 with
      | None => if hasRoot then "/" else "."
      | Some k =>
          let end_ := String.length path - 1 - k in
          if hasRoot && (end_ =? 1)%nat then "//" else take end_ path
      end
  end.

End Path.

(** ** Results, the environment and the shared state *)

Inductive Res (A : Type) : Type :=
| Ok (a : A)
| Throw (message : string).
Arguments Ok {A} a.
Arguments Throw {A} message.

Definition isOk {A} (r : Res A) : bool :=
  match r with Ok _ => true | Throw _ => false end.

Inductive Stats : Type := RegularFile | Directory | OtherEntry.

Definition Stats_isFile (s : Stats) : bool :=
  match s with RegularFile => true | _ => false end.
Definition Stats_isDirectory (s : Stats) : bool :=
  match s with Directory => true | _ => false end.

(** What the resolver takes from outside the repository. *)
Record Env : Type := {
  (** the file system: what [stat] finds at a path, if anything *)
  stat : string -> option Stats;
  (** [process.cwd()] *)
  cwd : string;
  (** [resolveFrom(root, id)] of utils: package resolution, throws on failure *)
  resolveFrom : string -> string -> Res string;
  (** the [slash] package *)
  slash : string -> string;
  (** [clientPublicPath] of serverPluginClient *)
  clientPublicPath : string
}.

(** The module-level tables of resolver.ts, optimizer/index.ts and
    serverPluginModuleResolve, and the two caches of one resolver. *)
Record State : Type := {
  requestToFileCache : gmap string string;
  fileToRequestCache : gmap string string;
  moduleIdToFileMap : gmap string string;
  moduleFileToIdMap : gmap string string;
  toyserverOptimizedMap : gmap string string;
  nodeModulesFileMap : gmap string string;
  cacheDirCache : gmap string (option string)
}.

Definition set_requestToFileCache (k v : string) (st : State) : State :=
  {| requestToFileCache := <[k := v]> (requestToFileCache st);
     fileToRequestCache := fileToRequestCache st;
     moduleIdToFileMap := moduleIdToFileMap st;
     moduleFileToIdMap := moduleFileToIdMap st;
     toyserverOptimizedMap := toyserverOptimizedMap st;
     nodeModulesFileMap := nodeModulesFileMap st;
     cacheDirCache := cacheDirCache st |}.

Definition set_fileToRequestCache (k v : string) (st : State) : State :=
  {| requestToFileCache := requestToFileCache st;
     fileToRequestCache := <[k := v]> (fileToRequestCache st);
     moduleIdToFileMap := moduleIdToFileMap st;
     moduleFileToIdMap := moduleFileToIdMap st;
     toyserverOptimizedMap := toyserverOptimizedMap st;
     nodeModulesFileMap := nodeModulesFileMap st;
     cacheDirCache := cacheDirCache st |}.

Definition set_moduleIdToFileMap (k v : string) (st : State) : State :=
  {| requestToFileCache := requestToFileCache st;
     fileToRequestCache := fileToRequestCache st;
     moduleIdToFileMap := <[k := v]> (moduleIdToFileMap st);
     moduleFileToIdMap := moduleFileToIdMap st;
     toyserverOptimizedMap := toyserverOptimizedMap st;
     nodeModulesFileMap := nodeModulesFileMap st;
     cacheDirCache := cacheDirCache st |}.

Definition set_toyserverOptimizedMap (k v : string) (st : State) : State :=
  {| requestToFileCache := requestToFileCache st;
     fileToRequestCache := fileToRequestCache st;
     moduleIdToFileMap := moduleIdToFileMap st;
     moduleFileToIdMap := moduleFileToIdMap st;
     toyserverOptimizedMap := <[k := v]> (toyserverOptimizedMap st);
     nodeModulesFileMap := nodeModulesFileMap st;
     cacheDirCache := cacheDirCache st |}.

Definition set_nodeModulesFileMap (k v : string) (st : State) : State :=
  {| requestToFileCache := requestToFileCache st;
     fileToRequestCache := fileToRequestCache st;
     moduleIdToFileMap := moduleIdToFileMap st;
     moduleFileToIdMap := moduleFileToIdMap st;
     toyserverOptimizedMap := toyserverOptimizedMap st;
     nodeModulesFileMap := <[k := v]> (nodeModulesFileMap st);
     cacheDirCache := cacheDirCache st |}.

Definition set_cacheDirCache (k : string) (v : option string) (st : State) : State :=
  {| requestToFileCache := requestToFileCache st;
     fileToRequestCache := fileToRequestCache st;
     moduleIdToFileMap := moduleIdToFileMap st;
     moduleFileToIdMap := moduleFileToIdMap st;
     toyserverOptimizedMap := toyserverOptimizedMap st;
     nodeModulesFileMap := nodeModulesFileMap st;
     cacheDirCache := <[k := v]> (cacheDirCache st) |}.

(** A process that has resolved nothing yet. *)
Definition emptyState : State :=
  {| requestToFileCache := ∅; fileToRequestCache := ∅;
     moduleIdToFileMap := ∅; moduleFileToIdMap := ∅;
     toyserverOptimizedMap := ∅; nodeModulesFileMap := ∅;
     cacheDirCache := ∅ |}.

(** Stateful computations that may throw. *)
Definition M (A : Type) : Type := State -> Res A * State.

Definition ret {A} (a : A) : M A := fun st => (Ok a, st).
Definition throw {A} (message : string) : M A := fun st => (Throw message, st).
Definition bind {A B} (m : M A) (k : A -> M B) : M B :=
  fun st =>
    match m st with
    | (Ok a, st') => k a st'
    | (Throw e, st') => (Throw e, st')
    end.
Definition gets {A} (f : State -> A) : M A := fun st => (Ok (f st), st).
Definition modify (f : State -> State) : M unit := fun st => (Ok tt, f st).
Definition liftRes {A} (r : Res A) : M A := fun st => (r, st).

Notation "'let*' x ':=' m 'in' k" := (bind m (fun x => k))
  (at level 10, x name, m at level 100, k at level 200).

(** ** The interface of a resolver entry *)

Module Resolver.

Inductive Alias : Type :=
| AliasFunction (f : string -> Res (option string))
| AliasRecord (entries : list (string * string)).

(** [interface Resolver]: each member is optional, and a member function
    returns [string | undefined] or throws. *)
Record t : Type := {
  requestToFile : option (string -> string -> Res (option string));
  fileToRequest : option (string -> string -> Res (option string));
  alias : option Alias
}.

End Resolver.

Definition supportedExts : list string :=
  [".mjs"; ".js"; ".ts"; ".jsx"; ".tsx"; ".json"].

Definition OPTIMIZE_CACHE_DIR : string := "node_modules/.vite_opt_cache".

(** Modelled from the spec: [moduleRE] of serverPluginModuleResolve, the
    reserved node-module-reference prefix [/@modules/] at the start of a
    request. *)
Definition modulePrefix : string := "/@modules/".
Definition moduleRE_test (s : string) : bool := Js.startsWith s modulePrefix.
Definition moduleRE_strip (s : string) : string := Js.stripPrefix modulePrefix s.

(** Modelled from the spec: [cleanUrl] of utils, which strips the query and
    the hash from a path: everything from the first ["?"] or ["#"] on. *)
Fixpoint cleanUrl (url : string) : string :=
  match url with
  | EmptyString => EmptyString
  | String a s' =>
      if Ascii.eqb a "?" || Ascii.eqb a "#" then EmptyString
      else String a (cleanUrl s')
  end.

Record NodeModuleId : Type := {
  scope : string;
  name : string;
  inPkgPath : string
}.

(** Modelled from the spec: [parseNodeModuleId] of utils, which parses the
    [scope/name/subpath] components out of a module id; the scope is the
    leading segment of an id that starts with ["@"]. *)
Definition parseNodeModuleId (id : string) : NodeModuleId :=
  let parts := Js.split "/" id in
  let '(scope, parts) :=
    if Js.startsWith id "@" then (hd "" parts, tl parts) else ("", parts) in
  {| scope := scope; name := hd "" parts; inPkgPath := Js.join "/" (tl parts) |}.

(** ** A plain object used as a table

    [literalAlias] is created as [{}]: besides the properties assigned to
    it, it has those of [Object.prototype].  Its own properties are a
    [gmap string string]; reading and writing go through the prototype. *)

(** The property names of [Object.prototype], all of them bound to functions
    but [__proto__], an accessor for the prototype itself. *)
Definition objectPrototypeNames : list string :=
  ["constructor"; "__defineGetter__"; "__defineSetter__"; "hasOwnProperty";
   "__lookupGetter__"; "__lookupSetter__"; "isPrototypeOf";
   "propertyIsEnumerable"; "toString"; "valueOf"; "__proto__";
   "toLocaleString"].

(** What [table[id]] evaluates to when it is not [undefined]: a string that
    was assigned, or the member of [Object.prototype] of that name. *)
Inductive Aliased : Type :=
| Target (target : string)
| Inherited (name : string).

(** [if (aliased)]: a function or an object is truthy. *)
Definition truthyAliased (aliased : option Aliased) : bool :=
  match aliased with
  | Some (Target target) => Js.truthy target
  | Some (Inherited _) => true
  | None => false
  end.

(** [table[id]]: the accessor [__proto__] first, then an own property, then
    the prototype. *)
Definition getProperty (table : gmap string string) (id : string)
  : option Aliased :=
  if String.eqb id "__proto__" then Some (Inherited id)
  else
    match table !! id with
    | Some target => Some (Target target)
    | None =>
        if bool_decide (id ∈ objectPrototypeNames) then Some (Inherited id)
        else None
    end.

(** [table[id] = target] for a string [target]: the setter of [__proto__]
    ignores a value that is neither an object nor [null]; any other name
    becomes an own property. *)
Definition setProperty (id target : string) (table : gmap string string)
  : gmap string string :=
  if String.eqb id "__proto__" then table else <[id := target]> table.

(** [createResolver]'s closure: the root, the entries ([resolvers] after the
    alias-derived ones were pushed) and the own properties of the two alias
    tables.  The keys of [literalDirAlias] start with ["/"], so none of them
    is a name of [Object.prototype]. *)
Record Internal : Type := {
  root : string;
  resolvers : list Resolver.t;
  literalAlias : gmap string string;
  literalDirAlias : gmap string string
}.

Definition quote : string := String (ascii_of_nat 34) EmptyString.

Definition checkFailMessage : string :=
  "[vite] normalizePublicPath check fail. please report to vite.".

Definition noPackageJsonMessage (publicPath : string) : string :=
  "[vite] can't find package.json for a node_module file: "
  +:+ quote +:+ publicPath +:+ quote +:+ ". something is wrong.".

Section WithEnv.

Variable env : Env.

(** *** File-system primitives *)

Definition existsSync (p : string) : bool :=
  match stat env p with Some _ => true | None => false end.

Definition statSync (p : string) : Res Stats :=
  match stat env p with
  | Some s => Ok s
  | None => Throw ("ENOENT: no such file or directory, stat '" +:+ p +:+ "'")
  end.

(** [try { return fs.statSync(file).isFile() } catch (e) { return false }] *)
Definition isFile (file : string) : bool :=
  match statSync file with
  | Ok s => Stats_isFile s
  | Throw _ => false
  end.

(** [fs.existsSync(p) && fs.statSync(p).isDirectory()] *)
Definition isDir (p : string) : Res bool :=
  if existsSync p then
    match statSync p with
    | Ok s => Ok (Stats_isDirectory s)
    | Throw e => Throw e
    end
  else Ok false.

Fixpoint lookupFileFrom (fuel : nat) (dir : string) (format : string)
  : option string :=
  let fullPath := Path.join [dir; format] in
  if isFile fullPath then Some fullPath
  else
    match fuel with
    | O => None
    | S fuel' =>
        let parentDir := Path.dirname dir in
        if String.eqb parentDir dir then None
        else lookupFileFrom fuel' parentDir format
    end.

(** Modelled from the spec: [lookupFile(dir, [format], true)] of utils, the
    path of the nearest file named [format] at or above [dir], if any. *)
Definition lookupFile (dir : string) (format : string) : option string :=
  lookupFileFrom (String.length dir + 2) dir format.

(** *** optimizer/index.ts *)

Definition resolveOptimizedCacheDir (root : string) : M (option string) :=
  let* cached := gets (fun st => cacheDirCache st !! root) in
  match cached with
  | Some cached => ret cached
  | None =>
      let pkgPath := lookupFile root "package.json" in
      match pkgPath with
      | Some pkgPath =>
          if Js.truthy pkgPath then
            let cacheDir := Path.join [Path.dirname pkgPath; OPTIMIZE_CACHE_DIR] in
            let* _ := modify (set_cacheDirCache root (Some cacheDir)) in
            ret (Some cacheDir)
          else ret None
      | None => ret None
      end
  end.

(** *** resolver.ts, module level *)

(** [tryResolve] inside [resolveOptimizedModule] *)
Definition tryResolve (cacheKey cacheDir file : string) : M (option string) :=
  let file := Path.join [cacheDir; file] in
  let* isfile :=
    liftRes (if existsSync file then
               match statSync file with
               | Ok s => Ok (Stats_isFile s)
               | Throw e => Throw e
               end
             else Ok false) in
  if isfile then
    let* _ := modify (set_toyserverOptimizedMap cacheKey file) in
    ret (Some file)
  else ret None.

Definition resolveOptimizedModule (root id : string) : M (option string) :=
  let cacheKey := root +:+ "#" +:+ id in
  let* cached := gets (fun st => toyserverOptimizedMap st !! cacheKey) in
  if Js.truthy_opt cached then ret cached
  else
    let* cacheDir := resolveOptimizedCacheDir root in
    match cacheDir with
    | Some cacheDir =>
        if Js.truthy cacheDir then
          let* first := tryResolve cacheKey cacheDir id in
          if Js.truthy_opt first then ret first
          else tryResolve cacheKey cacheDir (id +:+ ".js")
        else ret None
    | None => ret None
    end.

Definition resolveNodeModuleFile (root id : string) : M (option string) :=
  let cacheKey := root +:+ "#" +:+ id in
  let* cached := gets (fun st => nodeModulesFileMap st !! cacheKey) in
  if Js.truthy_opt cached then ret cached
  else
    match resolveFrom env root id with
    | Ok resolved =>
        let* _ := modify (set_nodeModulesFileMap cacheKey resolved) in
        ret (Some resolved)
    | Throw _ => ret None
    end.

(** The tail of [defaultRequestToFile], after the module branch. *)
Definition publicOrRoot (publicPath root : string) : string :=
  let publicDirPath := Path.join [root; "public"; Js.slice 1 publicPath] in
  if existsSync publicDirPath then publicDirPath
  else Path.join [root; Js.slice 1 publicPath].

(** The body of [if (moduleRE.test(publicPath)) { ... }] in
    [defaultRequestToFile]: [Some file] when one of its three [return]s is
    taken, [None] when control falls out of the block. *)
Definition moduleRequestToFile (root id : string) : M (option string) :=
  let* cachedNodeModule := gets (fun st => moduleIdToFileMap st !! id) in
  if Js.truthy_opt cachedNodeModule then ret cachedNodeModule
  else
    let* optimizedModule := resolveOptimizedModule root id in
    if Js.truthy_opt optimizedModule then ret optimizedModule
    else
      let* nodeModule := resolveNodeModuleFile root id in
      match nodeModule with
      | Some file =>
          if Js.truthy file then
            let* _ := modify (set_moduleIdToFileMap id file) in
            ret (Some file)
          else ret None
      | None => ret None
      end.

Definition defaultRequestToFile (publicPath root : string) : M string :=
  let* returned :=
    (if moduleRE_test publicPath
     then moduleRequestToFile root (moduleRE_strip publicPath)
     else ret None) in
  match returned with
  | Some file => ret file
  | None => ret (publicOrRoot publicPath root)
  end.

Definition defaultFileToRequest (filePath root : string) : M string :=
  let* id := gets (fun st => moduleFileToIdMap st !! filePath) in
  if Js.truthy_opt id then ret (default "" id)
  else ret ("/" +:+ Js.stripPrefix "public/"
              (slash env (Path.relative (cwd env) root filePath))).

(** The [for (const ext of supportedExts)] loop of
    [resolveFilePathPostfix]; [""] when no probe succeeds. *)
Fixpoint probePostfix (cleanPath : string) (exts : list string) : string :=
  match exts with
  | [] => ""
  | ext :: rest =>
      if isFile (cleanPath +:+ ext) then ext
      else if isFile (Path.join [cleanPath; "/index" +:+ ext])
           then "/index" +:+ ext
           else probePostfix cleanPath rest
  end.

Definition resolveFilePathPostfix (filePath : string) : option string :=
  let cleanPath := cleanUrl filePath in
  if negb (isFile cleanPath) then
    let postfix := probePostfix cleanPath supportedExts in
    let query := Js.queryOf filePath in
    let resolved := cleanPath +:+ postfix +:+ query in
    if negb (String.eqb resolved filePath) then Some postfix else None
  else None.

(** *** [createResolver] *)

(** The entry pushed for a directory alias. *)
Definition dirAliasResolver (key target : string) : Resolver.t :=
  {| Resolver.requestToFile := Some (fun publicPath _ =>
       if Js.startsWith publicPath key
       then Ok (Some (Path.join [target; Js.slice (String.length key) publicPath]))
       else Ok None);
     Resolver.fileToRequest := Some (fun filePath _ =>
       if Js.startsWith filePath (target +:+ "/")
       then Ok (Some (slash env (key +:+ Path.relative (cwd env) target filePath)))
       else Ok None);
     Resolver.alias := None |}.

Definition pushDirAlias (key target : string) (r : Internal) : Internal :=
  {| root := root r;
     resolvers := resolvers r ++ [dirAliasResolver key target];
     literalAlias := literalAlias r;
     literalDirAlias := <[key := target]> (literalDirAlias r) |}.

Definition setLiteralAlias (key target : string) (r : Internal) : Internal :=
  {| root := root r;
     resolvers := resolvers r;
     literalAlias := setProperty key target (literalAlias r);
     literalDirAlias := literalDirAlias r |}.

(** One iteration of [for (const key in alias)] in [resolveAlias]. *)
Definition resolveAliasEntry (r : Internal) (entry : string * string)
  : Res Internal :=
  let '(key, target) := entry in
  if Js.startsWith key "/" && Js.endsWith key "/" && Path.isAbsolute target then
    let fromRoot := Path.join [root r; target] in
    match isDir fromRoot with
    | Throw e => Throw e
    | Ok true => Ok (pushDirAlias key fromRoot r)
    | Ok false =>
        match isDir target with
        | Throw e => Throw e
        | Ok false => Ok r
        | Ok true => Ok (pushDirAlias key target r)
        end
    end
  else Ok (setLiteralAlias key target r).

Fixpoint resolveAlias (r : Internal) (alias : list (string * string))
  : Res Internal :=
  match alias with
  | [] => Ok r
  | entry :: rest =>
      match resolveAliasEntry r entry with
      | Ok r' => resolveAlias r' rest
      | Throw e => Throw e
      end
  end.

(** [resolvers.forEach((r) => { if (r.alias && typeof r.alias === 'object')
    resolveAlias(r.alias) })], over the entries present when it starts. *)
Fixpoint resolveResolverAliases (r : Internal) (rs : list Resolver.t)
  : Res Internal :=
  match rs with
  | [] => Ok r
  | entry :: rest =>
      match Resolver.alias entry with
      | Some (Resolver.AliasRecord alias) =>
          match resolveAlias r alias with
          | Ok r' => resolveResolverAliases r' rest
          | Throw e => Throw e
          end
      | _ => resolveResolverAliases r rest
      end
  end.

Definition createResolver (root : string) (resolvers : list Resolver.t)
    (userAlias : list (string * string)) : Res Internal :=
  let r := {| root := root; resolvers := resolvers;
              literalAlias := ∅; literalDirAlias := ∅ |} in
  match resolveResolverAliases r resolvers with
  | Ok r' => resolveAlias r' userAlias
  | Throw e => Throw e
  end.

(** *** The methods of the resolver *)

Section Methods.

Variable r : Internal.

(** The [for (const r of resolvers)] loop of [requestToFile]: the first
    truthy answer, [None] when the loop ends without one. *)
Fixpoint firstRequestToFile (rs : list Resolver.t) (publicPath : string)
  : Res (option string) :=
  match rs with
  | [] => Ok None
  | entry :: rest =>
      match Resolver.requestToFile entry with
      | None => firstRequestToFile rest publicPath
      | Some f =>
          match f publicPath (root r) with
          | Throw e => Throw e
          | Ok filepath =>
              if Js.truthy_opt filepath then Ok filepath
              else firstRequestToFile rest publicPath
          end
      end
  end.

Fixpoint firstFileToRequest (rs : list Resolver.t) (filePath : string)
  : Res (option string) :=
  match rs with
  | [] => Ok None
  | entry :: rest =>
      match Resolver.fileToRequest entry with
      | None => firstFileToRequest rest filePath
      | Some f =>
          match f filePath (root r) with
          | Throw e => Throw e
          | Ok request =>
              if Js.truthy_opt request then Ok request
              else firstFileToRequest rest filePath
          end
      end
  end.

(** [if (postfix) { ... }] in [requestToFile] *)
Definition applyPostfix (resolved : string) : string :=
  match resolveFilePathPostfix resolved with
  | Some postfix =>
      if Js.truthy postfix then
        if Js.head_is "/" postfix then Path.join [resolved; postfix]
        else resolved +:+ postfix
      else resolved
  | None => resolved
  end.

Definition requestToFile (publicPath : string) : M string :=
  let* cached := gets (fun st => requestToFileCache st !! publicPath) in
  match cached with
  | Some file => ret file
  | None =>
      let* found := liftRes (firstRequestToFile (resolvers r) publicPath) in
      let* resolved :=
        (match found with
         | Some filepath => ret filepath
         | None => defaultRequestToFile publicPath (root r)
         end) in
      let resolved := applyPostfix resolved in
      let* _ := modify (set_requestToFileCache publicPath resolved) in
      ret resolved
  end.

Definition fileToRequest (filePath : string) : M string :=
  let* cached := gets (fun st => fileToRequestCache st !! filePath) in
  match cached with
  | Some request => ret request
  | None =>
      let* found := liftRes (firstFileToRequest (resolvers r) filePath) in
      match found with
      | Some request => ret request
      | None =>
          let* res := defaultFileToRequest filePath (root r) in
          let* _ := modify (set_fileToRequestCache filePath res) in
          ret res
      end
  end.

(** [finalize] inside [normalizePublicPath] *)
Definition finalize (publicPath query result : string) : M string :=
  let result := result +:+ query in
  let* a := requestToFile result in
  let* b := requestToFile publicPath in
  if negb (String.eqb a b) then throw checkFailMessage
  else ret result.

(** The [while (!filePathPostFix.startsWith(inPkgPath))] loop; [None]
    when [fuel] iterations were not enough. *)
Fixpoint findPostFix (fuel : nat) (publicPath filePath inPkgPath : string)
    (filePathPostFix findPkgFrom : string) : option (Res string) :=
  if Js.startsWith filePathPostFix inPkgPath then Some (Ok filePathPostFix)
  else
    match fuel with
    | O => None
    | S fuel' =>
        match lookupFile findPkgFrom "package.json" with
        | Some pkgPath =>
            if Js.truthy pkgPath then
              findPostFix fuel' publicPath filePath inPkgPath
                (slash env (Path.relative (cwd env)
                              (Path.dirname pkgPath) filePath))
                (Path.join [Path.dirname pkgPath; "../"])
            else Some (Throw (noPackageJsonMessage publicPath))
        | None => Some (Throw (noPackageJsonMessage publicPath))
        end
    end.

(** The [if (cacheDir) { ... }] block of [normalizePublicPath]:
    [Some relative] when its [return] is taken. *)
Definition cacheRelative (cacheDir : option string) (filePath : string)
  : option string :=
  match cacheDir with
  | Some cacheDir =>
      if Js.truthy cacheDir then
        let relative := Path.relative (cwd env) cacheDir filePath in
        if negb (Js.startsWith relative "..") then Some relative else None
      else None
  | None => None
  end.

Definition normalizePublicPath (fuel : nat) (publicPath : string)
  : State -> option (Res string * State) :=
  fun st =>
  if String.eqb publicPath (clientPublicPath env) then Some (Ok publicPath, st)
  else
    let query := Js.queryOf publicPath in
    let cleanPublicPath := cleanUrl publicPath in
    if negb (moduleRE_test cleanPublicPath) then
      Some ((let* file := requestToFile cleanPublicPath in
             let* request := fileToRequest file in
             finalize publicPath query request) st)
    else
      match requestToFile cleanPublicPath st with
      | (Throw e, st1) => Some (Throw e, st1)
      | (Ok filePath, st1) =>
          match resolveOptimizedCacheDir (root r) st1 with
          | (Throw e, st2) => Some (Throw e, st2)
          | (Ok cacheDir, st2) =>
              match cacheRelative cacheDir filePath with
              | Some relative =>
                  Some (finalize publicPath query
                          (Path.join ["/@modules/"; slash env relative]) st2)
              | None =>
                  let id := moduleRE_strip cleanPublicPath in
                  let parsed := parseNodeModuleId id in
                  if negb (Js.truthy (inPkgPath parsed))
                  then Some (Ok publicPath, st2)
                  else
                    match findPostFix fuel publicPath filePath
                            (inPkgPath parsed) "" filePath with
                    | None => None
                    | Some (Throw e) => Some (Throw e, st2)
                    | Some (Ok filePathPostFix) =>
                        Some (finalize publicPath query
                                (Js.join "/"
                                   (filter (fun s => Js.truthy s = true)
                                      ["/@modules"; scope parsed;
                                       name parsed; filePathPostFix])) st2)
                    end
              end
          end
      end.

(** The [for (const r of resolvers)] loop of [alias]. *)
Fixpoint firstAlias (rs : list Resolver.t) (id : string)
  : Res (option string) :=
  match rs with
  | [] => Ok None
  | entry :: rest =>
      match Resolver.alias entry with
      | Some (Resolver.AliasFunction f) =>
          match f id with
          | Throw e => Throw e
          | Ok aliased =>
              if Js.truthy_opt aliased then Ok aliased
              else firstAlias rest id
          end
      | _ => firstAlias rest id
      end
  end.

Definition alias (id : string) : Res (option Aliased) :=
  let aliased := getProperty (literalAlias r) id in
  if truthyAliased aliased then Ok aliased
  else
    match firstAlias (resolvers r) id with
    | Ok aliased => Ok (Target <$> aliased)
    | Throw e => Throw e
    end.

Definition isPublicRequest (publicPath : string) : M bool :=
  let* file := requestToFile publicPath in
  ret (Js.startsWith file (Path.resolve (cwd env) [root r; "public"])).

End Methods.

End WithEnv.

(** ** A concrete environment

    File systems given by a table of absolute paths, used to run the resolver
    on examples. *)

Module Concrete.

Fixpoint assoc {A} (k : string) (l : list (string * A)) : option A :=
  match l with
  | [] => None
  | (k', v) :: rest => if String.eqb k k' then Some v else assoc k rest
  end.

(** [stat] resolves its argument against the working directory before it
    looks it up. *)
Definition statOf (cwd : string) (table : list (string * Stats))
  : string -> option Stats :=
  fun p => assoc (Path.resolve cwd [p]) table.

Fixpoint replaceBackslashes (s : string) : string :=
  match s with
  | EmptyString => EmptyString
  | String a s' =>
      String (if Ascii.eqb a "\" then "/"%char else a) (replaceBackslashes s')
  end.

(** The [slash] package: backslashes become forward slashes, except in an
    extended-length path. *)
Definition slashImpl (path : string) : string :=
  if Js.startsWith path "\\?\" then path else replaceBackslashes path.

Definition resolveFromOf (table : list (string * string))
  : string -> string -> Res string :=
  fun root id =>
    match assoc (root +:+ "#" +:+ id) table with
    | Some file => Ok file
    | None => Throw ("Cannot find module '" +:+ id +:+ "' from '" +:+ root +:+ "'")
    end.

Definition envOf (files : list (string * Stats))
    (packages : list (string * string)) : Env :=
  {| stat := statOf "/" files;
     cwd := "/";
     resolveFrom := resolveFromOf packages;
     slash := slashImpl;
     clientPublicPath := "/vite/client" |}.

End Concrete.

(** ** States over time *)

(** What [resolveOptimizedCacheDir] answers for [root] in state [st]. *)
Definition cacheDirOf (env : Env) (st : State) (root : string) : option string :=
  match cacheDirCache st !! root with
  | Some cached => cached
  | None =>
      match lookupFile env root "package.json" with
      | Some pkgPath =>
          if Js.truthy pkgPath
          then Some (Path.join [Path.dirname pkgPath; OPTIMIZE_CACHE_DIR])
          else None
      | None => None
      end
  end.

(** What [defaultFileToRequest] answers for [filePath] in state [st]. *)
Definition defaultRequestOf (env : Env) (st : State) (filePath root : string)
  : string :=
  if Js.truthy_opt (moduleFileToIdMap st !! filePath)
  then default "" (moduleFileToIdMap st !! filePath)
  else "/" +:+ Js.stripPrefix "public/"
         (slash env (Path.relative (cwd env) root filePath)).

(** [st'] is a state after [st]: the two caches only grew, and the
    file->request cache only by files that no resolver entry answers; the
    file->id table is the same and the optimizer directory of every root is
    answered the same way. *)
Record later (env : Env) (r : Internal) (st st' : State) : Prop := {
  later_requestToFileCache : requestToFileCache st ⊆ requestToFileCache st';
  later_fileToRequestCache : fileToRequestCache st ⊆ fileToRequestCache st';
  later_fileToRequestNew :
    forall filePath,
      fileToRequestCache st !! filePath = None ->
      is_Some (fileToRequestCache st' !! filePath) ->
      firstFileToRequest r (resolvers r) filePath = Ok None;
  later_moduleFileToIdMap : moduleFileToIdMap st' = moduleFileToIdMap st;
  later_cacheDirOf : forall root, cacheDirOf env st' root = cacheDirOf env st root
}.

(** The same with both caches untouched. *)
Record sameCaches (env : Env) (st st' : State) : Prop := {
  same_requestToFileCache : requestToFileCache st' = requestToFileCache st;
  same_fileToRequestCache : fileToRequestCache st' = fileToRequestCache st;
  same_moduleFileToIdMap : moduleFileToIdMap st' = moduleFileToIdMap st;
  same_cacheDirOf : forall root, cacheDirOf env st' root = cacheDirOf env st root
}.

(** The caches hold what the resolver would compute: a cached request is
    the default rule's answer for a file that no entry answers; a cached file
    is the first entry's answer or else, for a request outside the module
    prefix, the public-then-root path, with the fuzzy suffix applied. *)
Definition consistent (env : Env) (r : Internal) (st : State) : Prop :=
  (forall filePath request,
      fileToRequestCache st !! filePath = Some request ->
      firstFileToRequest r (resolvers r) filePath = Ok None
      /\ request = defaultRequestOf env st filePath (root r))
  /\ (forall publicPath file,
        requestToFileCache st !! publicPath = Some file ->
        match firstRequestToFile r (resolvers r) publicPath with
        | Ok (Some found) => file = applyPostfix env found
        | Ok None =>
            moduleRE_test publicPath = false ->
            file = applyPostfix env (publicOrRoot env publicPath (root r))
        | Throw _ => False
        end).

(** The states a resolver goes through: it starts with both caches empty
    (the module-level tables hold whatever the process has put there) and
    moves by calls of its methods. *)
Inductive reachable (env : Env) (r : Internal) : State -> Prop :=
| reachable_fresh st :
    requestToFileCache st = ∅ -> fileToRequestCache st = ∅ ->
    reachable env r st
| reachable_requestToFile st publicPath res st' :
    reachable env r st ->
    requestToFile env r publicPath st = (res, st') ->
    reachable env r st'
| reachable_fileToRequest st filePath res st' :
    reachable env r st ->
    fileToRequest env r filePath st = (res, st') ->
    reachable env r st'
| reachable_normalizePublicPath st fuel publicPath res st' :
    reachable env r st ->
    normalizePublicPath env r fuel publicPath st = Some (res, st') ->
    reachable env r st'
| reachable_isPublicRequest st publicPath res st' :
    reachable env r st ->
    isPublicRequest env r publicPath st = (res, st') ->
    reachable env r st'.

(** Every run of [m] relates the state before to the state after by [P]. *)
Definition keeps {A} (P : State -> State -> Prop) (m : M A) : Prop :=
  forall st res st', m st = (res, st') -> P st st'.

(** ** The specification's wording, for comparison *)

Module Spec.

Section WithEnv.

Variable env : Env.

(** [p] is an existing directory. *)
Definition existingDirectory (p : string) : bool :=
  match stat env p with Some Directory => true | _ => false end.

(** [file] lies under the directory [dir]. *)
Definition liesUnder (dir file : string) : bool :=
  Js.startsWith file (dir +:+ "/").

(** The test that makes an alias entry a directory alias. *)
Definition isDirectoryAlias (entry : string * string) : bool :=
  Js.startsWith entry.1 "/" && Js.endsWith entry.1 "/" && Path.isAbsolute entry.2.

(** Every function of the entry returns normally on every argument. *)
Definition returnsNormally (entry : Resolver.t) : Prop :=
  (forall f, Resolver.requestToFile entry = Some f ->
             forall publicPath root, isOk (f publicPath root) = true)
  /\ (forall f, Resolver.fileToRequest entry = Some f ->
               forall filePath root, isOk (f filePath root) = true)
  /\ (forall f, Resolver.alias entry = Some (Resolver.AliasFunction f) ->
               forall id, isOk (f id) = true).

(** The target the specification gives the directory alias [entry] below
    the root [root0]: the value resolved from the root if that is an existing
    directory, else the value itself if that is one, else none: the alias is
    skipped. *)
Definition chosenTarget (root0 : string) (entry : string * string)
  : option string :=
  let fromRoot := Path.join [root0; entry.2] in
  if existingDirectory fromRoot then Some fromRoot
  else if existingDirectory entry.2 then Some entry.2
  else None.

(** The resolver entries one alias entry gives rise to: one, made for the
    chosen target, for a directory alias that is not skipped. *)
Definition entryOf (root0 : string) (entry : string * string)
  : list Resolver.t :=
  if isDirectoryAlias entry then
    match chosenTarget root0 entry with
    | Some dir => [dirAliasResolver env entry.1 dir]
    | None => []
    end
  else [].

(** The resolver entries the alias entries give rise to, in their order. *)
Definition aliasEntries (root0 : string) (entries : list (string * string))
  : list Resolver.t :=
  flat_map (entryOf root0) entries.

(** What one alias entry does to the directory-alias table: a directory
    alias that is not skipped registers its chosen target under its key. *)
Definition registerDirAlias (root0 : string) (table : gmap string string)
    (entry : string * string) : gmap string string :=
  if isDirectoryAlias entry then
    match chosenTarget root0 entry with
    | Some dir => <[entry.1 := dir]> table
    | None => table
    end
  else table.

(** The directory-alias table the alias entries give rise to. *)
Definition dirAliasTable (root0 : string) (entries : list (string * string))
  : gmap string string :=
  fold_left (registerDirAlias root0) entries ∅.

(** What one alias entry does to the literal table: an entry that is not a
    directory alias is assigned. *)
Definition registerLiteral (table : gmap string string)
    (entry : string * string) : gmap string string :=
  if isDirectoryAlias entry then table
  else setProperty entry.1 entry.2 table.

(** The literal table the alias entries give rise to. *)
Definition literalTable (entries : list (string * string))
  : gmap string string :=
  fold_left registerLiteral entries ∅.

(** Request->file with the steps in the order the specification lists them:
    cache, then the module-prefix step, then the resolver entries, then the
    public directory and the root; the fuzzy suffix and the memoization
    apply to whatever was found. *)
Definition requestToFileModuleFirst (r : Internal) (publicPath : string)
  : M string :=
  let* cached := gets (fun st => requestToFileCache st !! publicPath) in
  match cached with
  | Some file => ret file
  | None =>
      let* fromModule :=
        (if moduleRE_test publicPath
         then moduleRequestToFile env (root r) (moduleRE_strip publicPath)
         else ret None) in
      let* resolved :=
        (match fromModule with
         | Some file => ret file
         | None =>
             let* found := liftRes (firstRequestToFile r (resolvers r) publicPath) in
             match found with
             | Some file => ret file
             | None => ret (publicOrRoot env publicPath (root r))
             end
         end) in
      let resolved := applyPostfix env resolved in
      let* _ := modify (set_requestToFileCache publicPath resolved) in
      ret resolved
  end.

End WithEnv.

End Spec.

(** ** Example projects *)

Module Examples.

Definition orEmpty (r : Res Internal) : Internal :=
  match r with
  | Ok r => r
  | Throw _ => {| root := ""; resolvers := []; literalAlias := ∅;
                  literalDirAlias := ∅ |}
  end.

(** The project of the specification's end-to-end scenario, with a public
    directory and a file of the same name inside and outside it. *)
Definition projEnv : Env :=
  Concrete.envOf
    [("/proj", Directory);
     ("/proj/foo-dir", Directory);
     ("/proj/foo-dir/util.ts", RegularFile);
     ("/proj/public", Directory);
     ("/proj/public/logo.png", RegularFile);
     ("/proj/public/a.js", RegularFile);
     ("/proj/a.js", RegularFile);
     ("/proj/foo.js", RegularFile);
     ("/proj/src", Directory);
     ("/proj/src/app.js", RegularFile);
     ("/proj/src/lib", Directory);
     ("/proj/src/lib/index.tsx", RegularFile);
     ("/proj/publications", Directory);
     ("/proj/publications/list.js", RegularFile)]
    [].

Definition projAlias : list (string * string) :=
  [("react", "@pika/react"); ("/@foo/", "/proj/foo-dir")].

Definition proj : Internal :=
  orEmpty (createResolver projEnv "/proj" [] projAlias).

(** A project without resolvers or aliases. *)
Definition plain : Internal :=
  orEmpty (createResolver projEnv "/proj" [] []).

(** A project whose root directory is empty. *)
Definition emptyEnv : Env := Concrete.envOf [("/proj", Directory)] [].

Definition emptyProj : Internal :=
  orEmpty (createResolver emptyEnv "/proj" [] []).

(** A project that serves its own copies of packages from [web_modules]
    through a directory alias on the module prefix. *)
Definition webModulesEnv : Env :=
  Concrete.envOf
    [("/proj", Directory);
     ("/proj/web_modules", Directory);
     ("/proj/web_modules/lodash.js", RegularFile);
     ("/proj/node_modules", Directory);
     ("/proj/node_modules/lodash", Directory);
     ("/proj/node_modules/lodash/index.js", RegularFile)]
    [("/proj#lodash", "/proj/node_modules/lodash/index.js")].

Definition webModules : Internal :=
  orEmpty (createResolver webModulesEnv "/proj" []
             [("/@modules/", "/proj/web_modules")]).

(** A plugin aliases [react]; the user configuration aliases it too. *)
Definition pluginResolver (target : string) : Resolver.t :=
  {| Resolver.requestToFile := None;
     Resolver.fileToRequest := None;
     Resolver.alias := Some (Resolver.AliasRecord [("react", target)]) |}.

(** A project with an installed package that is imported by a deep path. *)
Definition pkgEnv : Env :=
  Concrete.envOf
    [("/proj", Directory);
     ("/proj/package.json", RegularFile);
     ("/proj/node_modules", Directory);
     ("/proj/node_modules/lodash-es", Directory);
     ("/proj/node_modules/lodash-es/package.json", RegularFile);
     ("/proj/node_modules/lodash-es/fp", Directory);
     ("/proj/node_modules/lodash-es/fp/x.js", RegularFile)]
    [("/proj#lodash-es/fp/x", "/proj/node_modules/lodash-es/fp/x.js");
     ("/proj#lodash-es/fp/x.js", "/proj/node_modules/lodash-es/fp/x.js")].

Definition pkg : Internal :=
  orEmpty (createResolver pkgEnv "/proj" [] []).

(** The same key aliased to the empty string by the user. *)
Definition emptyTarget : Internal :=
  orEmpty (createResolver projEnv "/proj" [pluginResolver "preact"]
             [("react", "")]).

Definition userWins : Internal :=
  orEmpty (createResolver projEnv "/proj" [pluginResolver "preact"]
             [("react", "@pika/react")]).






(** Directory aliases with a target below the root, a target as given, and
    a target that does not exist. *)
Definition dirsAlias : list (string * string) :=
  [("/@src/", "/src"); ("/@foo/", "/proj/foo-dir"); ("/@gone/", "/proj/gone")].

(** A directory alias for a directory two levels below the root. *)
Definition libAlias : Internal :=
  orEmpty (createResolver projEnv "/proj" [] [("/@lib/", "/proj/src/lib")]).

(** A plugin and a user configuration whose alias maps both have the own
    key [__proto__] (as [JSON.parse] or a computed key makes it). *)
Definition protoResolver : Resolver.t :=
  {| Resolver.requestToFile := None;
     Resolver.fileToRequest := None;
     Resolver.alias := Some (Resolver.AliasRecord [("__proto__", "preact")]) |}.

Definition protoKey : Internal :=
  orEmpty (createResolver projEnv "/proj" [protoResolver]
             [("__proto__", "evil")]).

End Examples.

(** ** Predicates used in the statements *)

(** Both probes of one extension fail on [cleanPath]. *)
Definition probesFail (env : Env) (cleanPath ext : string) : Prop :=
  isFile env (cleanPath +:+ ext) = false
  /\ isFile env (Path.join [cleanPath; "/index" +:+ ext]) = false.

(** An entry that does not answer [publicPath]: it has no [requestToFile],
    or its [requestToFile] returns [undefined] or the empty string. *)
Definition declines (r : Internal) (publicPath : string) (entry : Resolver.t)
  : Prop :=
  match Resolver.requestToFile entry with
  | None => True
  | Some f => exists o, f publicPath (root r) = Ok o /\ Js.truthy_opt o = false
  end.

(** An entry that does not answer [filePath]: it has no [fileToRequest], or
    its [fileToRequest] returns [undefined] or the empty string. *)
Definition declinesFile (r : Internal) (filePath : string) (entry : Resolver.t)
  : Prop :=
  match Resolver.fileToRequest entry with
  | None => True
  | Some f => exists o, f filePath (root r) = Ok o /\ Js.truthy_opt o = false
  end.

(** [s] does not contain the character [c]. *)
Fixpoint noSep (c : ascii) (s : string) : bool :=
  match s with
  | EmptyString => true
  | String a s' => negb (Ascii.eqb a c) && noSep c s'
  end.

(** A path segment that normalization keeps as it is. *)
Definition plainSegment (s : string) : bool :=
  Js.truthy s && negb (String.eqb s ".") && negb (String.eqb s "..")
  && noSep "/" s.

(** The absolute path made of the segments [segs]. *)
Definition absolutePath (segs : list string) : string :=
  "/" +:+ Js.join "/" segs.

(** The last character of [s] is [c]. *)
Fixpoint lastIs (c : ascii) (s : string) : bool :=
  match s with
  | EmptyString => false
  | String a EmptyString => Ascii.eqb a c
  | String _ s' => lastIs c s'
  end.

Ltac munfold :=
  unfold bind, ret, gets, modify, liftRes, throw in *.

(** ** More of the code: example projects *)

Module MoreExamples.

(** A project whose dependencies were pre-bundled into the optimizer cache. *)
Definition optEnv : Env :=
  Concrete.envOf
    [("/proj", Directory);
     ("/proj/package.json", RegularFile);
     ("/proj/node_modules", Directory);
     ("/proj/node_modules/.vite_opt_cache", Directory);
     ("/proj/node_modules/.vite_opt_cache/lodash.js", RegularFile);
     ("/proj/src", Directory);
     ("/proj/src/lib", Directory);
     ("/proj/src/lib/index.tsx", RegularFile)]
    [("/proj#vue", "/proj/node_modules/vue/index.js")].

Definition opt : Internal :=
  Examples.orEmpty (createResolver optEnv "/proj" [] []).

(** The same project after its files were removed and the package
    resolution changed its mind. *)
Definition wipedEnv : Env :=
  Concrete.envOf [("/proj", Directory)]
    [("/proj#vue", "/elsewhere/vue.js")].

(** A project that lives directly below a package.json at the root of the
    file system. *)
Definition rootManifestEnv : Env :=
  Concrete.envOf [("/package.json", RegularFile); ("/proj", Directory)] [].

Definition rootManifest : Internal :=
  Examples.orEmpty (createResolver rootManifestEnv "/proj" [] []).

(** Entries with an alias function: one that knows [vue], one that throws. *)
Definition vueAlias : Resolver.t :=
  {| Resolver.requestToFile := None;
     Resolver.fileToRequest := None;
     Resolver.alias := Some (Resolver.AliasFunction (fun id =>
       if String.eqb id "vue" then Ok (Some "vue/dist/vue.esm.js")
       else Ok None)) |}.

Definition throwingAlias : Resolver.t :=
  {| Resolver.requestToFile := None;
     Resolver.fileToRequest := None;
     Resolver.alias := Some (Resolver.AliasFunction (fun id =>
       Throw "alias failed")) |}.

Definition aliased : Internal :=
  Examples.orEmpty
    (createResolver Examples.projEnv "/proj"
       [Examples.pluginResolver "preact"; vueAlias; throwingAlias]
       [("react", "@pika/react")]).

End MoreExamples.

(** ** More of the code: optimizer/index.ts with its optional argument *)

(** [resolveOptimizedCacheDir(root, pkgPath?)]: the manifest path may be
    passed in; [pkgPath || lookupFile(...)] looks for one only when the
    argument is missing or empty. *)
Definition resolveOptimizedCacheDirWith (env : Env) (root : string)
    (pkgPath : option string) : M (option string) :=
  let* cached := gets (fun st => cacheDirCache st !! root) in
  match cached with
  | Some cached => ret cached
  | None =>
      let pkgPath :=
        if Js.truthy_opt pkgPath then pkgPath
        else lookupFile env root "package.json" in
      if negb (Js.truthy_opt pkgPath) then ret None
      else
        let cacheDir :=
          Path.join [Path.dirname (default "" pkgPath); OPTIMIZE_CACHE_DIR] in
        let* _ := modify (set_cacheDirCache root (Some cacheDir)) in
        ret (Some cacheDir)
  end.

(** ** More of the code: predicates *)

(** An entry that does not answer [alias(id)]: it has no alias function, or
    its alias function returns [undefined] or the empty string. *)
Definition declinesAlias (id : string) (entry : Resolver.t) : Prop :=
  match Resolver.alias entry with
  | Some (Resolver.AliasFunction f) =>
      exists o, f id = Ok o /\ Js.truthy_opt o = false
  | _ => True
  end.

(** A process in which the module-resolve plugin has served [file] as
    [request]. *)
Definition servedModule (request file : string) : State :=
  {| requestToFileCache := ∅; fileToRequestCache := ∅;
     moduleIdToFileMap := {[ moduleRE_strip request := file ]};
     moduleFileToIdMap := {[ file := request ]};
     toyserverOptimizedMap := ∅; nodeModulesFileMap := ∅;
     cacheDirCache := ∅ |}.

(** An entry that [createResolver] pushed for a directory alias. *)
Definition aliasDerived (env : Env) (e : Resolver.t) : Prop :=
  exists key target,
    e = dirAliasResolver env key target
    /\ Js.startsWith key "/" = true /\ Js.endsWith key "/" = true
    /\ Spec.existingDirectory env target = true.

(** What [createResolver env root0 rs _] and every intermediate closure of
    it look like. *)
Definition createdShape (env : Env) (root0 : string) (rs : list Resolver.t)
    (r : Internal) : Prop :=
  root r = root0
  /\ exists derived,
       resolvers r = rs ++ derived
       /\ Forall (aliasDerived env) derived
       /\ (forall key target,
             literalDirAlias r !! key = Some target ->
             dirAliasResolver env key target ∈ derived)
       /\ (forall key target,
             literalAlias r !! key = Some target ->
             Spec.isDirectoryAlias (key, target) = false).

(** A plugin that only brings the directory alias [key -> target]. *)
Definition dirAliasPlugin (key target : string) : Resolver.t :=
  {| Resolver.requestToFile := None;
     Resolver.fileToRequest := None;
     Resolver.alias := Some (Resolver.AliasRecord [(key, target)]) |}.

(** ** More of the code: playground/toyserver.config.js *)

Module Playground.

(** The resolver of the playground configuration, for [srcPath] and the
    target [barDir] of its own alias; [path.relative] is taken in the
    working directory of [env]. *)
Definition resolver (env : Env) (srcPath barDir : string) : Resolver.t :=
  {| Resolver.fileToRequest := Some (fun filePath _ =>
       if Js.startsWith filePath srcPath
       then Ok (Some ("/@/" +:+ Path.relative (cwd env) srcPath filePath))
       else Ok None);
     Resolver.requestToFile := Some (fun publicPath _ =>
       if Js.startsWith publicPath "/@/"
       then Ok (Some (Path.join [srcPath; Js.stripPrefix "/@/" publicPath]))
       else if Js.startsWith publicPath "/components/"
       then Ok (Some (Path.join [srcPath;
                                 Js.stripPrefix "/components/" publicPath]))
       else Ok None);
     Resolver.alias := Some (Resolver.AliasRecord [("/@bar/", barDir)]) |}.

(** The playground resolver in the example project, with a user alias on
    the prefix the resolver answers itself. *)
Definition shadowed : Internal :=
  Examples.orEmpty
    (createResolver Examples.projEnv "/proj"
       [resolver Examples.projEnv "/proj/src" "/proj/bar-dir"]
       [("/@/", "/proj/foo-dir")]).

End Playground.

(** ** More of the code: [resolveRelativeRequest] *)

(** [literalDirAlias[key] = target] on the list of keys in the order
    [for (const alias in literalDirAlias)] enumerates them: a key keeps the
    place of its first assignment. *)
Definition assignKey (keys : list string) (key : string) : list string :=
  if bool_decide (key ∈ keys) then keys else keys ++ [key].

(** The effect of one iteration of [resolveAlias] on the keys of
    [literalDirAlias]. *)
Definition dirAliasStep (env : Env) (root0 : string) (keys : list string)
    (entry : string * string) : list string :=
  let '(key, target) := entry in
  if Js.startsWith key "/" && Js.endsWith key "/" && Path.isAbsolute target then
    if Spec.existingDirectory env (Path.join [root0; target])
       || Spec.existingDirectory env target
    then assignKey keys key
    else keys
  else keys.

(** The alias maps [createResolver] goes through, in its order: those of the
    resolvers that have one, then the user's. *)
Definition aliasRecords (rs : list Resolver.t) : list (string * string) :=
  flat_map (fun e => match Resolver.alias e with
                     | Some (Resolver.AliasRecord entries) => entries
                     | _ => []
                     end) rs.

(** The keys of [literalDirAlias] of [createResolver root0 rs userAlias], as
    enumerated. *)
Definition dirAliasKeys (env : Env) (root0 : string) (rs : list Resolver.t)
    (userAlias : list (string * string)) : list string :=
  fold_left (dirAliasStep env root0) (aliasRecords rs ++ userAlias) [].

(** The value of [resolved] when the [return] of [resolveRelativeRequest]
    is reached.  [dirAliases] are the keys of [literalDirAlias] as
    enumerated; the loop stops at the first one the importer starts with. *)
Definition resolveRelative (env : Env) (r : Internal) (dirAliases : list string)
    (importer importee : string) : M string :=
  if Js.startsWith importee "." then
    let resolved := Path.resolve (cwd env) [Path.dirname importer; importee] in
    match List.find (fun alias => Js.startsWith importer alias) dirAliases with
    | Some alias =>
        if negb (Js.startsWith resolved alias) then
          let* importerFilePath := requestToFile env r importer in
          let importeeFilePath :=
            Path.resolve (cwd env) [Path.dirname importerFilePath; importee] in
          fileToRequest env r importeeFilePath
        else ret resolved
    | None => ret resolved
    end
  else ret importee.

(** [resolveRelativeRequest(importer, importee)], returning the pair
    [(pathname, query)].  [queryRE] of utils is a parameter: [queryRE importee]
    is [importee.match(queryRE)], reduced to the matched text. *)
Definition resolveRelativeRequest (env : Env) (r : Internal)
    (queryRE : string -> option string) (dirAliases : list string)
    (importer importee : string) : M (string * string) :=
  let queryMatch := queryRE importee in
  let* resolved := resolveRelative env r dirAliases importer importee in
  ret (cleanUrl resolved
         +:+ (if Js.endsWith importee "/" && negb (Js.endsWith resolved "/")
              then "/" else ""),
       default "" queryMatch).

(** ** More of the code: config.ts *)

(** A JavaScript object with string values, as its own keys in enumeration
    order with their values; a key occurs once. *)
Module Obj.

Definition t : Type := list (string * string).

(** [o[k]] *)
Definition get (k : string) (o : t) : option string := Concrete.assoc k o.

(** [o[k] = v]: a key that is there keeps its place. *)
Fixpoint set (o : t) (k v : string) : t :=
  match o with
  | [] => [(k, v)]
  | (k', v') :: rest =>
      if String.eqb k' k then (k', v) :: rest else (k', v') :: set rest k v
  end.

(** [Object.assign(target, source)] *)
Definition assign (target source : t) : t :=
  fold_left (fun acc kv => set acc kv.1 kv.2) source target.

(** [{ ...a, ...b }], where spreading [undefined] adds nothing. *)
Definition spread (a b : option t) : t :=
  assign (assign [] (default [] a)) (default [] b).

End Obj.

Module Config.

(** An own key of a configuration object: missing, or there with a value
    that may be [undefined]. *)
Inductive Key (A : Type) : Type :=
| Absent
| Present (value : option A).
Arguments Absent {A}.
Arguments Present {A} value.

(** [object.key] *)
Definition valueOf {A} (k : Key A) : option A :=
  match k with
  | Absent => None
  | Present value => value
  end.

(** The key in [{ ...base, ...over }]: an own key of [over] replaces the
    one of [base], also when its value is [undefined]. *)
Definition spreadKey {A} (base over : Key A) : Key A :=
  match over with
  | Absent => base
  | Present _ => over
  end.

(** [ResolvedConfig], with the keys config.ts reads and, in [others], every
    other own key with its value as opaque text ([hostname], [port], [open],
    [https], [httpsOptions], [proxy], [eject], [dryrun], ...).  A plugin is
    an object of the same shape: its type, [Pick<UserConfig, 'alias' |
    'resolvers'>], names two keys, but the spread in [resolvePlugin] copies
    every own key the object has. *)
#[warnings="-register-all"]
Inductive t : Type := Build_t {
  root : Key string;
  alias : Key Obj.t;
  resolvers : Key (list Resolver.t);
  mode : Key string;
  env : Key (gmap string string);
  plugins : Key (list t);
  __path : Key string;
  others : gmap string string
}.

(** [config.alias] with [{}] for [undefined], [config.resolvers] with [[]]. *)
Definition aliasOrEmpty (config : t) : Obj.t := default [] (valueOf (alias config)).
Definition resolversOrEmpty (config : t) : list Resolver.t :=
  default [] (valueOf (resolvers config)).

Definition resolvePlugin (config plugin : t) : t :=
  {| root := spreadKey (root config) (root plugin);
     alias := Present (Some (Obj.spread (valueOf (alias plugin))
                               (valueOf (alias config))));
     resolvers := Present (Some (resolversOrEmpty config
                                   ++ resolversOrEmpty plugin));
     mode := spreadKey (mode config) (mode plugin);
     env := spreadKey (env config) (env plugin);
     plugins := spreadKey (plugins config) (plugins plugin);
     __path := spreadKey (__path config) (__path plugin);
     others := others plugin ∪ others config |}.

(** [if (config.plugins) { for (const plugin of config.plugins) { config =
    resolvePlugin(config, plugin) } }]: the loop runs over the array it
    started with. *)
Definition resolvePlugins (config : t) : t :=
  match valueOf (plugins config) with
  | Some ps => fold_left resolvePlugin ps config
  | None => config
  end.

(** [process.env] and [clientEnv] inside [loadEnv]. *)
Record EnvState : Type := {
  nodeEnv : gmap string string;
  clientEnv : gmap string string
}.

Definition envPrefix : string := "TOYSERVER_".

(** The body of [for (const key in result.parsed)]. *)
Definition exposeKey (s : EnvState) (entry : string * string) : EnvState :=
  let '(key, value) := entry in
  let nodeEnv1 := <[key := value]> (nodeEnv s) in
  let clientEnv1 :=
    if Js.startsWith key envPrefix then <[key := value]> (clientEnv s)
    else clientEnv s in
  let nodeEnv2 :=
    if String.eqb key "NODE_ENV" then <["TOYSERVER_ENV" := value]> nodeEnv1
    else nodeEnv1 in
  {| nodeEnv := nodeEnv2; clientEnv := clientEnv1 |}.

Definition envFiles (mode : string) : list string :=
  [".env." +:+ mode +:+ ".local"; ".env." +:+ mode; ".env.local"; ".env"].

Definition localModeMessage : string :=
  quote +:+ "local" +:+ quote
  +:+ " cannot be used as a mode name because it conflicts with "
  +:+ "the .local postfix for .env files.".

Section LoadEnv.

(** The file system and working directory; [env] is a field here. *)
Variable host : Env.

(** [dotenv.config({ debug, path })] followed by [dotenvExpand(result)], on
    the file at [path] with [process.env] as given: [result.error], or
    [result.parsed] and [process.env] afterwards. *)
Variable dotenvConfig :
  string -> gmap string string -> Res (Obj.t * gmap string string).

(** [for (const file of envFiles)] *)
Fixpoint loadEnvFiles (files : list string) (root : string) (s : EnvState)
  : Res EnvState :=
  match files with
  | [] => Ok s
  | file :: rest =>
      match lookupFile host root file with
      | Some path =>
          if Js.truthy path then
            match dotenvConfig path (nodeEnv s) with
            | Throw e => Throw e
            | Ok (parsed, nodeEnv') =>
                loadEnvFiles rest root
                  (fold_left exposeKey parsed
                     {| nodeEnv := nodeEnv'; clientEnv := clientEnv s |})
            end
          else loadEnvFiles rest root s
      | None => loadEnvFiles rest root s
      end
  end.

(** [loadEnv(mode, root)] with [process.env = processEnv]: the error, or
    [process.env] afterwards with the returned [clientEnv]. *)
Definition loadEnv (mode root : string) (processEnv : gmap string string)
  : Res EnvState :=
  if String.eqb mode "local" then Throw localModeMessage
  else loadEnvFiles (envFiles mode) root
         {| nodeEnv := processEnv; clientEnv := ∅ |}.

(** The [try] block of [resolveConfig] from [if (!config)] on, for the
    value [config] that [require(resolvedPath)] left: the error that ends the
    process, or the resolved configuration with [process.env] afterwards. *)
Definition resolveLoaded (mode resolvedPath : string) (config : option t)
    (processEnv : gmap string string) : Res (t * gmap string string) :=
  match config with
  | None => Throw "the config file not found"
  | Some config =>
      let root1 :=
        match valueOf (root config) with
        | Some dir =>
            if Js.truthy dir && negb (Path.isAbsolute dir)
            then Present (Some (Path.resolve (cwd host)
                                  [Path.dirname resolvedPath; dir]))
            else root config
        | None => root config
        end in
      let config1 :=
        {| root := root1; alias := alias config; resolvers := resolvers config;
           mode := Config.mode config; env := Config.env config;
           plugins := plugins config; __path := __path config;
           others := others config |} in
      let config2 := resolvePlugins config1 in
      let envRoot :=
        if Js.truthy_opt (valueOf (root config2))
        then default "" (valueOf (root config2))
        else cwd host in
      match loadEnv mode envRoot processEnv with
      | Throw e => Throw e
      | Ok s =>
          Ok ({| root := root config2; alias := alias config2;
                 resolvers := resolvers config2; mode := Config.mode config2;
                 env := Present (Some (clientEnv s
                                         ∪ default ∅ (valueOf (Config.env config2))));
                 plugins := plugins config2;
                 __path := Present (Some resolvedPath);
                 others := others config2 |},
              nodeEnv s)
      end
  end.

End LoadEnv.

(** [const { root = process.cwd(), resolvers = [], alias = {} } = config]
    and [createResolver(root, resolvers, alias)] in [createServer] of
    server/index.ts. *)
Definition serverResolver (env : Env) (config : t) : Res Internal :=
  createResolver env (default (cwd env) (valueOf (root config)))
    (resolversOrEmpty config) (aliasOrEmpty config).

End Config.

(** Every key of [clientEnv] has the prefix. *)
Definition prefixedOnly (s : Config.EnvState) : Prop :=
  forall key, is_Some (Config.clientEnv s !! key) ->
              Js.startsWith key Config.envPrefix = true.

(** ** More of the code: server/index.ts *)

Module Https.

(** What an https option can hold: nothing, a string, a [Buffer], or a value
    of another type (an array, say), of which only the truthiness matters. *)
Inductive Value : Type :=
| Undefined
| Text (s : string)
| Buffer (bytes : string)
| Other (isTruthy : bool).

Definition truthy (v : Value) : bool :=
  match v with
  | Undefined => false
  | Text s => Js.truthy s
  | Buffer _ => true
  | Other isTruthy => isTruthy
  end.

(** The four options [resolveHttpsConfig] reads. *)
Record ServerOptions : Type := {
  ca : Value;
  cert : Value;
  key : Value;
  pfx : Value
}.

Section WithFiles.

(** [process.cwd()] *)
Variable cwd : string.

(** [fs.readFileSync(path)]: the contents, or [None] when it throws. *)
Variable readFileSync : string -> option string.

(** [createCertificate()] of utils *)
Variable createCertificate : Value.

(** A value that is not a string makes [path.resolve] throw, which the
    [catch] turns into the value itself. *)
Definition readFileIfExists (value : Value) : Value :=
  if truthy value then
    match value with
    | Text s =>
        match readFileSync (Path.resolve cwd [s]) with
        | Some bytes => Buffer bytes
        | None => value
        end
    | _ => value
    end
  else value.

Definition resolveHttpsConfig (httpsOption : ServerOptions) : ServerOptions :=
  let assigned :=
    {| ca := readFileIfExists (ca httpsOption);
       cert := readFileIfExists (cert httpsOption);
       key := readFileIfExists (key httpsOption);
       pfx := readFileIfExists (pfx httpsOption) |} in
  if negb (truthy (key assigned)) || negb (truthy (cert assigned)) then
    {| ca := ca assigned; cert := createCertificate;
       key := createCertificate; pfx := pfx assigned |}
  else assigned.

End WithFiles.

(** A disk with a key file and a certificate file below [/proj]. *)
Definition disk (path : string) : option string :=
  if String.eqb path "/proj/cert/server.pem" then Some "KEY"
  else if String.eqb path "/proj/cert/server.crt" then Some "CERT"
  else None.

End Https.

(** ** More of the code: example configurations *)

Module ConfigExamples.

Definition reactPlugin (target : string) : Config.t :=
  {| Config.root := Config.Absent;
     Config.alias :=
       Config.Present (Some [("react", target); ("vue", "vue-" +:+ target)]);
     Config.resolvers :=
       Config.Present (Some [Examples.pluginResolver "resolver-react"]);
     Config.mode := Config.Absent;
     Config.env := Config.Absent;
     Config.plugins := Config.Absent;
     Config.__path := Config.Absent;
     Config.others := ∅ |}.

(** A plugin object that also carries a root and an environment. *)
Definition rootPlugin : Config.t :=
  {| Config.root := Config.Present (Some "packages/app");
     Config.alias := Config.Absent;
     Config.resolvers := Config.Absent;
     Config.mode := Config.Absent;
     Config.env := Config.Present (Some {[ "USER" := "plugin" ]});
     Config.plugins := Config.Absent;
     Config.__path := Config.Absent;
     Config.others := ∅ |}.

Definition withPlugins (ps : list Config.t) : Config.t :=
  {| Config.root := Config.Present (Some ".");
     Config.alias := Config.Present (Some [("react", "@pika/react")]);
     Config.resolvers := Config.Absent;
     Config.mode := Config.Present (Some "development");
     Config.env := Config.Present (Some {[ "USER" := "root" ]});
     Config.plugins := Config.Present (Some ps);
     Config.__path := Config.Absent;
     Config.others := {[ "port" := "3001" ]} |}.

(** A configuration file at [/proj/toyserver.config.js]. *)
Definition config : Config.t :=
  withPlugins [reactPlugin "first"; reactPlugin "second"].

(** The same with a plugin that brings its own root. *)
Definition rooted : Config.t :=
  withPlugins [reactPlugin "first"; rootPlugin; reactPlugin "second"].

Definition host : Env :=
  Concrete.envOf [("/proj", Directory); ("/proj/.env", RegularFile)] [].

(** A [dotenv] that finds the same two variables in every file. *)
Definition dotenvConfig (path : string) (processEnv : gmap string string)
  : Res (Obj.t * gmap string string) :=
  Ok ([("TOYSERVER_API", "/api"); ("USER", "nobody")], processEnv).

End ConfigExamples.

(** * Properties *)

(** ** Basic facts about strings *)

Lemma string_eqb_true (a b : string) : String.eqb a b = true <-> a = b.
Proof. apply String.eqb_eq. Qed.

Lemma string_eqb_false (a b : string) : String.eqb a b = false <-> a <> b.
Proof. apply String.eqb_neq. Qed.

Lemma truthy_true (s : string) : Js.truthy s = true <-> s <> "".
Proof.
  unfold Js.truthy. rewrite negb_true_iff. apply string_eqb_false.
Qed.

Lemma truthy_false (s : string) : Js.truthy s = false <-> s = "".
Proof.
  unfold Js.truthy. rewrite negb_false_iff. apply string_eqb_true.
Qed.

Lemma append_cons (a : ascii) (s t : string) :
  String a s +:+ t = String a (s +:+ t).
Proof. reflexivity. Qed.

Lemma append_nil_l (t : string) : "" +:+ t = t.
Proof. reflexivity. Qed.

Lemma append_nil_r (s : string) : s +:+ "" = s.
Proof.
  induction s as [|a s IH]; [reflexivity|].
  rewrite append_cons. now f_equal.
Qed.

Lemma append_assoc (a b c : string) : (a +:+ b) +:+ c = a +:+ b +:+ c.
Proof.
  induction a as [|x a IH]; [reflexivity|].
  rewrite !append_cons. now f_equal.
Qed.

Lemma append_inv_head (a b c : string) : a +:+ b = a +:+ c -> b = c.
Proof.
  induction a as [|x a IH]; intros H; [exact H|].
  rewrite !append_cons in H. injection H as H. now apply IH.
Qed.

(** What [cleanUrl] cuts off is empty or starts at the first ["?"] or ["#"]. *)
Lemma cleanUrl_split (s : string) :
  exists rest, s = cleanUrl s +:+ rest
    /\ (rest = "" \/ Js.head_is "?" rest = true \/ Js.head_is "#" rest = true).
Proof.
  induction s as [|a s [rest [Heq Hrest]]]; cbn.
  - exists "". split; [reflexivity | now left].
  - destruct (Ascii.eqb a "?") eqn:Hq; cbn.
    + exists (String a s). split; [reflexivity|]. right; left. exact Hq.
    + destruct (Ascii.eqb a "#") eqn:Hh; cbn.
      * exists (String a s). split; [reflexivity|]. right; right. exact Hh.
      * exists rest. split; [|exact Hrest].
        rewrite append_cons. now f_equal.
Qed.

(** A postfix that starts with neither ["?"] nor ["#"] always changes the
    path: the comparison [resolved !== filePath] of [resolveFilePathPostfix]
    cannot hide it. *)
Lemma postfix_changes_path (filePath postfix query : string) (c : ascii) p' :
  postfix = String c p' ->
  Ascii.eqb c "?" = false -> Ascii.eqb c "#" = false ->
  cleanUrl filePath +:+ postfix +:+ query <> filePath.
Proof.
  intros -> Hq Hh Heq.
  destruct (cleanUrl_split filePath) as [rest [Hsplit Hrest]].
  rewrite Hsplit in Heq at 2.
  apply append_inv_head in Heq. rewrite append_cons in Heq.
  destruct Hrest as [-> | [H | H]]; [discriminate | |];
    destruct rest as [|d rest]; try discriminate;
    injection Heq as <- _; cbn in H; congruence.
Qed.

(** ** Fuzzy suffixes *)

Section Postfix.

Variable env : Env.

Lemma probePostfix_skip cleanPath pre rest :
  (forall e, e ∈ pre -> probesFail env cleanPath e) ->
  probePostfix env cleanPath (pre ++ rest) = probePostfix env cleanPath rest.
Proof.
  induction pre as [|e pre IH]; intros H; [reflexivity|].
  cbn. destruct (H e) as [-> ->]; [left|].
  apply IH. intros e' He'. apply H. now right.
Qed.

Lemma probePostfix_none cleanPath exts :
  (forall e, e ∈ exts -> probesFail env cleanPath e) ->
  probePostfix env cleanPath exts = "".
Proof.
  intros H. rewrite <- (app_nil_r exts). now rewrite probePostfix_skip.
Qed.

Lemma supportedExts_dot ext :
  ext ∈ supportedExts -> exists e', ext = String "." e'.
Proof.
  unfold supportedExts. rewrite !elem_of_cons, elem_of_nil.
  intros [-> | [-> | [-> | [-> | [-> | [-> | []]]]]]]; eauto.
Qed.

Lemma applyPostfix_with resolved postfix c p' :
  isFile env (cleanUrl resolved) = false ->
  probePostfix env (cleanUrl resolved) supportedExts = postfix ->
  postfix = String c p' ->
  Ascii.eqb c "?" = false -> Ascii.eqb c "#" = false ->
  applyPostfix env resolved =
    if Ascii.eqb c "/" then Path.join [resolved; postfix]
    else resolved +:+ postfix.
Proof.
  intros Hfile Hprobe -> Hq Hh.
  unfold applyPostfix, resolveFilePathPostfix. rewrite Hfile, Hprobe. cbn.
  destruct (String.eqb _ resolved) eqn:Heq.
  - apply string_eqb_true in Heq.
    now apply (postfix_changes_path _ _ _ _ _ eq_refl Hq Hh) in Heq.
  - reflexivity.
Qed.

Lemma applyPostfix_file resolved :
  isFile env (cleanUrl resolved) = true -> applyPostfix env resolved = resolved.
Proof.
  intros H. unfold applyPostfix, resolveFilePathPostfix. now rewrite H.
Qed.

End Postfix.

(** C5.  When the resolved path is not an existing regular file, the
    extensions are probed in the order .mjs, .js, .ts, .jsx, .tsx, .json:
    "path + ext" before "path/index + ext".  The file-system lookups are made
    on the path without query and fragment.  The first probe that succeeds
    supplies the postfix, which is appended to the resolved path: an
    extension is concatenated, an index postfix is joined on with
    [path.join].  When no probe succeeds the resolved path comes back
    unchanged. *)
Theorem fuzzy_suffix_probe_order (env : Env) (resolved : string) :
  isFile env (cleanUrl resolved) = false ->
  supportedExts = [".mjs"; ".js"; ".ts"; ".jsx"; ".tsx"; ".json"]
  /\ (forall pre ext post,
        supportedExts = pre ++ ext :: post ->
        (forall e, e ∈ pre -> probesFail env (cleanUrl resolved) e) ->
        (isFile env (cleanUrl resolved +:+ ext) = true ->
         applyPostfix env resolved = resolved +:+ ext)
        /\ (isFile env (cleanUrl resolved +:+ ext) = false ->
            isFile env (Path.join [cleanUrl resolved; "/index" +:+ ext]) = true ->
            applyPostfix env resolved = Path.join [resolved; "/index" +:+ ext]))
  /\ ((forall e, e ∈ supportedExts -> probesFail env (cleanUrl resolved) e) ->
      applyPostfix env resolved = resolved).
Proof.
  intros Hfile. split; [reflexivity|]. split.
  - intros pre ext post Hexts Hpre.
    destruct (supportedExts_dot ext) as [e' He'].
    { rewrite Hexts. apply elem_of_app. right. left. }
    split.
    + intros Hext.
      assert (Hp : probePostfix env (cleanUrl resolved) supportedExts = ext).
      { rewrite Hexts, probePostfix_skip by exact Hpre. cbn. now rewrite Hext. }
      now rewrite (applyPostfix_with env resolved ext "." e' Hfile Hp He').
    + intros Hext Hindex.
      assert (Hp : probePostfix env (cleanUrl resolved) supportedExts
                   = "/index" +:+ ext).
      { rewrite Hexts, probePostfix_skip by exact Hpre. cbn.
        now rewrite Hext, Hindex. }
      now rewrite (applyPostfix_with env resolved ("/index" +:+ ext) "/"
                     ("index" +:+ ext) Hfile Hp).
  - intros Hall. unfold applyPostfix, resolveFilePathPostfix.
    rewrite Hfile, (probePostfix_none env _ _ Hall). cbn.
    now destruct (String.eqb _ resolved).
Qed.

Lemma fuzzy_suffix_probe_order_witness :
  isFile Examples.projEnv (cleanUrl "/proj/src/lib") = false
  /\ applyPostfix Examples.projEnv "/proj/src/lib" = "/proj/src/lib/index.tsx".
Proof.
  split; [reflexivity|].
  pose proof (fuzzy_suffix_probe_order Examples.projEnv "/proj/src/lib" eq_refl)
    as [_ [Hfirst _]].
  destruct (Hfirst [".mjs"; ".js"; ".ts"; ".jsx"] ".tsx" [".json"] eq_refl)
    as [_ Hindex].
  - intros e He. unfold probesFail.
    rewrite !elem_of_cons, elem_of_nil in He.
    destruct He as [-> | [-> | [-> | [-> | []]]]]; split; reflexivity.
  - now rewrite Hindex.
Defined.

(** ** Directory aliases *)

Lemma isDir_existingDirectory (env : Env) (p : string) :
  isDir env p = Ok (Spec.existingDirectory env p).
Proof.
  unfold isDir, existsSync, statSync, Spec.existingDirectory.
  destruct (stat env p) as [[]|]; reflexivity.
Qed.

(** ** Request -> file *)

Section RequestToFile.

Variable env : Env.
Variable r : Internal.

Lemma firstRequestToFile_skip publicPath pre rest :
  Forall (declines r publicPath) pre ->
  firstRequestToFile r (pre ++ rest) publicPath
  = firstRequestToFile r rest publicPath.
Proof.
  induction 1 as [|e pre He _ IH]; [reflexivity|].
  cbn. unfold declines in He.
  destruct (Resolver.requestToFile e) as [f|]; [|exact IH].
  destruct He as [o [-> ->]]. exact IH.
Qed.

Lemma firstRequestToFile_none publicPath rs :
  Forall (declines r publicPath) rs ->
  firstRequestToFile r rs publicPath = Ok None.
Proof.
  intros H. rewrite <- (app_nil_r rs). now rewrite firstRequestToFile_skip.
Qed.

Lemma firstRequestToFile_first publicPath pre e post f file :
  Forall (declines r publicPath) pre ->
  Resolver.requestToFile e = Some f ->
  f publicPath (root r) = Ok (Some file) ->
  file <> "" ->
  firstRequestToFile r (pre ++ e :: post) publicPath = Ok (Some file).
Proof.
  intros Hpre Hf Hcall Hfile. rewrite firstRequestToFile_skip by exact Hpre.
  cbn. rewrite Hf, Hcall. cbn.
  apply truthy_true in Hfile. now rewrite Hfile.
Qed.

(** Whatever [firstRequestToFile] answers is truthy. *)
Lemma firstRequestToFile_truthy rs publicPath file :
  firstRequestToFile r rs publicPath = Ok (Some file) -> file <> "".
Proof.
  induction rs as [|e rs IH]; cbn; [discriminate|].
  destruct (Resolver.requestToFile e) as [f|]; [|exact IH].
  destruct (f publicPath (root r)) as [o|]; [|discriminate].
  destruct (Js.truthy_opt o) eqn:Ho; [|exact IH].
  intros [= ->]. now apply truthy_true.
Qed.

Lemma requestToFile_hit publicPath file st :
  requestToFileCache st !! publicPath = Some file ->
  requestToFile env r publicPath st = (Ok file, st).
Proof. intros H. unfold requestToFile. munfold. now rewrite H. Qed.

Lemma requestToFile_miss publicPath st :
  requestToFileCache st !! publicPath = None ->
  requestToFile env r publicPath st =
    match firstRequestToFile r (resolvers r) publicPath with
    | Throw e => (Throw e, st)
    | Ok (Some file) =>
        (Ok (applyPostfix env file),
         set_requestToFileCache publicPath (applyPostfix env file) st)
    | Ok None =>
        match defaultRequestToFile env publicPath (root r) st with
        | (Ok file, st1) =>
            (Ok (applyPostfix env file),
             set_requestToFileCache publicPath (applyPostfix env file) st1)
        | (Throw e, st1) => (Throw e, st1)
        end
    end.
Proof.
  intros H. unfold requestToFile. munfold. rewrite H.
  destruct (firstRequestToFile r (resolvers r) publicPath) as [[file|]|e];
    reflexivity.
Qed.

Lemma defaultRequestToFile_module publicPath st :
  moduleRE_test publicPath = true ->
  defaultRequestToFile env publicPath (root r) st =
    match moduleRequestToFile env (root r) (moduleRE_strip publicPath) st with
    | (Ok (Some file), st1) => (Ok file, st1)
    | (Ok None, st1) => (Ok (publicOrRoot env publicPath (root r)), st1)
    | (Throw e, st1) => (Throw e, st1)
    end.
Proof.
  intros H. unfold defaultRequestToFile. munfold. rewrite H.
  now destruct (moduleRequestToFile env (root r) _ st) as [[[file|]|e] st1].
Qed.

End RequestToFile.

(** C4 (amended).  For a publicPath that is not cached, the resolver entries
    are tried first, in registration order, and the first non-empty answer
    wins, also for a path under the module prefix.  Only when every entry
    declines and the path matches the prefix is the prefix stripped and the
    id looked up in the id->file table, then by the optimizer locator, then
    by node-module resolution, whose success is recorded in the id->file
    table.  In each case the fuzzy suffix is applied to what was found and
    the outcome is memoized under the publicPath and returned. *)
Theorem request_to_file_order (env : Env) (r : Internal) (publicPath : string)
    (st : State) :
  requestToFileCache st !! publicPath = None ->
  (forall pre e post f file,
      resolvers r = pre ++ e :: post ->
      Forall (declines r publicPath) pre ->
      Resolver.requestToFile e = Some f ->
      f publicPath (root r) = Ok (Some file) ->
      file <> "" ->
      requestToFile env r publicPath st
      = (Ok (applyPostfix env file),
         set_requestToFileCache publicPath (applyPostfix env file) st))
  /\ (Forall (declines r publicPath) (resolvers r) ->
      moduleRE_test publicPath = true ->
      let id := moduleRE_strip publicPath in
      (forall file,
          moduleIdToFileMap st !! id = Some file -> file <> "" ->
          requestToFile env r publicPath st
          = (Ok (applyPostfix env file),
             set_requestToFileCache publicPath (applyPostfix env file) st))
      /\ (Js.truthy_opt (moduleIdToFileMap st !! id) = false ->
          forall optimized st1,
            resolveOptimizedModule env (root r) id st = (Ok optimized, st1) ->
            (forall file,
                optimized = Some file -> file <> "" ->
                requestToFile env r publicPath st
                = (Ok (applyPostfix env file),
                   set_requestToFileCache publicPath (applyPostfix env file) st1))
            /\ (Js.truthy_opt optimized = false ->
                forall file st2,
                  resolveNodeModuleFile env (root r) id st1 = (Ok (Some file), st2) ->
                  file <> "" ->
                  requestToFile env r publicPath st
                  = (Ok (applyPostfix env file),
                     set_requestToFileCache publicPath (applyPostfix env file)
                       (set_moduleIdToFileMap id file st2))))).
Proof.
  intros Hmiss. split.
  - intros pre e post f file Hrs Hpre Hf Hcall Hfile.
    rewrite requestToFile_miss by exact Hmiss.
    now rewrite Hrs, (firstRequestToFile_first r _ _ _ _ _ _ Hpre Hf Hcall Hfile).
  - intros Hall Hmod id.
    assert (Hreq : requestToFile env r publicPath st =
              match moduleRequestToFile env (root r) id st with
              | (Ok (Some file), st1) =>
                  (Ok (applyPostfix env file),
                   set_requestToFileCache publicPath (applyPostfix env file) st1)
              | (Ok None, st1) =>
                  (Ok (applyPostfix env (publicOrRoot env publicPath (root r))),
                   set_requestToFileCache publicPath
                     (applyPostfix env (publicOrRoot env publicPath (root r))) st1)
              | (Throw e, st1) => (Throw e, st1)
              end).
    { rewrite requestToFile_miss by exact Hmiss.
      rewrite firstRequestToFile_none by exact Hall.
      rewrite defaultRequestToFile_module by exact Hmod. fold id.
      now destruct (moduleRequestToFile env (root r) id st) as [[[file|]|e] st1]. }
    rewrite Hreq. unfold moduleRequestToFile. munfold. split.
    + intros file Hmemo Hfile. rewrite Hmemo. cbn.
      apply truthy_true in Hfile. now rewrite Hfile.
    + intros Hmemo optimized st1 Hopt. rewrite Hmemo, Hopt. split.
      * intros file -> Hfile. cbn.
        apply truthy_true in Hfile. now rewrite Hfile.
      * intros Hfalsy file st2 Hnode Hfile. rewrite Hfalsy, Hnode.
        apply truthy_true in Hfile. now rewrite Hfile.
Qed.

Lemma request_to_file_order_witness :
  requestToFileCache emptyState !! "/@modules/lodash" = None
  /\ requestToFile Examples.webModulesEnv Examples.webModules "/@modules/lodash"
       emptyState
     = (Ok "/proj/web_modules/lodash.js",
        set_requestToFileCache "/@modules/lodash" "/proj/web_modules/lodash.js"
          emptyState).
Proof.
  split; [reflexivity|].
  exact (proj1 (request_to_file_order Examples.webModulesEnv Examples.webModules
                  "/@modules/lodash" emptyState eq_refl)
           [] (dirAliasResolver Examples.webModulesEnv "/@modules/"
                 "/proj/web_modules") [] _ "/proj/web_modules/lodash"
           eq_refl (Forall_nil_2 _) eq_refl eq_refl ltac:(discriminate)).
Defined.

(** C4, as worded, fails: with a directory alias on the module prefix the
    alias-derived entry answers [/@modules/lodash] before the module step is
    reached, although node-module resolution would find the package. *)
Lemma module_step_first_counterexample :
  moduleRE_test "/@modules/lodash" = true
  /\ requestToFileCache emptyState !! "/@modules/lodash" = None
  /\ fst (Spec.requestToFileModuleFirst Examples.webModulesEnv Examples.webModules
            "/@modules/lodash" emptyState)
     = Ok "/proj/node_modules/lodash/index.js"
  /\ fst (requestToFile Examples.webModulesEnv Examples.webModules
            "/@modules/lodash" emptyState)
     = Ok "/proj/web_modules/lodash.js"
  /\ fst (requestToFile Examples.webModulesEnv Examples.webModules
            "/@modules/lodash" emptyState)
     <> fst (Spec.requestToFileModuleFirst Examples.webModulesEnv
               Examples.webModules "/@modules/lodash" emptyState).
Proof.
  split; [reflexivity|]. split; [reflexivity|].
  split; [vm_compute; reflexivity|]. split; [vm_compute; reflexivity|].
  vm_compute. discriminate.
Qed.

(** ** File -> request *)

Section FileToRequest.

Variable env : Env.
Variable r : Internal.

Lemma fileToRequest_hit filePath request st :
  fileToRequestCache st !! filePath = Some request ->
  fileToRequest env r filePath st = (Ok request, st).
Proof. intros H. unfold fileToRequest. munfold. now rewrite H. Qed.

Lemma defaultFileToRequest_value filePath root st :
  defaultFileToRequest env filePath root st
  = (Ok (defaultRequestOf env st filePath root), st).
Proof.
  unfold defaultFileToRequest, defaultRequestOf. munfold.
  now destruct (Js.truthy_opt (moduleFileToIdMap st !! filePath)).
Qed.

Lemma fileToRequest_miss filePath st :
  fileToRequestCache st !! filePath = None ->
  fileToRequest env r filePath st =
    match firstFileToRequest r (resolvers r) filePath with
    | Throw e => (Throw e, st)
    | Ok (Some request) => (Ok request, st)
    | Ok None =>
        (Ok (defaultRequestOf env st filePath (root r)),
         set_fileToRequestCache filePath
           (defaultRequestOf env st filePath (root r)) st)
    end.
Proof.
  intros H. unfold fileToRequest. unfold bind at 1 2. unfold gets, liftRes.
  rewrite H.
  destruct (firstFileToRequest r (resolvers r) filePath) as [[request|]|e];
    try reflexivity.
  unfold bind. now rewrite defaultFileToRequest_value.
Qed.

(** What the default rule answers is memoized under the file path. *)
Lemma fileToRequest_default_memoized filePath st request st' :
  fileToRequestCache st !! filePath = None ->
  firstFileToRequest r (resolvers r) filePath = Ok None ->
  fileToRequest env r filePath st = (Ok request, st') ->
  fileToRequestCache st' !! filePath = Some request.
Proof.
  intros Hmiss Hnone. rewrite fileToRequest_miss, Hnone by exact Hmiss.
  intros H. injection H as <- <-. apply lookup_insert_eq.
Qed.

(** What a resolver entry answers is returned with the state untouched. *)
Lemma fileToRequest_entry_state filePath st request :
  fileToRequestCache st !! filePath = None ->
  firstFileToRequest r (resolvers r) filePath = Ok (Some request) ->
  fileToRequest env r filePath st = (Ok request, st).
Proof.
  intros Hmiss Hsome. now rewrite fileToRequest_miss, Hsome by exact Hmiss.
Qed.

End FileToRequest.

(** C9 at its failing input.  The alias-derived entry for [/@foo/] answers
    the file [/proj/foo-dir/util.ts]; [fileToRequest] returns that answer
    from inside the loop and leaves the file->request cache without an entry
    for the file. *)
Theorem fileToRequest_entry_answer_not_memoized :
  let call := fileToRequest Examples.projEnv Examples.proj
                "/proj/foo-dir/util.ts" emptyState in
  fst call = Ok "/@foo/util.ts"
  /\ fileToRequestCache (snd call) !! "/proj/foo-dir/util.ts" = None
  /\ snd call = emptyState.
Proof. vm_compute. split; [reflexivity|]. split; reflexivity. Qed.

(** ** Public requests *)

Lemma prefix_append_l (a b s : string) :
  String.prefix (a +:+ b) s = true -> String.prefix a s = true.
Proof.
  revert s. induction a as [|x a IH]; intros s H; [now destruct s|].
  rewrite append_cons in H. destruct s as [|y s]; cbn in *; [discriminate|].
  destruct (ascii_dec x y); [|discriminate]. now apply IH.
Qed.

(** A file under [<root>/public] is classified as public. *)
Lemma isPublicRequest_under_public (env : Env) (r : Internal) publicPath st file st' :
  requestToFile env r publicPath st = (Ok file, st') ->
  Spec.liesUnder (Path.resolve (cwd env) [root r; "public"]) file = true ->
  isPublicRequest env r publicPath st = (Ok true, st').
Proof.
  intros Hreq Hunder. unfold isPublicRequest. munfold. rewrite Hreq.
  unfold Spec.liesUnder, Js.startsWith in *.
  now rewrite (prefix_append_l _ _ _ Hunder).
Qed.

(** The two classifications the specification gives as examples. *)
Example isPublicRequest_logo :
  fst (isPublicRequest Examples.projEnv Examples.plain "/logo.png" emptyState)
  = Ok true.
Proof. vm_compute. reflexivity. Qed.

Example isPublicRequest_app :
  fst (isPublicRequest Examples.projEnv Examples.plain "/src/app.js" emptyState)
  = Ok false.
Proof. vm_compute. reflexivity. Qed.

(** C6 at its failing input.  [/publications/list.js] resolves to
    [/proj/publications/list.js], which is not under the directory
    [/proj/public], and [isPublicRequest] answers [true]: the test is a
    string prefix without a path-separator boundary. *)
Theorem isPublicRequest_prefix_without_boundary :
  let publicDir := Path.resolve (cwd Examples.projEnv) ["/proj"; "public"] in
  publicDir = "/proj/public"
  /\ fst (requestToFile Examples.projEnv Examples.plain "/publications/list.js"
            emptyState)
     = Ok "/proj/publications/list.js"
  /\ Spec.liesUnder publicDir "/proj/publications/list.js" = false
  /\ fst (isPublicRequest Examples.projEnv Examples.plain "/publications/list.js"
            emptyState)
     = Ok true.
Proof.
  vm_compute. split; [reflexivity|]. split; [reflexivity|]. split; reflexivity.
Qed.

(** ** Aliases *)

Section Aliases.

Variable env : Env.

Lemma resolveAliasEntry_literalAlias r entry :
  exists r', resolveAliasEntry env r entry = Ok r'
    /\ root r' = root r
    /\ literalAlias r' =
         if Spec.isDirectoryAlias entry then literalAlias r
         else setProperty entry.1 entry.2 (literalAlias r).
Proof.
  destruct entry as [key target].
  unfold resolveAliasEntry, Spec.isDirectoryAlias. cbn [fst snd].
  destruct (Js.startsWith key "/" && Js.endsWith key "/" && Path.isAbsolute target).
  - rewrite !isDir_existingDirectory.
    destruct (Spec.existingDirectory env _); [eauto|].
    destruct (Spec.existingDirectory env target); eauto.
  - eauto.
Qed.

(** [resolveAlias] never throws. *)
Lemma resolveAlias_ok r alias :
  exists r', resolveAlias env r alias = Ok r' /\ root r' = root r.
Proof.
  revert r. induction alias as [|entry rest IH]; intros r; cbn; [eauto|].
  destruct (resolveAliasEntry_literalAlias r entry) as [r1 [-> [Hroot _]]].
  destruct (IH r1) as [r' [-> Hroot']]. exists r'. split; congruence.
Qed.

Lemma resolveAlias_other r alias r' id :
  resolveAlias env r alias = Ok r' ->
  id ∉ alias.*1 ->
  literalAlias r' !! id = literalAlias r !! id.
Proof.
  revert r. induction alias as [|entry rest IH]; intros r; cbn.
  - now intros [= ->].
  - destruct (resolveAliasEntry_literalAlias r entry) as [r1 [-> [_ Hlit]]].
    intros Hrest Hnotin. apply not_elem_of_cons in Hnotin as [Hne Hnotin].
    rewrite (IH r1 Hrest Hnotin), Hlit.
    destruct (Spec.isDirectoryAlias entry); [reflexivity|].
    unfold setProperty. destruct (String.eqb entry.1 "__proto__"); [reflexivity|].
    now rewrite lookup_insert_ne.
Qed.

(** The entry of a literal key decides what the table holds for that key. *)
Lemma resolveAlias_literal r alias r' id target :
  resolveAlias env r alias = Ok r' ->
  NoDup alias.*1 ->
  (id, target) ∈ alias ->
  Spec.isDirectoryAlias (id, target) = false ->
  id <> "__proto__" ->
  literalAlias r' !! id = Some target.
Proof.
  revert r. induction alias as [|entry rest IH]; intros r; cbn.
  - intros _ _ Hin. now apply elem_of_nil in Hin.
  - destruct (resolveAliasEntry_literalAlias r entry) as [r1 [-> [_ Hlit]]].
    intros Hrest Hnodup Hin Hliteral Hproto.
    apply NoDup_cons in Hnodup as [Hfresh Hnodup].
    apply elem_of_cons in Hin as [<- | Hin].
    + rewrite (resolveAlias_other r1 rest r' id Hrest Hfresh), Hlit, Hliteral.
      unfold setProperty. cbn [fst snd].
      apply string_eqb_false in Hproto. rewrite Hproto.
      apply lookup_insert_eq.
    + now apply (IH r1).
Qed.

(** A key that no alias map assigns is not an own property of the table. *)
Lemma resolveAlias_proto r alias r' :
  resolveAlias env r alias = Ok r' ->
  literalAlias r !! "__proto__" = None ->
  literalAlias r' !! "__proto__" = None.
Proof.
  revert r. induction alias as [|entry rest IH]; intros r; cbn.
  - now intros [= ->].
  - destruct (resolveAliasEntry_literalAlias r entry) as [r1 [-> [_ Hlit]]].
    intros Hrest Hnone. apply (IH r1 Hrest). rewrite Hlit.
    destruct (Spec.isDirectoryAlias entry); [exact Hnone|].
    unfold setProperty. destruct (String.eqb entry.1 "__proto__") eqn:Hkey;
      [exact Hnone|].
    apply string_eqb_false in Hkey. now rewrite lookup_insert_ne.
Qed.

Lemma resolveResolverAliases_ok r rs :
  exists r', resolveResolverAliases env r rs = Ok r' /\ root r' = root r.
Proof.
  revert r. induction rs as [|entry rest IH]; intros r; cbn; [eauto|].
  destruct (Resolver.alias entry) as [[f|alias]|]; try apply IH.
  destruct (resolveAlias_ok r alias) as [r1 [-> Hroot]].
  destruct (IH r1) as [r' [-> Hroot']]. exists r'. split; congruence.
Qed.

(** [createResolver] never throws: the [statSync] of [isDir] is guarded by
    [existsSync]. *)
Lemma createResolver_ok root resolvers userAlias :
  exists r, createResolver env root resolvers userAlias = Ok r.
Proof.
  unfold createResolver.
  destruct (resolveResolverAliases_ok
              {| root := root; resolvers := resolvers;
                 literalAlias := ∅; literalDirAlias := ∅ |} resolvers)
    as [r1 [-> _]].
  destruct (resolveAlias_ok r1 userAlias) as [r [-> _]]. eauto.
Qed.

End Aliases.

(** C8 (amended).  A key of the user-supplied alias map, other than
    [__proto__], that is a literal alias there: the literal table holds the
    user's target, whatever the alias maps of the resolvers hold for that
    key, because the user map is processed last.  [alias] returns that
    target when it is not empty; when it is empty, [alias] is answered by the
    alias functions alone, never by a resolver's literal target. *)
Theorem user_literal_alias_wins (env : Env) (root0 : string)
    (rs : list Resolver.t) (userAlias : list (string * string))
    (r : Internal) (id target : string) :
  createResolver env root0 rs userAlias = Ok r ->
  NoDup userAlias.*1 ->
  (id, target) ∈ userAlias ->
  Spec.isDirectoryAlias (id, target) = false ->
  id <> "__proto__" ->
  literalAlias r !! id = Some target
  /\ (target <> "" -> alias r id = Ok (Some (Target target)))
  /\ (target = "" ->
      alias r id = match firstAlias (resolvers r) id with
                   | Ok aliased => Ok (Target <$> aliased)
                   | Throw e => Throw e
                   end).
Proof.
  unfold createResolver. intros Hcreate Hnodup Hin Hliteral Hproto.
  destruct (resolveResolverAliases env _ rs) as [r1|e]; [|discriminate].
  pose proof (resolveAlias_literal env r1 userAlias r id target
                Hcreate Hnodup Hin Hliteral Hproto) as Hown.
  split; [exact Hown|].
  unfold alias, getProperty. apply string_eqb_false in Hproto.
  rewrite Hproto, Hown. cbn [truthyAliased]. split.
  - intros Htarget. apply truthy_true in Htarget. now rewrite Htarget.
  - now intros ->.
Qed.

Lemma user_literal_alias_wins_witness :
  createResolver Examples.projEnv "/proj" [Examples.pluginResolver "preact"]
    [("react", "@pika/react")] = Ok Examples.userWins
  /\ (exists plugin, plugin ∈ [Examples.pluginResolver "preact"]
        /\ Resolver.alias plugin = Some (Resolver.AliasRecord [("react", "preact")]))
  /\ literalAlias Examples.userWins !! "react" = Some "@pika/react"
  /\ alias Examples.userWins "react" = Ok (Some (Target "@pika/react"))
  /\ literalAlias Examples.emptyTarget !! "react" = Some ""
  /\ alias Examples.emptyTarget "react" = Ok None.
Proof.
  split; [reflexivity|]. split.
  { exists (Examples.pluginResolver "preact"). split; [left | reflexivity]. }
  destruct (user_literal_alias_wins Examples.projEnv "/proj"
              [Examples.pluginResolver "preact"] [("react", "@pika/react")]
              Examples.userWins "react" "@pika/react" eq_refl)
    as (Hown & Hanswer & _);
    [apply NoDup_singleton | left | reflexivity | discriminate |].
  destruct (user_literal_alias_wins Examples.projEnv "/proj"
              [Examples.pluginResolver "preact"] [("react", "")]
              Examples.emptyTarget "react" "" eq_refl)
    as (Hown' & _ & Hempty);
    [apply NoDup_singleton | left | reflexivity | discriminate |].
  split; [exact Hown|]. split; [apply Hanswer; discriminate|].
  split; [exact Hown'|]. now rewrite Hempty.
Defined.

(** C8, as worded, fails for the key [__proto__]: the plugin and the user
    both have it as an own key of their alias maps, neither assignment
    changes the table, and [alias] returns [Object.prototype] instead of the
    user's target. *)
Lemma user_literal_alias_counterexample :
  createResolver Examples.projEnv "/proj" [Examples.protoResolver]
    [("__proto__", "evil")] = Ok Examples.protoKey
  /\ Resolver.alias Examples.protoResolver
     = Some (Resolver.AliasRecord [("__proto__", "preact")])
  /\ Spec.isDirectoryAlias ("__proto__", "preact") = false
  /\ Spec.isDirectoryAlias ("__proto__", "evil") = false
  /\ literalAlias Examples.protoKey !! "__proto__" = None
  /\ alias Examples.protoKey "__proto__" = Ok (Some (Inherited "__proto__"))
  /\ alias Examples.protoKey "__proto__" <> Ok (Some (Target "evil")).
Proof.
  split; [reflexivity|]. split; [reflexivity|]. split; [reflexivity|].
  split; [reflexivity|]. split; [reflexivity|]. split; [reflexivity|].
  discriminate.
Qed.

(** ** Exceptions *)

Section NeverThrows.

Variable env : Env.

Lemma bind_isOk {A B} (m : M A) (k : A -> M B) st :
  isOk (fst (m st)) = true ->
  (forall a st', isOk (fst (k a st')) = true) ->
  isOk (fst (bind m k st)) = true.
Proof.
  unfold bind. destruct (m st) as [[a|e] st']; cbn; [auto | discriminate].
Qed.

(** A failing [stat] is caught by [isFile]. *)
Lemma isFile_missing p :
  stat env p = None -> isOk (statSync env p) = false /\ isFile env p = false.
Proof. intros H. unfold isFile, statSync. now rewrite H. Qed.

Lemma resolveOptimizedCacheDir_isOk root st :
  isOk (fst (resolveOptimizedCacheDir env root st)) = true.
Proof.
  unfold resolveOptimizedCacheDir. munfold.
  destruct (cacheDirCache st !! root); [reflexivity|].
  destruct (lookupFile env root "package.json") as [pkgPath|]; [|reflexivity].
  now destruct (Js.truthy pkgPath).
Qed.

(** In [tryResolve] the [statSync] is guarded by [existsSync]. *)
Lemma tryResolve_isOk cacheKey cacheDir file st :
  isOk (fst (tryResolve env cacheKey cacheDir file st)) = true.
Proof.
  unfold tryResolve, existsSync, statSync. munfold.
  destruct (stat env _) as [s|]; [|reflexivity].
  now destruct (Stats_isFile s).
Qed.

Lemma resolveOptimizedModule_isOk root id st :
  isOk (fst (resolveOptimizedModule env root id st)) = true.
Proof.
  unfold resolveOptimizedModule.
  apply bind_isOk; [reflexivity|]. intros cached st1.
  destruct (Js.truthy_opt cached); [reflexivity|].
  apply bind_isOk; [apply resolveOptimizedCacheDir_isOk|]. intros [cacheDir|] st2;
    [|reflexivity].
  destruct (Js.truthy cacheDir); [|reflexivity].
  apply bind_isOk; [apply tryResolve_isOk|]. intros first st3.
  destruct (Js.truthy_opt first); [reflexivity | apply tryResolve_isOk].
Qed.

(** A failed package resolution is caught at the locator: no result. *)
Lemma resolveNodeModuleFile_caught root id st :
  Js.truthy_opt (nodeModulesFileMap st !! (root +:+ "#" +:+ id)) = false ->
  isOk (resolveFrom env root id) = false ->
  resolveNodeModuleFile env root id st = (Ok None, st).
Proof.
  intros Hmemo Hthrow. unfold resolveNodeModuleFile. munfold. rewrite Hmemo.
  now destruct (resolveFrom env root id).
Qed.

Lemma resolveNodeModuleFile_isOk root id st :
  isOk (fst (resolveNodeModuleFile env root id st)) = true.
Proof.
  unfold resolveNodeModuleFile. munfold.
  destruct (Js.truthy_opt _); [reflexivity|].
  now destruct (resolveFrom env root id).
Qed.

Lemma moduleRequestToFile_isOk root id st :
  isOk (fst (moduleRequestToFile env root id st)) = true.
Proof.
  unfold moduleRequestToFile.
  apply bind_isOk; [reflexivity|]. intros cached st1.
  destruct (Js.truthy_opt cached); [reflexivity|].
  apply bind_isOk; [apply resolveOptimizedModule_isOk|]. intros optimized st2.
  destruct (Js.truthy_opt optimized); [reflexivity|].
  apply bind_isOk; [apply resolveNodeModuleFile_isOk|]. intros [file|] st3;
    [|reflexivity].
  now destruct (Js.truthy file).
Qed.

Lemma defaultRequestToFile_isOk publicPath root st :
  isOk (fst (defaultRequestToFile env publicPath root st)) = true.
Proof.
  unfold defaultRequestToFile. apply bind_isOk.
  - destruct (moduleRE_test publicPath);
      [apply moduleRequestToFile_isOk | reflexivity].
  - now intros [file|] st1.
Qed.

Lemma defaultFileToRequest_isOk filePath root st :
  isOk (fst (defaultFileToRequest env filePath root st)) = true.
Proof.
  unfold defaultFileToRequest. munfold. now destruct (Js.truthy_opt _).
Qed.

Variable r : Internal.
Hypothesis entries_return : Forall Spec.returnsNormally (resolvers r).

Lemma firstRequestToFile_isOk rs publicPath :
  Forall Spec.returnsNormally rs ->
  isOk (firstRequestToFile r rs publicPath) = true.
Proof.
  induction 1 as [|e rs [He _] _ IH]; [reflexivity|]. cbn.
  destruct (Resolver.requestToFile e) as [f|] eqn:Hf; [|exact IH].
  specialize (He f eq_refl publicPath (root r)).
  destruct (f publicPath (root r)) as [o|]; [|discriminate].
  now destruct (Js.truthy_opt o).
Qed.

Lemma firstFileToRequest_isOk rs filePath :
  Forall Spec.returnsNormally rs ->
  isOk (firstFileToRequest r rs filePath) = true.
Proof.
  induction 1 as [|e rs [_ [He _]] _ IH]; [reflexivity|]. cbn.
  destruct (Resolver.fileToRequest e) as [f|] eqn:Hf; [|exact IH].
  specialize (He f eq_refl filePath (root r)).
  destruct (f filePath (root r)) as [o|]; [|discriminate].
  now destruct (Js.truthy_opt o).
Qed.

Lemma requestToFile_isOk publicPath st :
  isOk (fst (requestToFile env r publicPath st)) = true.
Proof using entries_return.
  unfold requestToFile.
  apply bind_isOk; [reflexivity|]. intros [file|] st1; [reflexivity|].
  apply bind_isOk.
  { unfold liftRes. cbn. now apply firstRequestToFile_isOk. }
  intros found st2. apply bind_isOk.
  - destruct found; [reflexivity | apply defaultRequestToFile_isOk].
  - reflexivity.
Qed.

Lemma fileToRequest_isOk filePath st :
  isOk (fst (fileToRequest env r filePath st)) = true.
Proof using entries_return.
  unfold fileToRequest.
  apply bind_isOk; [reflexivity|]. intros [request|] st1; [reflexivity|].
  apply bind_isOk.
  { unfold liftRes. cbn. now apply firstFileToRequest_isOk. }
  intros [request|] st2; [reflexivity|].
  apply bind_isOk; [apply defaultFileToRequest_isOk | reflexivity].
Qed.

Lemma isPublicRequest_isOk publicPath st :
  isOk (fst (isPublicRequest env r publicPath st)) = true.
Proof using entries_return.
  unfold isPublicRequest.
  apply bind_isOk; [apply requestToFile_isOk | reflexivity].
Qed.

Lemma firstAlias_isOk rs id :
  Forall Spec.returnsNormally rs -> isOk (firstAlias rs id) = true.
Proof.
  induction 1 as [|e rs [_ [_ He]] _ IH]; [reflexivity|]. cbn.
  destruct (Resolver.alias e) as [[f|entries]|] eqn:Hf; try exact IH.
  specialize (He f eq_refl id).
  destruct (f id) as [o|]; [|discriminate].
  now destruct (Js.truthy_opt o).
Qed.

Lemma alias_isOk id : isOk (alias r id) = true.
Proof using entries_return.
  unfold alias.
  destruct (truthyAliased (getProperty (literalAlias r) id)); [reflexivity|].
  pose proof (firstAlias_isOk (resolvers r) id entries_return) as Hok.
  now destruct (firstAlias (resolvers r) id).
Qed.

End NeverThrows.

(** The entry pushed for a directory alias returns normally. *)
Lemma dirAliasResolver_returnsNormally (env : Env) (key target : string) :
  Spec.returnsNormally (dirAliasResolver env key target).
Proof.
  split; [|split].
  - intros f [= <-] p root'. cbn. now destruct (Js.startsWith p key).
  - intros f [= <-] p root'. cbn. now destruct (Js.startsWith p (target +:+ "/")).
  - discriminate.
Qed.

(** C10.  When every function of every registered resolver entry returns
    normally, [requestToFile] and [fileToRequest] return a value on every
    string in every state: a failing [stat] is caught by [isFile] and counts
    as "not a file", and a failing package resolution is caught in
    [resolveNodeModuleFile] and counts as "no result".  The two methods built
    on them, [isPublicRequest] and [alias], return a value as well. *)
Theorem requestToFile_fileToRequest_never_throw (env : Env) (r : Internal) :
  Forall Spec.returnsNormally (resolvers r) ->
  (forall publicPath st, exists file st',
      requestToFile env r publicPath st = (Ok file, st'))
  /\ (forall filePath st, exists request st',
        fileToRequest env r filePath st = (Ok request, st'))
  /\ (forall p, stat env p = None ->
        isOk (statSync env p) = false /\ isFile env p = false)
  /\ (forall root id st,
        Js.truthy_opt (nodeModulesFileMap st !! (root +:+ "#" +:+ id)) = false ->
        isOk (resolveFrom env root id) = false ->
        resolveNodeModuleFile env root id st = (Ok None, st))
  /\ (forall publicPath st, exists b st',
        isPublicRequest env r publicPath st = (Ok b, st'))
  /\ (forall id, exists aliased, alias r id = Ok aliased).
Proof.
  intros Hentries. repeat apply conj.
  - intros publicPath st.
    pose proof (requestToFile_isOk env r Hentries publicPath st) as H.
    destruct (requestToFile env r publicPath st) as [[file|e] st'];
      [eauto | discriminate].
  - intros filePath st.
    pose proof (fileToRequest_isOk env r Hentries filePath st) as H.
    destruct (fileToRequest env r filePath st) as [[request|e] st'];
      [eauto | discriminate].
  - apply isFile_missing.
  - apply resolveNodeModuleFile_caught.
  - intros publicPath st.
    pose proof (isPublicRequest_isOk env r Hentries publicPath st) as H.
    destruct (isPublicRequest env r publicPath st) as [[b|e] st'];
      [eauto | discriminate].
  - intros id. pose proof (alias_isOk r Hentries id) as H.
    destruct (alias r id) as [aliased|e]; [eauto | discriminate].
Qed.

Lemma requestToFile_fileToRequest_never_throw_witness :
  Forall Spec.returnsNormally (resolvers Examples.proj)
  /\ (exists file st',
        requestToFile Examples.projEnv Examples.proj "/@modules/missing" emptyState
        = (Ok file, st'))
  /\ (exists request st',
        fileToRequest Examples.projEnv Examples.proj "no such file" emptyState
        = (Ok request, st')).
Proof.
  assert (H : Forall Spec.returnsNormally (resolvers Examples.proj)).
  { apply Forall_cons_2; [apply dirAliasResolver_returnsNormally | apply Forall_nil_2]. }
  split; [exact H|].
  destruct (requestToFile_fileToRequest_never_throw Examples.projEnv Examples.proj H)
    as [Hreq [Hfile _]].
  split; [apply Hreq | apply Hfile].
Defined.

(** [normalizePublicPath] does throw in that project. *)
Example normalizePublicPath_throws :
  fst <$> normalizePublicPath Examples.projEnv Examples.proj 0 "/foo?x" emptyState
  = Some (Throw checkFailMessage).
Proof. vm_compute. reflexivity. Qed.

(** ** How the state evolves *)

Section Frames.

Variable env : Env.
Variable r : Internal.

Lemma later_refl st : later env r st st.
Proof.
  split; try reflexivity.
  intros filePath Hnone [x Hsome]. congruence.
Qed.

Lemma later_trans st1 st2 st3 :
  later env r st1 st2 -> later env r st2 st3 -> later env r st1 st3.
Proof.
  intros [a1 b1 n1 c1 d1] [a2 b2 n2 c2 d2]. split.
  - now transitivity (requestToFileCache st2).
  - now transitivity (fileToRequestCache st2).
  - intros filePath Hnone Hsome.
    destruct (fileToRequestCache st2 !! filePath) eqn:H2; [eauto | eauto].
  - congruence.
  - intros root. now rewrite d2.
Qed.

Lemma sameCaches_refl st : sameCaches env st st.
Proof. split; reflexivity. Qed.

Lemma sameCaches_trans st1 st2 st3 :
  sameCaches env st1 st2 -> sameCaches env st2 st3 -> sameCaches env st1 st3.
Proof.
  intros [a1 b1 c1 d1] [a2 b2 c2 d2].
  split; [congruence | congruence | congruence |].
  intros root. now rewrite d2.
Qed.

Lemma sameCaches_later st st' : sameCaches env st st' -> later env r st st'.
Proof.
  intros [a b c d]. split; [rewrite a | rewrite b | | |]; try done.
  rewrite b. intros filePath Hnone [x Hsome]. congruence.
Qed.

Lemma keeps_ret {A} P (a : A) : (forall st, P st st) -> keeps P (ret a).
Proof. intros HP st res st' [= _ <-]. apply HP. Qed.

Lemma keeps_throw {A} P e : (forall st, P st st) -> keeps P (@throw A e).
Proof. intros HP st res st' [= _ <-]. apply HP. Qed.

Lemma keeps_gets {A} P (f : State -> A) : (forall st, P st st) -> keeps P (gets f).
Proof. intros HP st res st' [= _ <-]. apply HP. Qed.

Lemma keeps_liftRes {A} P (x : Res A) : (forall st, P st st) -> keeps P (liftRes x).
Proof. intros HP st res st' [= _ <-]. apply HP. Qed.

Lemma keeps_bind {A B} P (m : M A) (k : A -> M B) :
  (forall s1 s2 s3, P s1 s2 -> P s2 s3 -> P s1 s3) ->
  keeps P m -> (forall a, keeps P (k a)) -> keeps P (bind m k).
Proof.
  intros Htrans Hm Hk st res st'. unfold bind.
  destruct (m st) as [[a|e] st1] eqn:Hrun.
  - intros Hk'. eapply Htrans; [eapply Hm | eapply Hk]; eassumption.
  - intros [= _ <-]. eapply Hm; eassumption.
Qed.

Lemma keeps_weaken {A} (P Q : State -> State -> Prop) (m : M A) :
  (forall st st', P st st' -> Q st st') -> keeps P m -> keeps Q m.
Proof. intros HPQ Hm st res st' Hrun. eapply HPQ, Hm, Hrun. Qed.

Lemma keeps_set_toyserverOptimizedMap k v :
  keeps (sameCaches env) (modify (set_toyserverOptimizedMap k v)).
Proof. intros st res st' [= _ <-]. split; reflexivity. Qed.

Lemma keeps_set_nodeModulesFileMap k v :
  keeps (sameCaches env) (modify (set_nodeModulesFileMap k v)).
Proof. intros st res st' [= _ <-]. split; reflexivity. Qed.

Lemma keeps_set_moduleIdToFileMap k v :
  keeps (sameCaches env) (modify (set_moduleIdToFileMap k v)).
Proof. intros st res st' [= _ <-]. split; reflexivity. Qed.

Lemma resolveOptimizedCacheDir_cacheDirOf root st :
  fst (resolveOptimizedCacheDir env root st) = Ok (cacheDirOf env st root).
Proof.
  unfold resolveOptimizedCacheDir, cacheDirOf. munfold.
  destruct (cacheDirCache st !! root); [reflexivity|].
  destruct (lookupFile env root "package.json") as [pkgPath|]; [|reflexivity].
  now destruct (Js.truthy pkgPath).
Qed.

Lemma keeps_resolveOptimizedCacheDir root :
  keeps (sameCaches env) (resolveOptimizedCacheDir env root).
Proof.
  intros st res st'. unfold resolveOptimizedCacheDir. munfold.
  destruct (cacheDirCache st !! root) as [cached|] eqn:Hcached.
  { intros [= _ <-]. apply sameCaches_refl. }
  destruct (lookupFile env root "package.json") as [pkgPath|] eqn:Hpkg.
  2: { intros [= _ <-]. apply sameCaches_refl. }
  destruct (Js.truthy pkgPath) eqn:Htruthy.
  2: { intros [= _ <-]. apply sameCaches_refl. }
  intros [= _ <-]. split; try reflexivity.
  intros root'. unfold cacheDirOf. cbn.
  destruct (decide (root = root')) as [<- | Hne].
  - now rewrite lookup_insert_eq, Hcached, Hpkg, Htruthy.
  - now rewrite lookup_insert_ne.
Qed.

Ltac keeps_step :=
  first
    [ apply keeps_ret; apply sameCaches_refl
    | apply keeps_gets; apply sameCaches_refl
    | apply keeps_liftRes; apply sameCaches_refl
    | apply keeps_set_toyserverOptimizedMap
    | apply keeps_set_nodeModulesFileMap
    | apply keeps_set_moduleIdToFileMap
    | apply keeps_resolveOptimizedCacheDir ].

Ltac keeps_bind_step := apply keeps_bind; [apply sameCaches_trans | |].

Lemma keeps_tryResolve cacheKey cacheDir file :
  keeps (sameCaches env) (tryResolve env cacheKey cacheDir file).
Proof.
  unfold tryResolve. keeps_bind_step; [keeps_step|]. intros isfile.
  destruct isfile; [|keeps_step].
  keeps_bind_step; [keeps_step|]. intros _. keeps_step.
Qed.

Lemma keeps_resolveOptimizedModule root id :
  keeps (sameCaches env) (resolveOptimizedModule env root id).
Proof.
  unfold resolveOptimizedModule. keeps_bind_step; [keeps_step|]. intros cached.
  destruct (Js.truthy_opt cached); [keeps_step|].
  keeps_bind_step; [keeps_step|]. intros [cacheDir|]; [|keeps_step].
  destruct (Js.truthy cacheDir); [|keeps_step].
  keeps_bind_step; [apply keeps_tryResolve|]. intros first.
  destruct (Js.truthy_opt first); [keeps_step | apply keeps_tryResolve].
Qed.

Lemma keeps_resolveNodeModuleFile root id :
  keeps (sameCaches env) (resolveNodeModuleFile env root id).
Proof.
  unfold resolveNodeModuleFile. keeps_bind_step; [keeps_step|]. intros cached.
  destruct (Js.truthy_opt cached); [keeps_step|].
  destruct (resolveFrom env root id); [|keeps_step].
  keeps_bind_step; [keeps_step|]. intros _. keeps_step.
Qed.

Lemma keeps_moduleRequestToFile root id :
  keeps (sameCaches env) (moduleRequestToFile env root id).
Proof.
  unfold moduleRequestToFile. keeps_bind_step; [keeps_step|]. intros cached.
  destruct (Js.truthy_opt cached); [keeps_step|].
  keeps_bind_step; [apply keeps_resolveOptimizedModule|]. intros optimized.
  destruct (Js.truthy_opt optimized); [keeps_step|].
  keeps_bind_step; [apply keeps_resolveNodeModuleFile|].
  intros [file|]; [|keeps_step].
  destruct (Js.truthy file); [|keeps_step].
  keeps_bind_step; [keeps_step|]. intros _. keeps_step.
Qed.

Lemma keeps_defaultRequestToFile publicPath root :
  keeps (sameCaches env) (defaultRequestToFile env publicPath root).
Proof.
  unfold defaultRequestToFile. keeps_bind_step.
  - destruct (moduleRE_test publicPath);
      [apply keeps_moduleRequestToFile | keeps_step].
  - intros [file|]; keeps_step.
Qed.

Lemma keeps_defaultFileToRequest filePath root :
  keeps (sameCaches env) (defaultFileToRequest env filePath root).
Proof.
  unfold defaultFileToRequest. keeps_bind_step; [keeps_step|]. intros id.
  destruct (Js.truthy_opt id); keeps_step.
Qed.

End Frames.

Section Caches.

Variable env : Env.
Variable r : Internal.

Lemma requestToFile_later publicPath :
  keeps (later env r) (requestToFile env r publicPath).
Proof.
  intros st res st'.
  destruct (requestToFileCache st !! publicPath) as [file|] eqn:Hcache.
  { rewrite (requestToFile_hit env r _ _ _ Hcache). intros [= _ <-].
    apply later_refl. }
  rewrite requestToFile_miss by exact Hcache.
  destruct (firstRequestToFile r (resolvers r) publicPath) as [[file|]|e].
  - intros [= _ <-]. eapply later_trans; [apply later_refl|].
    split; try reflexivity; cbn.
    + now apply insert_subseteq.
    + intros filePath Hnone [x Hsome]. congruence.
  - destruct (defaultRequestToFile env publicPath (root r) st)
      as [[file|e] st1] eqn:Hdefault;
      pose proof (keeps_defaultRequestToFile env _ _ _ _ _ Hdefault) as Hsame;
      intros [= _ <-].
    + eapply later_trans; [apply sameCaches_later, Hsame|].
      split; try reflexivity; cbn.
      * apply insert_subseteq. destruct Hsame as [a _ _ _]. now rewrite a.
      * intros filePath Hnone [x Hsome]. congruence.
    + apply sameCaches_later, Hsame.
  - intros [= _ <-]. apply later_refl.
Qed.

(** A value returned by [requestToFile] is in the cache afterwards. *)
Lemma requestToFile_memoized publicPath st file st' :
  requestToFile env r publicPath st = (Ok file, st') ->
  requestToFileCache st' !! publicPath = Some file.
Proof.
  destruct (requestToFileCache st !! publicPath) as [file'|] eqn:Hcache.
  { rewrite (requestToFile_hit env r _ _ _ Hcache).
    intros H. injection H as <- <-. exact Hcache. }
  rewrite requestToFile_miss by exact Hcache.
  destruct (firstRequestToFile r (resolvers r) publicPath) as [[file'|]|e].
  - intros H. injection H as <- <-. apply lookup_insert_eq.
  - destruct (defaultRequestToFile env publicPath (root r) st) as [[file'|e] st1];
      [|discriminate].
    intros H. injection H as <- <-. apply lookup_insert_eq.
  - discriminate.
Qed.

(** ... and is the answer in every later state. *)
Lemma requestToFile_stable publicPath st file st1 st2 :
  requestToFile env r publicPath st = (Ok file, st1) ->
  later env r st1 st2 ->
  requestToFile env r publicPath st2 = (Ok file, st2).
Proof.
  intros Hrun Hlater. apply requestToFile_hit.
  eapply lookup_weaken; [eapply requestToFile_memoized, Hrun|].
  apply Hlater.
Qed.

Lemma fileToRequest_later filePath :
  keeps (later env r) (fileToRequest env r filePath).
Proof.
  intros st res st'.
  destruct (fileToRequestCache st !! filePath) as [request|] eqn:Hcache.
  { rewrite (fileToRequest_hit env r _ _ _ Hcache). intros [= _ <-].
    apply later_refl. }
  rewrite fileToRequest_miss by exact Hcache.
  destruct (firstFileToRequest r (resolvers r) filePath) as [[request|]|e] eqn:Hfirst;
    try (intros [= _ <-]; apply later_refl).
  intros [= _ <-]. split; try reflexivity; cbn.
  - now apply insert_subseteq.
  - intros filePath' Hnone [x Hsome].
    destruct (decide (filePath = filePath')) as [<- | Hne]; [exact Hfirst|].
    rewrite lookup_insert_ne in Hsome by exact Hne. congruence.
Qed.

(** [fileToRequest] answers the same in every later state. *)
Lemma fileToRequest_stable filePath st request st1 st2 :
  fileToRequest env r filePath st = (Ok request, st1) ->
  later env r st1 st2 ->
  fileToRequest env r filePath st2 = (Ok request, st2).
Proof.
  intros Hrun Hlater.
  destruct (fileToRequestCache st !! filePath) as [request'|] eqn:Hcache.
  { rewrite (fileToRequest_hit env r _ _ _ Hcache) in Hrun.
    injection Hrun as <- <-. apply fileToRequest_hit.
    eapply lookup_weaken; [exact Hcache | apply Hlater]. }
  rewrite fileToRequest_miss in Hrun by exact Hcache.
  destruct (firstFileToRequest r (resolvers r) filePath) as [[request'|]|e] eqn:Hfirst;
    [| |discriminate].
  - injection Hrun as <- <-.
    destruct (fileToRequestCache st2 !! filePath) as [cached|] eqn:Hcache2.
    + pose proof (later_fileToRequestNew _ _ _ _ Hlater filePath Hcache
                    (mk_is_Some _ _ Hcache2)) as Hnone.
      congruence.
    + now rewrite fileToRequest_miss, Hfirst by exact Hcache2.
  - injection Hrun as <- <-. apply fileToRequest_hit.
    eapply lookup_weaken; [|apply Hlater]. cbn. apply lookup_insert_eq.
Qed.

End Caches.

(** ** The normalizer's check *)

Section Finalize.

Variable env : Env.
Variable r : Internal.

Lemma finalize_unfold publicPath query result st :
  finalize env r publicPath query result st =
    match requestToFile env r (result +:+ query) st with
    | (Ok a, st1) =>
        match requestToFile env r publicPath st1 with
        | (Ok b, st2) =>
            if String.eqb a b then (Ok (result +:+ query), st2)
            else (Throw checkFailMessage, st2)
        | (Throw e, st2) => (Throw e, st2)
        end
    | (Throw e, st1) => (Throw e, st1)
    end.
Proof.
  unfold finalize, bind, ret, throw.
  destruct (requestToFile env r (result +:+ query) st) as [[a|e] st1];
    [|reflexivity].
  destruct (requestToFile env r publicPath st1) as [[b|e] st2]; [|reflexivity].
  now destruct (String.eqb a b).
Qed.

(** When the two resolutions differ, [finalize] throws the labelled error. *)
Lemma finalize_check_fails publicPath query result st a st1 b st2 :
  requestToFile env r (result +:+ query) st = (Ok a, st1) ->
  requestToFile env r publicPath st1 = (Ok b, st2) ->
  a <> b ->
  finalize env r publicPath query result st = (Throw checkFailMessage, st2).
Proof.
  intros Ha Hb Hne. rewrite finalize_unfold, Ha, Hb.
  apply string_eqb_false in Hne. now rewrite Hne.
Qed.

(** When [finalize] returns, both requests resolve to one file, which the
    cache holds for both. *)
Lemma finalize_returns publicPath query result st res st' :
  finalize env r publicPath query result st = (Ok res, st') ->
  res = result +:+ query
  /\ later env r st st'
  /\ exists file st1,
       requestToFile env r res st = (Ok file, st1)
       /\ requestToFile env r publicPath st1 = (Ok file, st')
       /\ requestToFile env r res st' = (Ok file, st')
       /\ requestToFile env r publicPath st' = (Ok file, st').
Proof.
  rewrite finalize_unfold.
  destruct (requestToFile env r (result +:+ query) st) as [[a|e] st1] eqn:Ha;
    [|discriminate].
  destruct (requestToFile env r publicPath st1) as [[b|e] st2] eqn:Hb;
    [|discriminate].
  destruct (String.eqb a b) eqn:Hab; [|discriminate].
  apply string_eqb_true in Hab as <-.
  intros H. injection H as <- <-.
  pose proof (requestToFile_later env r _ _ _ _ Ha) as L1.
  pose proof (requestToFile_later env r _ _ _ _ Hb) as L2.
  split; [reflexivity|]. split; [eapply later_trans; eassumption|].
  exists a, st1. split; [exact Ha|]. split; [exact Hb|]. split.
  - eapply requestToFile_stable; eassumption.
  - eapply requestToFile_stable; [exact Hb | apply later_refl].
Qed.

(** How [normalizePublicPath] can return: with its argument, or through
    [finalize]. *)
Lemma normalizePublicPath_returns fuel publicPath st res st' :
  normalizePublicPath env r fuel publicPath st = Some (Ok res, st') ->
  res = publicPath
  \/ exists result st0,
       finalize env r publicPath (Js.queryOf publicPath) result st0 = (Ok res, st').
Proof.
  unfold normalizePublicPath.
  destruct (String.eqb publicPath (clientPublicPath env)).
  { intros H. injection H as <- <-. now left. }
  destruct (negb (moduleRE_test (cleanUrl publicPath))).
  { unfold bind at 1 2.
    destruct (requestToFile env r (cleanUrl publicPath) st) as [[file|e] st1];
      [|discriminate].
    destruct (fileToRequest env r file st1) as [[request|e] st2];
      [|discriminate].
    intros H. injection H as H. right. eauto. }
  destruct (requestToFile env r (cleanUrl publicPath) st) as [[filePath|e] st1];
    [|discriminate].
  destruct (resolveOptimizedCacheDir env (root r) st1) as [[cacheDir|e] st2];
    [|discriminate].
  match goal with
  | |- context [match ?c with Some _ => _ | None => _ end = Some (Ok res, st')] =>
      destruct c as [relative|]
  end.
  { intros H. injection H as H. right. eauto. }
  destruct (negb (Js.truthy (inPkgPath _))).
  { intros H. injection H as <- <-. now left. }
  destruct (findPostFix env fuel publicPath filePath _ "" filePath)
    as [[filePathPostFix|e]|]; [|discriminate|discriminate].
  intros H. injection H as H. right. eauto.
Qed.

End Finalize.

(** C2.  Whenever [normalizePublicPath] returns a value, [requestToFile]
    answers the same for that value and for the argument; the returned value
    is the argument itself or has passed the check of [finalize], and then
    both requests are answered by one and the same file.  When the two
    resolutions made by [finalize] differ, it returns nothing and throws the
    error labelled "[vite] normalizePublicPath check fail."; for a request
    outside the module prefix that is the outcome of [normalizePublicPath]
    itself. *)
Theorem normalizePublicPath_reresolution_checked (env : Env) (r : Internal) :
  (forall fuel publicPath st res st',
      normalizePublicPath env r fuel publicPath st = Some (Ok res, st') ->
      requestToFile env r res st' = requestToFile env r publicPath st'
      /\ (res = publicPath
          \/ exists file, requestToFile env r res st' = (Ok file, st')
                          /\ requestToFile env r publicPath st' = (Ok file, st')))
  /\ (forall publicPath query result st a st1 b st2,
        requestToFile env r (result +:+ query) st = (Ok a, st1) ->
        requestToFile env r publicPath st1 = (Ok b, st2) ->
        a <> b ->
        finalize env r publicPath query result st = (Throw checkFailMessage, st2))
  /\ (forall fuel publicPath st file sa request sb a sc b sd,
        String.eqb publicPath (clientPublicPath env) = false ->
        moduleRE_test (cleanUrl publicPath) = false ->
        requestToFile env r (cleanUrl publicPath) st = (Ok file, sa) ->
        fileToRequest env r file sa = (Ok request, sb) ->
        requestToFile env r (request +:+ Js.queryOf publicPath) sb = (Ok a, sc) ->
        requestToFile env r publicPath sc = (Ok b, sd) ->
        a <> b ->
        normalizePublicPath env r fuel publicPath st
        = Some (Throw checkFailMessage, sd))
  /\ checkFailMessage
     = "[vite] normalizePublicPath check fail. please report to vite.".
Proof.
  split; [|split; [apply finalize_check_fails | split; [|reflexivity]]].
  - intros fuel publicPath st res st' Hrun.
    destruct (normalizePublicPath_returns env r _ _ _ _ _ Hrun)
      as [-> | [result [st0 Hfin]]].
    + split; [reflexivity | now left].
    + destruct (finalize_returns env r _ _ _ _ _ _ Hfin)
        as [_ [_ [file [st1 [_ [_ [Hres Hpath]]]]]]].
      split; [congruence | right; eauto].
  - intros fuel publicPath st file sa request sb a sc b sd
      Hclient Hmod H1 H2 Ha Hb Hne.
    unfold normalizePublicPath. rewrite Hclient, Hmod. cbn [negb]. f_equal.
    unfold bind at 1 2. rewrite H1, H2.
    now apply (finalize_check_fails env r _ _ _ _ _ _ _ _ Ha Hb).
Qed.

Lemma normalizePublicPath_reresolution_checked_witness :
  let env := Examples.projEnv in
  let r := Examples.plain in
  let st' := snd (requestToFile env r "/src/lib"
               (snd (requestToFile env r "/src/lib/index.tsx"
                  (snd (fileToRequest env r "/proj/src/lib/index.tsx"
                     (snd (requestToFile env r "/src/lib" emptyState))))))) in
  let sa := snd (requestToFile env r "/foo" emptyState) in
  let sb := snd (fileToRequest env r "/proj/foo.js" sa) in
  let sc := snd (requestToFile env r "/foo.js?x" sb) in
  let sd := snd (requestToFile env r "/foo?x" sc) in
  (normalizePublicPath env r 0 "/src/lib" emptyState
   = Some (Ok "/src/lib/index.tsx", st')
   /\ requestToFile env r "/src/lib/index.tsx" st'
      = requestToFile env r "/src/lib" st')
  /\ (requestToFile env r ("/foo.js" +:+ "?x") sb = (Ok "/proj/foo.js?x", sc)
      /\ requestToFile env r "/foo?x" sc = (Ok "/proj/foo?x.js", sd)
      /\ finalize env r "/foo?x" "?x" "/foo.js" sb
         = (Throw checkFailMessage, sd)
      /\ normalizePublicPath env r 0 "/foo?x" emptyState
         = Some (Throw checkFailMessage, sd)).
Proof.
  intros env r st' sa sb sc sd.
  assert (H : normalizePublicPath env r 0 "/src/lib" emptyState
              = Some (Ok "/src/lib/index.tsx", st')) by (vm_compute; reflexivity).
  assert (H1 : requestToFile env r (cleanUrl "/foo?x") emptyState
               = (Ok "/proj/foo.js", sa)) by (vm_compute; reflexivity).
  assert (H2 : fileToRequest env r "/proj/foo.js" sa = (Ok "/foo.js", sb))
    by (vm_compute; reflexivity).
  assert (Ha : requestToFile env r ("/foo.js" +:+ "?x") sb
               = (Ok "/proj/foo.js?x", sc)) by (vm_compute; reflexivity).
  assert (Hb : requestToFile env r "/foo?x" sc = (Ok "/proj/foo?x.js", sd))
    by (vm_compute; reflexivity).
  destruct (normalizePublicPath_reresolution_checked env r)
    as [Hret [Hthrow [Hnorm _]]].
  split; [split; [exact H | exact (proj1 (Hret _ _ _ _ _ H))]|].
  split; [exact Ha|]. split; [exact Hb|]. split.
  - apply (Hthrow _ _ _ _ _ _ _ _ Ha Hb). discriminate.
  - apply (Hnorm 0 "/foo?x" emptyState _ _ _ _ _ _ _ _ eq_refl eq_refl H1 H2 Ha Hb).
    discriminate.
Defined.

(** ** Consistency of the caches *)

Section Consistency.

Variable env : Env.
Variable r : Internal.

Lemma consistent_fresh st :
  requestToFileCache st = ∅ -> fileToRequestCache st = ∅ -> consistent env r st.
Proof.
  intros H1 H2. split.
  - intros filePath request. rewrite H2, lookup_empty. discriminate.
  - intros publicPath file. rewrite H1, lookup_empty. discriminate.
Qed.

Lemma consistent_sameCaches st st' :
  sameCaches env st st' -> consistent env r st -> consistent env r st'.
Proof.
  intros [a b c d] [H1 H2]. split.
  - intros filePath request. rewrite b. unfold defaultRequestOf. rewrite c.
    apply H1.
  - intros publicPath file. rewrite a. apply H2.
Qed.

Lemma defaultRequestToFile_plain publicPath st :
  moduleRE_test publicPath = false ->
  defaultRequestToFile env publicPath (root r) st
  = (Ok (publicOrRoot env publicPath (root r)), st).
Proof. intros H. unfold defaultRequestToFile. munfold. now rewrite H. Qed.

Lemma requestToFile_consistent publicPath st res st' :
  consistent env r st ->
  requestToFile env r publicPath st = (res, st') ->
  consistent env r st'.
Proof.
  intros Hc.
  destruct (requestToFileCache st !! publicPath) as [file|] eqn:Hcache.
  { rewrite (requestToFile_hit env r _ _ _ Hcache). now intros [= _ <-]. }
  rewrite requestToFile_miss by exact Hcache.
  assert (Hset : forall st1 (found : option string) file,
             consistent env r st1 ->
             firstRequestToFile r (resolvers r) publicPath = Ok found ->
             match found with
             | Some f => file = applyPostfix env f
             | None =>
                 moduleRE_test publicPath = false ->
                 file = applyPostfix env (publicOrRoot env publicPath (root r))
             end ->
             consistent env r (set_requestToFileCache publicPath file st1)).
  { intros st1 found file [H1 H2] Hfound Hfile. split; [exact H1|].
    intros publicPath' file'. cbn.
    destruct (decide (publicPath = publicPath')) as [<- | Hne].
    - rewrite lookup_insert_eq. intros [= <-]. rewrite Hfound. exact Hfile.
    - rewrite lookup_insert_ne by exact Hne. apply H2. }
  destruct (firstRequestToFile r (resolvers r) publicPath) as [[file|]|e] eqn:Hfirst.
  - intros [= _ <-]. now apply (Hset st (Some file)).
  - destruct (defaultRequestToFile env publicPath (root r) st)
      as [[file|e] st1] eqn:Hdefault;
      pose proof (keeps_defaultRequestToFile env _ _ _ _ _ Hdefault) as Hsame;
      intros [= _ <-].
    + apply (Hset st1 None); [now apply (consistent_sameCaches st) | reflexivity |].
      intros Hmod. rewrite defaultRequestToFile_plain in Hdefault by exact Hmod.
      congruence.
    + now apply (consistent_sameCaches st).
  - now intros [= _ <-].
Qed.

Lemma fileToRequest_consistent filePath st res st' :
  consistent env r st ->
  fileToRequest env r filePath st = (res, st') ->
  consistent env r st'.
Proof.
  intros Hc.
  destruct (fileToRequestCache st !! filePath) as [request|] eqn:Hcache.
  { rewrite (fileToRequest_hit env r _ _ _ Hcache). now intros [= _ <-]. }
  rewrite fileToRequest_miss by exact Hcache.
  destruct (firstFileToRequest r (resolvers r) filePath) as [[request|]|e] eqn:Hfirst;
    try (now intros [= _ <-]).
  intros [= _ <-]. destruct Hc as [H1 H2]. split; [|exact H2].
  intros filePath' request'. cbn.
  destruct (decide (filePath = filePath')) as [<- | Hne].
  - rewrite lookup_insert_eq. intros [= <-]. now split.
  - rewrite lookup_insert_ne by exact Hne. apply H1.
Qed.

Lemma finalize_consistent publicPath query result st res st' :
  consistent env r st ->
  finalize env r publicPath query result st = (res, st') ->
  consistent env r st'.
Proof.
  intros Hc. rewrite finalize_unfold.
  destruct (requestToFile env r (result +:+ query) st) as [[a|e] st1] eqn:Ha.
  2: { intros [= _ <-]. eapply requestToFile_consistent; eassumption. }
  destruct (requestToFile env r publicPath st1) as [[b|e] st2] eqn:Hb.
  - assert (consistent env r st2).
    { eapply requestToFile_consistent; [|exact Hb].
      eapply requestToFile_consistent; eassumption. }
    now destruct (String.eqb a b); intros [= _ <-].
  - intros [= _ <-]. eapply requestToFile_consistent; [|exact Hb].
    eapply requestToFile_consistent; eassumption.
Qed.

Lemma normalizePublicPath_consistent fuel publicPath st res st' :
  consistent env r st ->
  normalizePublicPath env r fuel publicPath st = Some (res, st') ->
  consistent env r st'.
Proof.
  intros Hc. unfold normalizePublicPath.
  destruct (String.eqb publicPath (clientPublicPath env)).
  { now intros [= _ <-]. }
  destruct (negb (moduleRE_test (cleanUrl publicPath))).
  { unfold bind at 1 2.
    destruct (requestToFile env r (cleanUrl publicPath) st) as [[file|e] st1] eqn:H1.
    2: { intros [= _ <-]. eapply requestToFile_consistent; eassumption. }
    assert (consistent env r st1) by (eapply requestToFile_consistent; eassumption).
    destruct (fileToRequest env r file st1) as [[request|e] st2] eqn:H2.
    2: { intros [= _ <-]. eapply fileToRequest_consistent; eassumption. }
    assert (consistent env r st2) by (eapply fileToRequest_consistent; eassumption).
    intros [= Hfin]. eapply finalize_consistent; eassumption. }
  destruct (requestToFile env r (cleanUrl publicPath) st) as [[filePath|e] st1] eqn:H1.
  2: { intros [= _ <-]. eapply requestToFile_consistent; eassumption. }
  assert (consistent env r st1) by (eapply requestToFile_consistent; eassumption).
  destruct (resolveOptimizedCacheDir env (root r) st1) as [[cacheDir|e] st2] eqn:H2;
    pose proof (keeps_resolveOptimizedCacheDir env _ _ _ _ H2) as Hsame;
    assert (consistent env r st2) by (now apply (consistent_sameCaches st1)).
  2: { now intros [= _ <-]. }
  match goal with
  | |- context [match ?c with Some _ => _ | None => _ end = Some (res, st')] =>
      destruct c as [relative|]
  end.
  { intros [= Hfin]. eapply finalize_consistent; eassumption. }
  destruct (negb (Js.truthy (inPkgPath _))).
  { now intros [= _ <-]. }
  destruct (findPostFix env fuel publicPath filePath _ "" filePath)
    as [[filePathPostFix|e]|]; [| |discriminate].
  - intros [= Hfin]. eapply finalize_consistent; eassumption.
  - now intros [= _ <-].
Qed.

Lemma isPublicRequest_consistent publicPath st res st' :
  consistent env r st ->
  isPublicRequest env r publicPath st = (res, st') ->
  consistent env r st'.
Proof.
  intros Hc. unfold isPublicRequest, bind, ret.
  destruct (requestToFile env r publicPath st) as [[file|e] st1] eqn:H1;
    intros [= _ <-]; eapply requestToFile_consistent; eassumption.
Qed.

(** Every state the resolver goes through is consistent. *)
Lemma reachable_consistent st : reachable env r st -> consistent env r st.
Proof.
  induction 1 as [st H1 H2 | st p res st' _ IH Hrun | st f res st' _ IH Hrun
                 | st fuel p res st' _ IH Hrun | st p res st' _ IH Hrun].
  - now apply consistent_fresh.
  - eapply requestToFile_consistent; eassumption.
  - eapply fileToRequest_consistent; eassumption.
  - eapply normalizePublicPath_consistent; eassumption.
  - eapply isPublicRequest_consistent; eassumption.
Qed.

(** In a consistent state [fileToRequest] gives the default answer to a file
    that no entry answers. *)
Lemma fileToRequest_default filePath st :
  consistent env r st ->
  firstFileToRequest r (resolvers r) filePath = Ok None ->
  exists st', fileToRequest env r filePath st
              = (Ok (defaultRequestOf env st filePath (root r)), st')
              /\ requestToFileCache st' = requestToFileCache st
              /\ consistent env r st'.
Proof.
  intros Hc Hfirst.
  destruct (fileToRequestCache st !! filePath) as [request|] eqn:Hcache.
  - destruct (proj1 Hc _ _ Hcache) as [_ ->].
    exists st. now rewrite (fileToRequest_hit env r _ _ _ Hcache).
  - eexists. split; [now rewrite fileToRequest_miss, Hfirst by exact Hcache|].
    split; [reflexivity|].
    eapply fileToRequest_consistent; [exact Hc|].
    now rewrite fileToRequest_miss, Hfirst by exact Hcache.
Qed.

(** In a consistent state [requestToFile] sends a request outside the module
    prefix that no entry answers to the public-then-root path, with the fuzzy
    suffix applied. *)
Lemma requestToFile_plain publicPath st :
  consistent env r st ->
  firstRequestToFile r (resolvers r) publicPath = Ok None ->
  moduleRE_test publicPath = false ->
  exists st', requestToFile env r publicPath st
              = (Ok (applyPostfix env (publicOrRoot env publicPath (root r))), st').
Proof.
  intros Hc Hfirst Hmod.
  destruct (requestToFileCache st !! publicPath) as [file|] eqn:Hcache.
  - pose proof (proj2 Hc _ _ Hcache) as H. rewrite Hfirst in H.
    specialize (H Hmod). subst file. exists st. now apply requestToFile_hit.
  - eexists. rewrite requestToFile_miss, Hfirst by exact Hcache.
    now rewrite defaultRequestToFile_plain by exact Hmod.
Qed.



End Consistency.

(** ** Round trip *)



(** ** Strings: prefixes, [split] and [join] *)

Lemma prefix_refl (s : string) : String.prefix s s = true.
Proof.
  induction s as [|a s IH]; [reflexivity|]. cbn.
  now destruct (ascii_dec a a).
Qed.

Lemma prefix_trans (a b c : string) :
  String.prefix a b = true -> String.prefix b c = true -> String.prefix a c = true.
Proof.
  revert b c. induction a as [|x a IH]; intros b c Hab Hbc; [now destruct c|].
  destruct b as [|y b]; [discriminate|]. destruct c as [|z c]; [discriminate|].
  cbn in *.
  destruct (ascii_dec x y) as [->|]; [|discriminate].
  destruct (ascii_dec y z) as [->|]; [|discriminate].
  eauto.
Qed.

Lemma prefix_nonempty (a b : string) :
  String.prefix a b = true -> a <> "" -> b <> "".
Proof. destruct a; [congruence|]. now destruct b. Qed.

Lemma cleanUrl_matchQuery (s : string) :
  cleanUrl s = s -> Js.matchQuery s = None.
Proof.
  induction s as [|a s IH]; [reflexivity|]. cbn.
  destruct (Ascii.eqb a "?"); [discriminate|]. cbn.
  destruct (Ascii.eqb a "#"); [discriminate|].
  intros [= H]. auto.
Qed.

(** A path without ["?"] and ["#"] has the empty query. *)
Lemma queryOf_clean (s : string) : cleanUrl s = s -> Js.queryOf s = "".
Proof. intros H. unfold Js.queryOf. now rewrite cleanUrl_matchQuery. Qed.

Lemma split_nonempty (c : ascii) (s : string) : Js.split c s <> [].
Proof.
  destruct s as [|a s]; cbn; [discriminate|].
  destruct (Ascii.eqb a c); [discriminate|]. now destruct (Js.split c s).
Qed.

Lemma split_noSep (c : ascii) (s : string) :
  Forall (fun part => noSep c part = true) (Js.split c s).
Proof.
  induction s as [|a s IH]; cbn.
  - now repeat constructor.
  - destruct (Ascii.eqb a c) eqn:Hac.
    + now constructor.
    + destruct (Js.split c s) as [|h t] eqn:Hs; [now apply split_nonempty in Hs|].
      apply Forall_cons in IH as [Hh Ht]. constructor; [|exact Ht].
      cbn. now rewrite Hac.
Qed.

Lemma split_app (c : ascii) (a b : string) :
  noSep c a = true ->
  Js.split c (a +:+ String c b) = a :: Js.split c b.
Proof.
  induction a as [|x a IH]; intros Ha.
  - rewrite append_nil_l. cbn. now rewrite Ascii.eqb_refl.
  - cbn in Ha. apply andb_true_iff in Ha as [Hx Ha].
    rewrite append_cons. cbn. apply negb_true_iff in Hx. rewrite Hx.
    now rewrite IH.
Qed.

Lemma join_cons (sep x : string) (l : list string) :
  l <> [] -> Js.join sep (x :: l) = x +:+ sep +:+ Js.join sep l.
Proof. now destruct l. Qed.

Lemma join_split (s : string) : Js.join "/" (Js.split "/" s) = s.
Proof.
  induction s as [|a s IH]; [reflexivity|]. cbn [Js.split].
  pose proof (split_nonempty "/" s) as Hne.
  destruct (Ascii.eqb a "/") eqn:Ha.
  - apply Ascii.eqb_eq in Ha as ->.
    now rewrite join_cons, IH by exact Hne.
  - destruct (Js.split "/" s) as [|h t]; [congruence|].
    rewrite <- IH. destruct t as [|h' t]; [reflexivity|].
    rewrite !join_cons by discriminate. now rewrite append_cons.
Qed.

Lemma startsWith_hd_split (c : ascii) (s p : string) :
  p = String c "" -> Ascii.eqb c "/" = false ->
  Js.startsWith (hd "" (Js.split "/" s)) p = Js.startsWith s p.
Proof.
  intros -> Hc. unfold Js.startsWith. destruct s as [|a s]; [reflexivity|]. cbn.
  destruct (Ascii.eqb a "/") eqn:Ha.
  - cbn. apply Ascii.eqb_eq in Ha as ->.
    destruct (ascii_dec c "/") as [->|]; [discriminate | reflexivity].
  - destruct (Js.split "/" s) as [|h t]; cbn;
      destruct (ascii_dec c a); try reflexivity;
      try destruct h; now destruct s.
Qed.

Lemma prefix_append (p x : string) : String.prefix p (p +:+ x) = true.
Proof.
  induction p as [|a p IH]; [now destruct x|].
  rewrite append_cons. cbn. now destruct (ascii_dec a a).
Qed.

Lemma slice_append (p x : string) : Js.slice (String.length p) (p +:+ x) = x.
Proof. induction p as [|a p IH]; [reflexivity|]. now rewrite append_cons. Qed.

Lemma stripPrefix_append (p x : string) : Js.stripPrefix p (p +:+ x) = x.
Proof.
  unfold Js.stripPrefix, Js.startsWith. now rewrite prefix_append, slice_append.
Qed.

Lemma filter_truthy_cons (x : string) (l : list string) :
  filter (fun s => Js.truthy s = true) (x :: l)
  = if Js.truthy x then x :: filter (fun s => Js.truthy s = true) l
    else filter (fun s => Js.truthy s = true) l.
Proof.
  rewrite filter_cons. destruct (Js.truthy x) eqn:Hx; case_decide; congruence.
Qed.

(** The request that [normalizePublicPath] rebuilds from the parsed id and the
    path found inside the package parses back to the same scope and name,
    with the found path as its in-package path. *)
Lemma parseNodeModuleId_rebuilt (id postfix : string) :
  let parsed := parseNodeModuleId id in
  let rebuilt :=
    Js.join "/" (filter (fun s => Js.truthy s = true)
                   ["/@modules"; scope parsed; name parsed; postfix]) in
  name parsed <> "" ->
  postfix <> "" ->
  moduleRE_test rebuilt = true
  /\ parseNodeModuleId (moduleRE_strip rebuilt)
     = {| scope := scope parsed; name := name parsed; inPkgPath := postfix |}.
Proof.
  cbv zeta. unfold parseNodeModuleId.
  pose proof (startsWith_hd_split "@" id "@" eq_refl eq_refl) as Hhd.
  pose proof (split_noSep "/" id) as Hsep.
  destruct (Js.split "/" id) as [|h t] eqn:Hparts;
    [now apply split_nonempty in Hparts|].
  apply Forall_cons in Hsep as [Hh Ht]. cbn [hd] in Hhd.
  assert (Hstrip : forall x, moduleRE_test ("/@modules" +:+ "/" +:+ x) = true
                             /\ moduleRE_strip ("/@modules" +:+ "/" +:+ x) = x).
  { intros x. change ("/@modules" +:+ "/" +:+ x) with (modulePrefix +:+ x).
    unfold moduleRE_test, moduleRE_strip, Js.startsWith.
    now rewrite prefix_append, stripPrefix_append. }
  assert (Hsplit : forall a b, noSep "/" a = true ->
                     Js.split "/" (a +:+ "/" +:+ b) = a :: Js.split "/" b).
  { intros a b Ha. change ("/" +:+ b) with (String "/" b). now apply split_app. }
  assert (Hhead : forall a b, noSep "/" a = true ->
                    Js.startsWith (a +:+ "/" +:+ b) "@" = Js.startsWith a "@").
  { intros a b Ha.
    rewrite <- (startsWith_hd_split "@" (a +:+ "/" +:+ b) "@" eq_refl eq_refl).
    now rewrite Hsplit. }
  destruct (Js.startsWith id "@") eqn:Hat; cbn [scope name inPkgPath hd tl].
  - (* scoped: [h] is the scope, the next part is the name *)
    destruct t as [|n t']; cbn [hd tl]; [congruence|].
    apply Forall_cons in Ht as [Hn _].
    intros Hname Hpost.
    assert (Hscope : Js.truthy h = true).
    { apply truthy_true. intros ->. discriminate. }
    apply truthy_true in Hname, Hpost.
    assert (Hre : Js.join "/" (filter (fun s => Js.truthy s = true)
                                 ["/@modules"; h; n; postfix])
                  = "/@modules" +:+ "/" +:+ h +:+ "/" +:+ n +:+ "/" +:+ postfix).
    { rewrite !filter_truthy_cons, Hscope, Hname, Hpost.
      change (Js.truthy "/@modules") with true. cbv iota.
      change (filter _ []) with (@nil string).
      now rewrite !join_cons by discriminate. }
    rewrite Hre.
    destruct (Hstrip (h +:+ "/" +:+ n +:+ "/" +:+ postfix)) as [-> ->].
    split; [reflexivity|].
    rewrite Hhead, Hhd, Hsplit, Hsplit by assumption.
    cbn [hd tl]. now rewrite join_split.
  - (* unscoped: [h] is the name *)
    intros Hname Hpost. apply truthy_true in Hname, Hpost.
    assert (Hre : Js.join "/" (filter (fun s => Js.truthy s = true)
                                 ["/@modules"; ""; h; postfix])
                  = "/@modules" +:+ "/" +:+ h +:+ "/" +:+ postfix).
    { rewrite !filter_truthy_cons, Hname, Hpost.
      change (Js.truthy "/@modules") with true.
      change (Js.truthy "") with false. cbv iota.
      change (filter _ []) with (@nil string).
      now rewrite !join_cons by discriminate. }
    rewrite Hre.
    destruct (Hstrip (h +:+ "/" +:+ postfix)) as [-> ->].
    split; [reflexivity|].
    rewrite Hhead, Hhd, Hsplit by assumption.
    cbn [hd tl]. now rewrite join_split.
Qed.

(** ** Normalizing twice *)

Section Idempotence.

Variable env : Env.
Variable r : Internal.

(** The loop that stopped at [postfix] when it looked for [inPkg] stops at
    the same place when it looks for [postfix] itself. *)
Lemma findPostFix_again fuel pub1 pub2 filePath inPkg cur from postfix :
  findPostFix env fuel pub1 filePath inPkg cur from = Some (Ok postfix) ->
  Js.startsWith postfix inPkg = true
  /\ findPostFix env fuel pub2 filePath postfix cur from = Some (Ok postfix).
Proof.
  revert cur from.
  induction fuel as [|fuel IH]; intros cur from; cbn;
    destruct (Js.startsWith cur inPkg) eqn:Hcur.
  - intros [= <-]. unfold Js.startsWith. now rewrite prefix_refl.
  - discriminate.
  - intros [= <-]. unfold Js.startsWith. now rewrite prefix_refl.
  - destruct (lookupFile env from "package.json") as [pkgPath|]; [|discriminate].
    destruct (Js.truthy pkgPath); [|discriminate].
    intros Hrec. destruct (IH _ _ Hrec) as [Hpre Hagain]. split; [exact Hpre|].
    destruct (Js.startsWith cur postfix) eqn:Hcur'; [|exact Hagain].
    unfold Js.startsWith in *.
    now rewrite (prefix_trans _ _ _ Hpre Hcur') in Hcur.
Qed.

Lemma resolveOptimizedCacheDir_run root st :
  exists st', resolveOptimizedCacheDir env root st
              = (Ok (cacheDirOf env st root), st')
              /\ sameCaches env st st'.
Proof.
  pose proof (resolveOptimizedCacheDir_cacheDirOf env root st) as Hval.
  destruct (resolveOptimizedCacheDir env root st) as [res st'] eqn:Hrun.
  cbn in Hval. subst res. exists st'. split; [reflexivity|].
  eapply keeps_resolveOptimizedCacheDir, Hrun.
Qed.

(** [finalize] on a result that is already known to resolve like the
    request it is checked against. *)
Lemma finalize_same publicPath result file st :
  requestToFile env r publicPath st = (Ok file, st) ->
  result = publicPath ->
  finalize env r publicPath "" result st = (Ok publicPath, st).
Proof.
  intros Hrun ->. rewrite finalize_unfold, append_nil_r, Hrun, Hrun.
  now rewrite String.eqb_refl.
Qed.

Lemma normalizePublicPath_plain fuel publicPath st :
  String.eqb publicPath (clientPublicPath env) = false ->
  cleanUrl publicPath = publicPath ->
  moduleRE_test publicPath = false ->
  normalizePublicPath env r fuel publicPath st
  = Some ((let* file := requestToFile env r publicPath in
           let* request := fileToRequest env r file in
           finalize env r publicPath "" request) st).
Proof.
  intros Hclient Hclean Hmod. unfold normalizePublicPath.
  now rewrite Hclient, (queryOf_clean _ Hclean), Hclean, Hmod.
Qed.

Lemma normalizePublicPath_module fuel publicPath st filePath st1 :
  String.eqb publicPath (clientPublicPath env) = false ->
  cleanUrl publicPath = publicPath ->
  moduleRE_test publicPath = true ->
  requestToFile env r publicPath st = (Ok filePath, st1) ->
  exists st2,
    sameCaches env st1 st2
    /\ normalizePublicPath env r fuel publicPath st =
       match cacheRelative env (cacheDirOf env st1 (root r)) filePath with
       | Some relative =>
           Some (finalize env r publicPath ""
                   (Path.join ["/@modules/"; slash env relative]) st2)
       | None =>
           let parsed := parseNodeModuleId (moduleRE_strip publicPath) in
           if negb (Js.truthy (inPkgPath parsed)) then Some (Ok publicPath, st2)
           else
             match findPostFix env fuel publicPath filePath (inPkgPath parsed)
                     "" filePath with
             | None => None
             | Some (Throw e) => Some (Throw e, st2)
             | Some (Ok filePathPostFix) =>
                 Some (finalize env r publicPath ""
                         (Js.join "/"
                            (filter (fun s => Js.truthy s = true)
                               ["/@modules"; scope parsed; name parsed;
                                filePathPostFix])) st2)
             end
       end.
Proof.
  intros Hclient Hclean Hmod Hrun.
  destruct (resolveOptimizedCacheDir_run (root r) st1) as [st2 [Hdir Hsame]].
  exists st2. split; [exact Hsame|]. unfold normalizePublicPath.
  now rewrite Hclient, (queryOf_clean _ Hclean), Hclean, Hmod, Hrun, Hdir.
Qed.

End Idempotence.

(** C3 (amended).  Let [normalizePublicPath] return [res] on [publicPath],
    where neither string has a ["?"] or a ["#"], [res] is under the module
    prefix exactly when [publicPath] is, and, for a [publicPath] under the
    module prefix, the package name parsed from it is not empty.  Then
    [normalizePublicPath], run on [res] in the state the first run left, with
    the same fuel, returns [res]. *)
Theorem normalizePublicPath_idempotent (env : Env) (r : Internal) (fuel : nat)
    (publicPath : string) (st : State) (res : string) (st1 : State) :
  normalizePublicPath env r fuel publicPath st = Some (Ok res, st1) ->
  cleanUrl publicPath = publicPath ->
  cleanUrl res = res ->
  moduleRE_test res = moduleRE_test publicPath ->
  (moduleRE_test publicPath = true ->
   name (parseNodeModuleId (moduleRE_strip publicPath)) <> "") ->
  exists st2, normalizePublicPath env r fuel res st1 = Some (Ok res, st2).
Proof.
  intros Hrun Hp Hres Hmod Hname.
  destruct (String.eqb res (clientPublicPath env)) eqn:Hc2.
  { exists st1. unfold normalizePublicPath. now rewrite Hc2. }
  destruct (String.eqb publicPath (clientPublicPath env)) eqn:Hc1.
  { unfold normalizePublicPath in Hrun. rewrite Hc1 in Hrun.
    injection Hrun as <- <-. congruence. }
  destruct (moduleRE_test publicPath) eqn:Hmp.
  - (* under the module prefix *)
    destruct (requestToFile env r publicPath st) as [[filePath|e] sa] eqn:H1.
    2: { unfold normalizePublicPath in Hrun.
         rewrite Hc1, (queryOf_clean _ Hp), Hp, Hmp, H1 in Hrun. discriminate. }
    destruct (normalizePublicPath_module env r fuel publicPath st filePath sa
                Hc1 Hp Hmp H1) as [sb [Hsame Heq]].
    rewrite Heq in Hrun. clear Heq.
    pose proof (sameCaches_later env r _ _ Hsame) as Lab.
    (* the second run, once [res] is known to resolve to [filePath] *)
    assert (Hsecond : later env r sb st1 ->
              requestToFile env r res st1 = (Ok filePath, st1) ->
              exists st2,
                requestToFile env r res st2 = (Ok filePath, st2)
                /\ normalizePublicPath env r fuel res st1 =
                   match cacheRelative env (cacheDirOf env sa (root r)) filePath with
                   | Some relative =>
                       Some (finalize env r res ""
                               (Path.join ["/@modules/"; slash env relative]) st2)
                   | None =>
                       let parsed := parseNodeModuleId (moduleRE_strip res) in
                       if negb (Js.truthy (inPkgPath parsed)) then Some (Ok res, st2)
                       else
                         match findPostFix env fuel res filePath (inPkgPath parsed)
                                 "" filePath with
                         | None => None
                         | Some (Throw e) => Some (Throw e, st2)
                         | Some (Ok filePathPostFix) =>
                             Some (finalize env r res ""
                                     (Js.join "/"
                                        (filter (fun s => Js.truthy s = true)
                                           ["/@modules"; scope parsed; name parsed;
                                            filePathPostFix])) st2)
                         end
                   end).
    { intros Lb Hr.
      destruct (normalizePublicPath_module env r fuel res st1 filePath st1
                  Hc2 Hres Hmod Hr) as [st2 [Hs2 Heq2]].
      exists st2. split.
      - eapply requestToFile_stable; [exact Hr | now apply sameCaches_later].
      - rewrite Heq2.
        now rewrite (later_cacheDirOf _ _ _ _ (later_trans env r _ _ _ Lab Lb)). }
    (* what [finalize] tells about a run that went through it *)
    assert (Hthrough : forall result,
              finalize env r publicPath "" result sb = (Ok res, st1) ->
              res = result /\ later env r sb st1
              /\ requestToFile env r res st1 = (Ok filePath, st1)).
    { intros result Hfin.
      destruct (finalize_returns env r _ _ _ _ _ _ Hfin)
        as [Hres_eq [Lb [file' [s' [_ [_ [Hr Hpp]]]]]]].
      rewrite append_nil_r in Hres_eq.
      split; [exact Hres_eq|]. split; [exact Lb|].
      rewrite (requestToFile_stable env r _ _ _ _ _ H1
                 (later_trans env r _ _ _ Lab Lb)) in Hpp.
      congruence. }
    destruct (cacheRelative env (cacheDirOf env sa (root r)) filePath)
      as [relative|] eqn:Hcr.
    + (* the file is in the optimizer cache *)
      injection Hrun as Hfin.
      destruct (Hthrough _ Hfin) as [Hres_eq [Lb Hr]].
      destruct (Hsecond Lb Hr) as [st2 [Hr2 ->]].
      exists st2. f_equal. apply (finalize_same env r res _ filePath st2 Hr2).
      now symmetry.
    + cbv zeta in Hrun.
      destruct (negb (Js.truthy (inPkgPath (parseNodeModuleId
                                              (moduleRE_strip publicPath)))))
        eqn:Hin.
      * (* no path inside the package: the argument comes back *)
        injection Hrun as <- <-.
        destruct (Hsecond (later_refl env r sb)
                    (requestToFile_stable env r _ _ _ _ _ H1 Lab))
          as [st2 [_ ->]].
        exists st2. cbv zeta. now rewrite Hin.
      * (* a path inside the package *)
        destruct (findPostFix env fuel publicPath filePath _ "" filePath)
          as [[postfix|e]|] eqn:Hloop; [|discriminate|discriminate].
        injection Hrun as Hfin.
        destruct (Hthrough _ Hfin) as [Hres_eq [Lb Hr]].
        destruct (Hsecond Lb Hr) as [st2 [Hr2 ->]].
        destruct (findPostFix_again env fuel publicPath res _ _ _ _ _ Hloop)
          as [Hpre Hagain].
        apply negb_false_iff in Hin.
        assert (Hpost : postfix <> "").
        { eapply prefix_nonempty; [exact Hpre | now apply truthy_true]. }
        destruct (parseNodeModuleId_rebuilt (moduleRE_strip publicPath) postfix
                    (Hname eq_refl) Hpost) as [_ Hparse].
        cbv zeta in Hparse.
        assert (Hres' : res = Js.join "/"
                  (filter (fun s => Js.truthy s = true)
                     ["/@modules";
                      scope (parseNodeModuleId (moduleRE_strip publicPath));
                      name (parseNodeModuleId (moduleRE_strip publicPath));
                      postfix])) by exact Hres_eq.
        rewrite <- Hres' in Hparse.
        exists st2. cbv zeta. rewrite Hparse. cbn [inPkgPath scope name].
        apply truthy_true in Hpost. rewrite Hpost. cbn [negb].
        rewrite Hagain. f_equal.
        apply (finalize_same env r res _ filePath st2 Hr2). now symmetry.
  - (* outside the module prefix *)
    rewrite normalizePublicPath_plain in Hrun by assumption.
    injection Hrun as Hrun. unfold bind at 1 2 in Hrun.
    destruct (requestToFile env r publicPath st) as [[file|e] sa] eqn:H1;
      [|discriminate].
    destruct (fileToRequest env r file sa) as [[request|e] sb] eqn:H2;
      [|discriminate].
    destruct (finalize_returns env r _ _ _ _ _ _ Hrun)
      as [Hres_eq [Lb [file' [s' [_ [_ [Hr Hpp]]]]]]].
    rewrite append_nil_r in Hres_eq. subst request.
    pose proof (fileToRequest_later env r _ _ _ _ H2) as Lab.
    rewrite (requestToFile_stable env r _ _ _ _ _ H1
               (later_trans env r _ _ _ Lab Lb)) in Hpp.
    injection Hpp as <-.
    pose proof (fileToRequest_stable env r _ _ _ _ _ H2 Lb) as Hf.
    exists st1. rewrite normalizePublicPath_plain by assumption. f_equal.
    unfold bind at 1 2. rewrite Hr, Hf.
    now apply (finalize_same env r res res file st1).
Qed.

Lemma normalizePublicPath_idempotent_witness :
  let env := Examples.pkgEnv in
  let r := Examples.pkg in
  let first := normalizePublicPath env r 1 "/@modules/lodash-es/fp/x" emptyState in
  let st1 := match first with Some (_, st) => st | None => emptyState end in
  first = Some (Ok "/@modules/lodash-es/fp/x.js", st1)
  /\ cleanUrl "/@modules/lodash-es/fp/x" = "/@modules/lodash-es/fp/x"
  /\ cleanUrl "/@modules/lodash-es/fp/x.js" = "/@modules/lodash-es/fp/x.js"
  /\ moduleRE_test "/@modules/lodash-es/fp/x.js"
     = moduleRE_test "/@modules/lodash-es/fp/x"
  /\ name (parseNodeModuleId (moduleRE_strip "/@modules/lodash-es/fp/x"))
     = "lodash-es"
  /\ exists st2,
       normalizePublicPath env r 1 "/@modules/lodash-es/fp/x.js" st1
       = Some (Ok "/@modules/lodash-es/fp/x.js", st2).
Proof.
  intros env r first st1.
  assert (H : first = Some (Ok "/@modules/lodash-es/fp/x.js", st1))
    by (vm_compute; reflexivity).
  split; [exact H|]. split; [reflexivity|]. split; [reflexivity|].
  split; [reflexivity|]. split; [reflexivity|].
  apply (normalizePublicPath_idempotent env r 1 "/@modules/lodash-es/fp/x"
           emptyState "/@modules/lodash-es/fp/x.js" st1 H);
    try reflexivity.
  intros _. discriminate.
Defined.

(** C3, as worded, fails.  In an empty project [//@modules/x/y.js] is not under
    the module prefix and normalizes to [/@modules/x/y.js]; that result is
    under the prefix with the in-package path [y.js], no package.json is
    found above its file, and the second application throws (or, without
    fuel, does not finish): it never returns the same string. *)
Lemma normalizePublicPath_idempotent_counterexample :
  let env := Examples.emptyEnv in
  let r := Examples.emptyProj in
  let first := normalizePublicPath env r 0 "//@modules/x/y.js" emptyState in
  let st1 := match first with Some (_, st) => st | None => emptyState end in
  first = Some (Ok "/@modules/x/y.js", st1)
  /\ fst <$> normalizePublicPath env r 1 "/@modules/x/y.js" st1
     = Some (Throw (noPackageJsonMessage "/@modules/x/y.js"))
  /\ forall fuel,
       fst <$> normalizePublicPath env r fuel "/@modules/x/y.js" st1
       <> Some (Ok "/@modules/x/y.js").
Proof.
  intros env r first st1.
  split; [vm_compute; reflexivity|]. split; [vm_compute; reflexivity|].
  intros [|fuel]; vm_compute; discriminate.
Qed.

(** ** Paths under the root

    What [path.relative] and [path.join] do on normalized absolute paths:
    the path of a file below the root, taken relative to the root and joined
    onto it again, is the path of the file. *)

Lemma split_append (c : ascii) (x y : string) :
  Js.split c (x +:+ String c y) = Js.split c x ++ Js.split c y.
Proof.
  induction x as [|a x IH].
  - rewrite append_nil_l. cbn. now rewrite Ascii.eqb_refl.
  - rewrite append_cons. cbn. rewrite IH.
    destruct (Ascii.eqb a c); [reflexivity|].
    pose proof (split_nonempty c x) as Hne.
    now destruct (Js.split c x).
Qed.

Lemma split_plain (c : ascii) (x : string) :
  noSep c x = true -> Js.split c x = [x].
Proof.
  induction x as [|a x IH]; [reflexivity|]. cbn.
  intros H. apply andb_true_iff in H as [Ha Hx].
  apply negb_true_iff in Ha. now rewrite Ha, IH.
Qed.

Lemma plainSegment_spec (s : string) :
  plainSegment s = true ->
  Js.truthy s = true /\ String.eqb s "." = false /\ String.eqb s ".." = false
  /\ noSep "/" s = true.
Proof.
  unfold plainSegment. rewrite !andb_true_iff, !negb_true_iff. tauto.
Qed.

Lemma segmentsOf_append (x y : string) :
  Path.segmentsOf (x +:+ "/" +:+ y) = Path.segmentsOf x ++ Path.segmentsOf y.
Proof.
  unfold Path.segmentsOf, Path.sep.
  change ("/" +:+ y) with (String "/" y).
  now rewrite split_append, filter_app.
Qed.

Lemma segmentsOf_join (l : list string) :
  Forall (fun s => plainSegment s = true) l ->
  Path.segmentsOf (Js.join "/" l) = l.
Proof.
  induction 1 as [|x l Hx Hl IH]; [reflexivity|].
  apply plainSegment_spec in Hx as [Ht [_ [_ Hsep]]].
  assert (Hone : Path.segmentsOf x = [x]).
  { unfold Path.segmentsOf, Path.sep. rewrite split_plain by exact Hsep.
    now rewrite filter_truthy_cons, Ht. }
  destruct l as [|y l]; [exact Hone|].
  rewrite join_cons by discriminate.
  now rewrite segmentsOf_append, Hone, IH.
Qed.

Lemma absolutePath_cons (l : list string) :
  absolutePath l = String "/" (Js.join "/" l).
Proof. reflexivity. Qed.

Lemma segmentsOf_absolutePath (l : list string) :
  Forall (fun s => plainSegment s = true) l ->
  Path.segmentsOf (absolutePath l) = l.
Proof.
  intros Hl. unfold absolutePath.
  change ("/" +:+ Js.join "/" l) with ("" +:+ "/" +:+ Js.join "/" l).
  now rewrite segmentsOf_append, segmentsOf_join.
Qed.

Lemma fold_pushSegment_filter (a : bool) (l acc : list string) :
  fold_left (Path.pushSegment a) l acc
  = fold_left (Path.pushSegment a) (filter (fun s => Js.truthy s = true) l) acc.
Proof.
  revert acc. induction l as [|x l IH]; intros acc; [reflexivity|].
  rewrite filter_truthy_cons. destruct (Js.truthy x) eqn:Hx; cbn [fold_left].
  - apply IH.
  - apply truthy_false in Hx as ->. apply IH.
Qed.

Lemma fold_pushSegment_plain (a : bool) (l acc : list string) :
  Forall (fun s => plainSegment s = true) l ->
  fold_left (Path.pushSegment a) l acc = rev l ++ acc.
Proof.
  intros Hl. revert acc. induction Hl as [|x l Hx Hl IH]; intros acc;
    [reflexivity|].
  apply plainSegment_spec in Hx as [Ht [Hdot [Hdots _]]].
  apply truthy_true, string_eqb_false in Ht.
  cbn [fold_left rev]. unfold Path.pushSegment at 2.
  rewrite Ht, Hdot, Hdots. cbn [orb]. rewrite IH.
  now rewrite <- app_assoc.
Qed.

(** On a path whose non-empty segments are plain, [normalizeString] only
    drops the empty segments. *)
Lemma normalizeString_plain (path : string) (a : bool) :
  Forall (fun s => plainSegment s = true) (Path.segmentsOf path) ->
  Path.normalizeString path a = Js.join "/" (Path.segmentsOf path).
Proof.
  intros H. unfold Path.normalizeString, Path.normalizeSegments.
  rewrite fold_pushSegment_filter. fold (Path.segmentsOf path).
  rewrite fold_pushSegment_plain by exact H.
  now rewrite app_nil_r, rev_involutive.
Qed.

Lemma resolve_absolutePath (cwd : string) (l : list string) :
  Forall (fun s => plainSegment s = true) l ->
  Path.resolve cwd [absolutePath l] = absolutePath l.
Proof.
  intros Hl. unfold Path.resolve. cbn [rev app].
  rewrite absolutePath_cons. cbn [Path.resolveLoop String.eqb Path.isAbsolute
                                    Js.head_is Path.sep Ascii.eqb Bool.eqb].
  cbn [negb].
  assert (Hsegs : Path.segmentsOf (String "/" (Js.join "/" l) +:+ "/" +:+ "") = l).
  { rewrite segmentsOf_append. rewrite <- absolutePath_cons.
    rewrite segmentsOf_absolutePath by exact Hl. apply app_nil_r. }
  rewrite normalizeString_plain; rewrite Hsegs; [reflexivity | exact Hl].
Qed.

Lemma dropCommon_app (l m : list string) :
  Path.dropCommon l (l ++ m) = ([], m).
Proof.
  induction l as [|x l IH]; [now destruct m|].
  cbn. now rewrite String.eqb_refl.
Qed.

Lemma absolutePath_longer (rs segs : list string) :
  Forall (fun s => plainSegment s = true) rs ->
  Forall (fun s => plainSegment s = true) segs ->
  segs <> [] ->
  absolutePath rs <> absolutePath (rs ++ segs).
Proof.
  intros Hrs Hsegs Hne Heq.
  apply (f_equal Path.segmentsOf) in Heq.
  rewrite !segmentsOf_absolutePath in Heq by (try apply Forall_app; auto).
  rewrite <- (app_nil_r rs) in Heq at 1.
  apply app_inv_head in Heq. congruence.
Qed.

(** The path of a file below the root, relative to the root. *)
Lemma relative_under (cwd : string) (rs segs : list string) :
  Forall (fun s => plainSegment s = true) rs ->
  Forall (fun s => plainSegment s = true) segs ->
  segs <> [] ->
  Path.relative cwd (absolutePath rs) (absolutePath (rs ++ segs))
  = Js.join "/" segs.
Proof.
  intros Hrs Hsegs Hne.
  assert (Hall : Forall (fun s => plainSegment s = true) (rs ++ segs))
    by (apply Forall_app; auto).
  pose proof (absolutePath_longer rs segs Hrs Hsegs Hne) as Hneq.
  apply string_eqb_false in Hneq.
  unfold Path.relative.
  rewrite Hneq, !resolve_absolutePath, Hneq by assumption.
  rewrite !segmentsOf_absolutePath by assumption.
  now rewrite dropCommon_app.
Qed.

Lemma endsWith_lastIs (s : string) : Js.endsWith s "/" = lastIs "/" s.
Proof.
  unfold Js.endsWith.
  induction s as [|a s IH]; [reflexivity|].
  destruct s as [|b s].
  - cbn. now destruct (Ascii.eqb a "/").
  - change (lastIs "/" (String a (String b s))) with (lastIs "/" (String b s)).
    rewrite <- IH. cbn [String.length]. cbn [Nat.leb]. cbn [Nat.sub].
    rewrite Nat.sub_0_r. reflexivity.
Qed.

Lemma lastIs_append (c : ascii) (x y : string) :
  y <> "" -> lastIs c (x +:+ y) = lastIs c y.
Proof.
  intros Hy. induction x as [|a x IH]; [reflexivity|].
  rewrite append_cons. cbn [lastIs]. rewrite IH.
  destruct (x +:+ y) eqn:Hxy; [|reflexivity].
  destruct x; [now rewrite append_nil_l in Hxy | now rewrite append_cons in Hxy].
Qed.

Lemma lastIs_noSep (c : ascii) (s : string) :
  noSep c s = true -> lastIs c s = false.
Proof.
  induction s as [|a s IH]; [reflexivity|]. cbn [noSep].
  intros H. apply andb_true_iff in H as [Ha Hs]. apply negb_true_iff in Ha.
  destruct s; [exact Ha | now apply IH].
Qed.

Lemma join_plain_truthy (l : list string) :
  Forall (fun s => plainSegment s = true) l -> l <> [] ->
  Js.join "/" l <> "".
Proof.
  intros Hl Hne Hempty. apply (f_equal Path.segmentsOf) in Hempty.
  rewrite segmentsOf_join in Hempty by exact Hl. now subst l.
Qed.

Lemma lastIs_join (l : list string) :
  Forall (fun s => plainSegment s = true) l ->
  lastIs "/" (Js.join "/" l) = false.
Proof.
  induction 1 as [|x l Hx Hl IH]; [reflexivity|].
  destruct l as [|y l].
  - apply plainSegment_spec in Hx as [_ [_ [_ Hsep]]].
    now apply lastIs_noSep.
  - rewrite join_cons by discriminate.
    assert (Hne : Js.join "/" (y :: l) <> "")
      by (apply join_plain_truthy; [exact Hl | discriminate]).
    rewrite lastIs_append; [|now destruct (Js.join "/" (y :: l))].
    now rewrite lastIs_append.
Qed.

(** Joining the root-relative path of a file onto the root. *)
Lemma join_under (rs segs : list string) :
  Forall (fun s => plainSegment s = true) rs ->
  Forall (fun s => plainSegment s = true) segs ->
  segs <> [] ->
  Path.join [absolutePath rs; Js.join "/" segs] = absolutePath (rs ++ segs).
Proof.
  intros Hrs Hsegs Hne.
  assert (Hall : Forall (fun s => plainSegment s = true) (rs ++ segs))
    by (apply Forall_app; auto).
  pose proof (join_plain_truthy segs Hsegs Hne) as Hrel.
  assert (Hjoined : Js.join "/" (rs ++ segs) <> "").
  { apply join_plain_truthy; [exact Hall|]. now destruct rs, segs. }
  unfold Path.join.
  rewrite !filter_truthy_cons. apply truthy_true in Hrel. rewrite Hrel.
  change (Js.truthy (absolutePath rs)) with true. cbv iota.
  change (filter _ []) with (@nil string).
  rewrite join_cons by discriminate. cbn [Js.join].
  set (joined := absolutePath rs +:+ "/" +:+ Js.join "/" segs).
  assert (Hempty : String.eqb joined "" = false) by reflexivity.
  assert (Habs : Path.isAbsolute joined = true) by reflexivity.
  assert (Hnorm : Path.normalizeString joined false = Js.join "/" (rs ++ segs)).
  { unfold joined. rewrite normalizeString_plain;
      rewrite segmentsOf_append, segmentsOf_absolutePath, segmentsOf_join
        by assumption; [reflexivity | exact Hall]. }
  assert (Hlast : Js.endsWith joined "/" = false).
  { unfold joined. rewrite endsWith_lastIs.
    rewrite lastIs_append by discriminate.
    change ("/" +:+ Js.join "/" segs) with (String "/" (Js.join "/" segs)).
    change (String "/" (Js.join "/" segs)) with ("/" +:+ Js.join "/" segs).
    rewrite lastIs_append by (now apply truthy_true).
    now apply lastIs_join. }
  unfold Path.normalize. rewrite Hempty, Habs. cbn [negb].
  rewrite Hnorm, Hlast.
  apply string_eqb_false in Hjoined. now rewrite Hjoined.
Qed.

Lemma join_public_under (rs segs : list string) :
  Forall (fun s => plainSegment s = true) rs ->
  Forall (fun s => plainSegment s = true) segs ->
  segs <> [] ->
  Path.join [absolutePath rs; "public"; Js.join "/" segs]
  = absolutePath (rs ++ "public" :: segs).
Proof.
  intros Hrs Hsegs Hne.
  rewrite <- (join_under rs ("public" :: segs)); try assumption; try discriminate.
  - pose proof (join_plain_truthy segs Hsegs Hne) as Hrel.
    apply truthy_true in Hrel.
    unfold Path.join. rewrite !filter_truthy_cons, Hrel.
    rewrite (join_cons "/" "public" segs) by exact Hne.
    change (Js.truthy (absolutePath rs)) with true.
    change (Js.truthy "public") with true.
    change (Js.truthy ("public" +:+ "/" +:+ Js.join "/" segs)) with true.
    cbv iota. change (filter _ []) with (@nil string).
    now rewrite !join_cons by discriminate.
  - now constructor.
Qed.

(** The round trip for a file with a normalized path below a normalized
    root, outside the public directory: the path conditions of the round-trip
    theorem hold for every such file. *)
Lemma round_trip_below_root (env : Env) (r : Internal) (st : State)
    (rs segs : list string) :
  let filePath := absolutePath (rs ++ segs) in
  let rel := Js.join "/" segs in
  reachable env r st ->
  root r = absolutePath rs ->
  Forall (fun s => plainSegment s = true) rs ->
  Forall (fun s => plainSegment s = true) segs ->
  segs <> [] ->
  cleanUrl filePath = filePath ->
  isFile env filePath = true ->
  slash env rel = rel ->
  Js.startsWith rel "public/" = false ->
  existsSync env (absolutePath (rs ++ "public" :: segs)) = false ->
  firstFileToRequest r (resolvers r) filePath = Ok None ->
  Js.truthy_opt (moduleFileToIdMap st !! filePath) = false ->
  firstRequestToFile r (resolvers r) ("/" +:+ rel) = Ok None ->
  moduleRE_test ("/" +:+ rel) = false ->
  exists st1 st2,
    fileToRequest env r filePath st = (Ok ("/" +:+ rel), st1)
    /\ requestToFile env r ("/" +:+ rel) st1 = (Ok filePath, st2).
Proof.
  intros filePath rel Hreach Hroot Hrs Hsegs Hne Hclean Hfile Hslash Hpub
    Hshadow Hfirst Hid Hreq Hmod.
  apply reachable_consistent in Hreach.
  destruct (fileToRequest_default env r filePath st Hreach Hfirst)
    as [st1 [Hf2r [_ Hc1]]].
  assert (Hdefault : defaultRequestOf env st filePath (root r) = "/" +:+ rel).
  { unfold defaultRequestOf. rewrite Hid, Hroot.
    unfold filePath. rewrite relative_under by assumption.
    fold rel. rewrite Hslash. unfold Js.stripPrefix. now rewrite Hpub. }
  rewrite Hdefault in Hf2r.
  destruct (requestToFile_plain env r ("/" +:+ rel) st1 Hc1 Hreq Hmod)
    as [st2 Hr2f].
  exists st1, st2. split; [exact Hf2r|]. rewrite Hr2f. do 2 f_equal.
  assert (Hto : publicOrRoot env ("/" +:+ rel) (root r) = filePath).
  { unfold publicOrRoot. rewrite append_cons, append_nil_l. cbn [Js.slice].
    rewrite Hroot. unfold rel.
    rewrite join_public_under, Hshadow by assumption.
    now apply join_under. }
  rewrite Hto. apply applyPostfix_file. now rewrite Hclean.
Qed.

Example round_trip_below_root_app :
  exists st1 st2,
    fileToRequest Examples.projEnv Examples.plain "/proj/src/app.js" emptyState
    = (Ok "/src/app.js", st1)
    /\ requestToFile Examples.projEnv Examples.plain "/src/app.js" st1
       = (Ok "/proj/src/app.js", st2).
Proof.
  apply (round_trip_below_root Examples.projEnv Examples.plain emptyState
           ["proj"] ["src"; "app.js"]); try reflexivity.
  - now apply reachable_fresh.
  - now repeat constructor.
  - now repeat constructor.
  - discriminate.
Qed.

(** * More of the code *)

(** ** What the fuzzy suffix produces *)

Lemma probePostfix_result (env : Env) (cleanPath : string) (exts : list string) :
  probePostfix env cleanPath exts = ""
  \/ (exists ext, ext ∈ exts /\ probePostfix env cleanPath exts = ext
                  /\ isFile env (cleanPath +:+ ext) = true)
  \/ (exists ext, ext ∈ exts
                  /\ probePostfix env cleanPath exts = "/index" +:+ ext
                  /\ isFile env (Path.join [cleanPath; "/index" +:+ ext]) = true).
Proof.
  induction exts as [|ext exts IH]; [now left|]. cbn.
  destruct (isFile env (cleanPath +:+ ext)) eqn:Hext.
  { right; left. exists ext. split; [left | now split]. }
  destruct (isFile env (Path.join [cleanPath; "/index" +:+ ext])) eqn:Hindex.
  { right; right. exists ext. split; [left | now split]. }
  destruct IH as [H | [[e [Hin H]] | [e [Hin H]]]].
  - now left.
  - right; left. exists e. split; [now right | exact H].
  - right; right. exists e. split; [now right | exact H].
Qed.

(** X1.  When the fuzzy-suffix step changes a resolved path that has no
    ["?"] or ["#"], the new path is an existing regular file and the old one
    was not; and a result without ["?"] or ["#"] is left alone when the step
    is applied to it again. *)
Theorem applyPostfix_lands_on_file (env : Env) (resolved : string) :
  cleanUrl resolved = resolved ->
  (applyPostfix env resolved <> resolved ->
   isFile env resolved = false /\ isFile env (applyPostfix env resolved) = true)
  /\ (cleanUrl (applyPostfix env resolved) = applyPostfix env resolved ->
      applyPostfix env (applyPostfix env resolved) = applyPostfix env resolved).
Proof.
  intros Hclean.
  assert (Hchanged : applyPostfix env resolved <> resolved ->
            isFile env resolved = false
            /\ isFile env (applyPostfix env resolved) = true).
  { unfold applyPostfix, resolveFilePathPostfix. rewrite Hclean.
    destruct (isFile env resolved) eqn:Hfile; cbn [negb]; [congruence|].
    intros Hne. split; [reflexivity|]. revert Hne.
    destruct (probePostfix_result env resolved supportedExts)
      as [-> | [[ext [Hin [-> Hext]]] | [ext [Hin [-> Hindex]]]]].
    - destruct (negb _); cbn; congruence.
    - destruct (supportedExts_dot ext Hin) as [e' ->].
      destruct (negb _); [|congruence]. cbn. now intros _.
    - destruct (negb _); [|congruence].
      rewrite append_cons. cbn. now intros _. }
  split; [exact Hchanged|].
  intros Hclean'.
  destruct (String.eqb (applyPostfix env resolved) resolved) eqn:Hsame.
  - apply string_eqb_true in Hsame. now rewrite !Hsame.
  - apply string_eqb_false in Hsame. destruct (Hchanged Hsame) as [_ Hfile].
    apply applyPostfix_file. now rewrite Hclean'.
Qed.

Lemma applyPostfix_lands_on_file_witness :
  cleanUrl "/proj/src/lib" = "/proj/src/lib"
  /\ applyPostfix Examples.projEnv "/proj/src/lib" = "/proj/src/lib/index.tsx"
  /\ isFile Examples.projEnv "/proj/src/lib" = false
  /\ isFile Examples.projEnv (applyPostfix Examples.projEnv "/proj/src/lib") = true
  /\ applyPostfix Examples.projEnv (applyPostfix Examples.projEnv "/proj/src/lib")
     = applyPostfix Examples.projEnv "/proj/src/lib".
Proof.
  split; [reflexivity|]. split; [reflexivity|].
  destruct (applyPostfix_lands_on_file Examples.projEnv "/proj/src/lib" eq_refl)
    as [Hchanged Hagain].
  destruct Hchanged as [Hold Hnew]; [discriminate|].
  split; [exact Hold|]. split; [exact Hnew|]. now apply Hagain.
Defined.

(** ** The request->file cache is never invalidated *)

(** X2.  Once [requestToFile] has answered a request, the same resolver
    gives the same answer in every state whose request->file cache contains
    the one it left, whatever has become of the file system and of package
    resolution in the meantime, and without changing the state. *)
Theorem requestToFile_memo_outlives_disk (env env' : Env) (r : Internal)
    (publicPath file : string) (st st1 st2 : State) :
  requestToFile env r publicPath st = (Ok file, st1) ->
  requestToFileCache st1 ⊆ requestToFileCache st2 ->
  requestToFile env' r publicPath st2 = (Ok file, st2).
Proof.
  intros Hrun Hsub. apply requestToFile_hit.
  eapply lookup_weaken; [|exact Hsub].
  eapply requestToFile_memoized, Hrun.
Qed.

Lemma requestToFile_memo_outlives_disk_witness :
  let first := requestToFile MoreExamples.optEnv MoreExamples.opt "/src/lib"
                 emptyState in
  fst first = Ok "/proj/src/lib/index.tsx"
  /\ isFile MoreExamples.wipedEnv "/proj/src/lib/index.tsx" = false
  /\ requestToFile MoreExamples.wipedEnv MoreExamples.opt "/src/lib" (snd first)
     = (Ok "/proj/src/lib/index.tsx", snd first).
Proof.
  intros first. split; [reflexivity|]. split; [reflexivity|].
  apply (requestToFile_memo_outlives_disk MoreExamples.optEnv MoreExamples.wipedEnv
           MoreExamples.opt "/src/lib" "/proj/src/lib/index.tsx" emptyState
           (snd first) (snd first)).
  - reflexivity.
  - reflexivity.
Defined.

(** ** Paths are never empty *)

Lemma normalize_truthy (path : string) : Js.truthy (Path.normalize path) = true.
Proof.
  unfold Path.normalize.
  destruct (String.eqb path ""); [reflexivity|].
  destruct (String.eqb (Path.normalizeString _ _) "") eqn:Hp.
  - destruct (Path.isAbsolute path); [reflexivity|].
    now destruct (Js.endsWith path "/").
  - apply string_eqb_false in Hp.
    destruct (Path.isAbsolute path).
    + now rewrite append_cons.
    + destruct (Js.endsWith path "/"); [|now apply truthy_true].
      apply truthy_true. intros H.
      destruct (Path.normalizeString path _); [congruence|].
      rewrite append_cons in H. discriminate.
Qed.

Lemma join_truthy (args : list string) : Js.truthy (Path.join args) = true.
Proof.
  unfold Path.join.
  destruct (filter _ args); [reflexivity | apply normalize_truthy].
Qed.

(** ** The module-level locators *)

Lemma resolveOptimizedCacheDir_tables (env : Env) (root : string) (st : State) :
  let st' := snd (resolveOptimizedCacheDir env root st) in
  toyserverOptimizedMap st' = toyserverOptimizedMap st
  /\ nodeModulesFileMap st' = nodeModulesFileMap st
  /\ moduleIdToFileMap st' = moduleIdToFileMap st
  /\ requestToFileCache st' = requestToFileCache st.
Proof.
  unfold resolveOptimizedCacheDir. munfold.
  destruct (cacheDirCache st !! root); [easy|].
  destruct (lookupFile env root "package.json") as [pkgPath|]; [|easy].
  now destruct (Js.truthy pkgPath).
Qed.

Lemma resolveOptimizedCacheDir_pair (env : Env) (root : string) (st : State) :
  resolveOptimizedCacheDir env root st
  = (Ok (cacheDirOf env st root), snd (resolveOptimizedCacheDir env root st)).
Proof.
  rewrite <- resolveOptimizedCacheDir_cacheDirOf.
  now destruct (resolveOptimizedCacheDir env root st).
Qed.

Lemma tryResolve_run (env : Env) (cacheKey cacheDir file : string) (st : State) :
  tryResolve env cacheKey cacheDir file st =
    if isFile env (Path.join [cacheDir; file])
    then (Ok (Some (Path.join [cacheDir; file])),
          set_toyserverOptimizedMap cacheKey (Path.join [cacheDir; file]) st)
    else (Ok None, st).
Proof.
  unfold tryResolve, isFile, existsSync, statSync. munfold.
  destruct (stat env _) as [s|]; [|reflexivity].
  now destruct (Stats_isFile s).
Qed.

Lemma resolveOptimizedModule_hit (env : Env) (root id file : string) (st : State) :
  toyserverOptimizedMap st !! (root +:+ "#" +:+ id) = Some file ->
  file <> "" ->
  resolveOptimizedModule env root id st = (Ok (Some file), st).
Proof.
  intros Hmemo Hfile. unfold resolveOptimizedModule. munfold. rewrite Hmemo.
  cbn. apply truthy_true in Hfile. now rewrite Hfile.
Qed.

(** What [resolveOptimizedModule] does when its table has no answer. *)
Lemma resolveOptimizedModule_miss (env : Env) (root id : string) (st : State) :
  Js.truthy_opt (toyserverOptimizedMap st !! (root +:+ "#" +:+ id)) = false ->
  let st1 := snd (resolveOptimizedCacheDir env root st) in
  let key := root +:+ "#" +:+ id in
  resolveOptimizedModule env root id st =
    match cacheDirOf env st root with
    | Some cacheDir =>
        if Js.truthy cacheDir then
          if isFile env (Path.join [cacheDir; id])
          then (Ok (Some (Path.join [cacheDir; id])),
                set_toyserverOptimizedMap key (Path.join [cacheDir; id]) st1)
          else if isFile env (Path.join [cacheDir; id +:+ ".js"])
          then (Ok (Some (Path.join [cacheDir; id +:+ ".js"])),
                set_toyserverOptimizedMap key
                  (Path.join [cacheDir; id +:+ ".js"]) st1)
          else (Ok None, st1)
        else (Ok None, st1)
    | None => (Ok None, st1)
    end.
Proof.
  intros Hmemo st1 key. unfold resolveOptimizedModule.
  unfold bind at 1. unfold gets. rewrite Hmemo.
  unfold bind at 1. rewrite resolveOptimizedCacheDir_pair. fold st1.
  destruct (cacheDirOf env st root) as [cacheDir|]; [|reflexivity].
  destruct (Js.truthy cacheDir); [|reflexivity].
  unfold bind. rewrite tryResolve_run.
  destruct (isFile env (Path.join [cacheDir; id])).
  - cbn [Js.truthy_opt]. now rewrite join_truthy.
  - cbn [Js.truthy_opt]. now rewrite tryResolve_run.
Qed.

(** X3.  [resolveOptimizedModule] remembers what it found and nothing else.
    A non-empty answer is given again in the state it leaves, on any file
    system.  An empty answer leaves the table as it was, so a later call
    probes the optimizer directory again and finds a file that has appeared
    there in the meantime. *)
Theorem resolveOptimizedModule_remembers_hits_only (env : Env)
    (root id : string) (st : State) (found : option string) (st' : State) :
  resolveOptimizedModule env root id st = (Ok found, st') ->
  (forall file, found = Some file -> file <> "" ->
     forall env', resolveOptimizedModule env' root id st' = (Ok (Some file), st'))
  /\ (Js.truthy_opt found = false ->
      toyserverOptimizedMap st' = toyserverOptimizedMap st
      /\ forall env' cacheDir,
           cacheDirOf env' st' root = Some cacheDir -> cacheDir <> "" ->
           isFile env' (Path.join [cacheDir; id]) = true ->
           fst (resolveOptimizedModule env' root id st')
           = Ok (Some (Path.join [cacheDir; id]))).
Proof.
  intros Hrun.
  destruct (Js.truthy_opt (toyserverOptimizedMap st !! (root +:+ "#" +:+ id)))
    eqn:Hmemo.
  { (* answered from the table *)
    destruct (toyserverOptimizedMap st !! (root +:+ "#" +:+ id)) as [file|] eqn:Hget;
      [|discriminate].
    cbn in Hmemo. apply truthy_true in Hmemo.
    rewrite (resolveOptimizedModule_hit env root id file st Hget Hmemo) in Hrun.
    injection Hrun as <- <-. split.
    - intros file' [= <-] _ env'. now apply resolveOptimizedModule_hit.
    - cbn. apply truthy_true in Hmemo. congruence. }
  rewrite (resolveOptimizedModule_miss env root id st Hmemo) in Hrun.
  destruct (resolveOptimizedCacheDir_tables env root st) as [Htable _].
  set (st1 := snd (resolveOptimizedCacheDir env root st)) in *.
  assert (Hset : forall file, file <> "" ->
            forall env',
              resolveOptimizedModule env' root id
                (set_toyserverOptimizedMap (root +:+ "#" +:+ id) file st1)
              = (Ok (Some file),
                 set_toyserverOptimizedMap (root +:+ "#" +:+ id) file st1)).
  { intros file Hfile env'. apply resolveOptimizedModule_hit; [|exact Hfile].
    cbn. apply lookup_insert_eq. }
  assert (Hnone : Js.truthy_opt found = false -> st' = st1 ->
            toyserverOptimizedMap st' = toyserverOptimizedMap st
            /\ forall env' cacheDir,
                 cacheDirOf env' st' root = Some cacheDir -> cacheDir <> "" ->
                 isFile env' (Path.join [cacheDir; id]) = true ->
                 fst (resolveOptimizedModule env' root id st')
                 = Ok (Some (Path.join [cacheDir; id]))).
  { intros _ ->. split; [exact Htable|].
    intros env' cacheDir Hdir Htruthy Hfile.
    rewrite resolveOptimizedModule_miss by (now rewrite Htable).
    rewrite Hdir. apply truthy_true in Htruthy. now rewrite Htruthy, Hfile. }
  assert (Hjoin : forall args, Path.join args <> "").
  { intros args. apply truthy_true, join_truthy. }
  destruct (cacheDirOf env st root) as [cacheDir|].
  2: { injection Hrun as <- <-. split; [discriminate | intros Hfalsy; now apply Hnone]. }
  destruct (Js.truthy cacheDir).
  2: { injection Hrun as <- <-. split; [discriminate | intros Hfalsy; now apply Hnone]. }
  destruct (isFile env (Path.join [cacheDir; id])).
  { injection Hrun as <- <-. split.
    - intros file [= <-] Hfile env'. now apply Hset.
    - cbn. now rewrite join_truthy. }
  destruct (isFile env (Path.join [cacheDir; id +:+ ".js"])).
  { injection Hrun as <- <-. split.
    - intros file [= <-] Hfile env'. now apply Hset.
    - cbn. now rewrite join_truthy. }
  injection Hrun as <- <-. split; [discriminate | intros Hfalsy; now apply Hnone].
Qed.

Lemma resolveOptimizedModule_remembers_hits_only_witness :
  let hit := resolveOptimizedModule MoreExamples.optEnv "/proj" "lodash" emptyState in
  let miss := resolveOptimizedModule MoreExamples.wipedEnv "/proj" "lodash.js"
                emptyState in
  fst hit = Ok (Some "/proj/node_modules/.vite_opt_cache/lodash.js")
  /\ resolveOptimizedModule MoreExamples.wipedEnv "/proj" "lodash" (snd hit)
     = (Ok (Some "/proj/node_modules/.vite_opt_cache/lodash.js"), snd hit)
  /\ fst miss = Ok None
  /\ fst (resolveOptimizedModule MoreExamples.optEnv "/proj" "lodash.js" (snd miss))
     = Ok (Some "/proj/node_modules/.vite_opt_cache/lodash.js").
Proof.
  intros hit miss. split; [reflexivity|]. split.
  - apply (proj1 (resolveOptimizedModule_remembers_hits_only MoreExamples.optEnv
                    "/proj" "lodash" emptyState _ (snd hit) eq_refl)
             "/proj/node_modules/.vite_opt_cache/lodash.js" eq_refl).
    discriminate.
  - split; [reflexivity|].
    apply (proj2 (proj2 (resolveOptimizedModule_remembers_hits_only
                           MoreExamples.wipedEnv "/proj" "lodash.js" emptyState
                           None (snd miss) eq_refl) eq_refl)
             MoreExamples.optEnv "/proj/node_modules/.vite_opt_cache").
    + reflexivity.
    + discriminate.
    + reflexivity.
Defined.

(** X4.  [resolveNodeModuleFile] remembers what package resolution found and
    nothing else.  A non-empty answer is given again in the state it leaves
    without asking package resolution, whatever it would say now.  A failed
    resolution leaves the state as it was, so the next call asks again. *)
Theorem resolveNodeModuleFile_remembers_hits_only (env : Env)
    (root id : string) (st : State) (found : option string) (st' : State) :
  resolveNodeModuleFile env root id st = (Ok found, st') ->
  (forall file, found = Some file -> file <> "" ->
     forall env', resolveNodeModuleFile env' root id st' = (Ok (Some file), st'))
  /\ (found = None ->
      st' = st
      /\ forall env' file,
           resolveFrom env' root id = Ok file ->
           resolveNodeModuleFile env' root id st'
           = (Ok (Some file),
              set_nodeModulesFileMap (root +:+ "#" +:+ id) file st')).
Proof.
  unfold resolveNodeModuleFile. munfold.
  destruct (Js.truthy_opt (nodeModulesFileMap st !! (root +:+ "#" +:+ id)))
    eqn:Hmemo.
  - intros [= <- <-]. split.
    + intros file Hget _ env'. now rewrite Hmemo, Hget.
    + intros Hnone. now rewrite Hnone in Hmemo.
  - destruct (resolveFrom env root id) as [resolved|e] eqn:Hresolve.
    + intros [= <- <-]. split; [|discriminate].
      intros file [= <-] Hfile env'. cbn. rewrite lookup_insert_eq. cbn.
      apply truthy_true in Hfile. now rewrite Hfile.
    + intros [= <- <-]. split; [discriminate|].
      intros _. split; [reflexivity|].
      intros env' file Hfrom. now rewrite Hmemo, Hfrom.
Qed.

Lemma resolveNodeModuleFile_remembers_hits_only_witness :
  let hit := resolveNodeModuleFile MoreExamples.optEnv "/proj" "vue" emptyState in
  fst hit = Ok (Some "/proj/node_modules/vue/index.js")
  /\ resolveFrom MoreExamples.wipedEnv "/proj" "vue" = Ok "/elsewhere/vue.js"
  /\ resolveNodeModuleFile MoreExamples.wipedEnv "/proj" "vue" (snd hit)
     = (Ok (Some "/proj/node_modules/vue/index.js"), snd hit).
Proof.
  intros hit. split; [reflexivity|]. split; [reflexivity|].
  apply (proj1 (resolveNodeModuleFile_remembers_hits_only MoreExamples.optEnv
                  "/proj" "vue" emptyState _ (snd hit) eq_refl)
           "/proj/node_modules/vue/index.js" eq_refl).
  discriminate.
Defined.

(** ** The optimizer directory *)

Lemma resolveOptimizedCacheDirWith_default (env : Env) (root : string) (st : State) :
  resolveOptimizedCacheDirWith env root None st
  = resolveOptimizedCacheDir env root st.
Proof.
  unfold resolveOptimizedCacheDirWith, resolveOptimizedCacheDir. munfold.
  destruct (cacheDirCache st !! root); [reflexivity|]. cbn [Js.truthy_opt].
  destruct (lookupFile env root "package.json") as [pkgPath|]; [|reflexivity].
  cbn. now destruct (Js.truthy pkgPath).
Qed.

(** X5.  [resolveOptimizedCacheDir] remembers a directory and forgets an
    absence.  Whenever it answers with a directory, the directory is
    [node_modules/.vite_opt_cache] next to some manifest, and every later
    call for that root gives the same directory, whatever manifest is passed
    and whatever is on disk.  When no manifest is passed or found, the answer
    is [null] and nothing is stored: the next call looks again, and a
    manifest passed then is used. *)
Theorem resolveOptimizedCacheDir_remembers_directory_only (env : Env)
    (root : string) (pkgPath : option string) (st : State)
    (res : option string) (st' : State) :
  resolveOptimizedCacheDirWith env root pkgPath st = (Ok res, st') ->
  cacheDirCache st !! root = None ->
  (forall cacheDir, res = Some cacheDir ->
     (exists manifest,
        cacheDir = Path.join [Path.dirname manifest; OPTIMIZE_CACHE_DIR])
     /\ forall env' pkgPath',
          resolveOptimizedCacheDirWith env' root pkgPath' st'
          = (Ok (Some cacheDir), st'))
  /\ (res = None ->
      st' = st
      /\ forall env' manifest, manifest <> "" ->
           fst (resolveOptimizedCacheDirWith env' root (Some manifest) st')
           = Ok (Some (Path.join [Path.dirname manifest; OPTIMIZE_CACHE_DIR]))).
Proof.
  intros Hrun Hmiss. revert Hrun.
  unfold resolveOptimizedCacheDirWith. munfold. rewrite Hmiss.
  destruct (Js.truthy_opt
              (if Js.truthy_opt pkgPath then pkgPath
               else lookupFile env root "package.json")) eqn:Hfound;
    cbn [negb]; intros [= <- <-].
  - split; [|discriminate]. intros cacheDir [= <-]. split.
    + now eexists.
    + intros env' pkgPath'. cbn. now rewrite lookup_insert_eq.
  - split; [discriminate|]. intros _. split; [reflexivity|].
    intros env' manifest Hmanifest. rewrite Hmiss.
    apply truthy_true in Hmanifest. cbn [Js.truthy_opt]. rewrite Hmanifest.
    cbn [Js.truthy_opt]. rewrite Hmanifest. reflexivity.
Qed.

Lemma resolveOptimizedCacheDir_remembers_directory_only_witness :
  let found := resolveOptimizedCacheDirWith MoreExamples.optEnv "/proj" None
                 emptyState in
  let missing := resolveOptimizedCacheDirWith MoreExamples.wipedEnv "/proj" None
                   emptyState in
  fst found = Ok (Some "/proj/node_modules/.vite_opt_cache")
  /\ resolveOptimizedCacheDirWith MoreExamples.wipedEnv "/proj"
       (Some "/elsewhere/package.json") (snd found)
     = (Ok (Some "/proj/node_modules/.vite_opt_cache"), snd found)
  /\ missing = (Ok None, emptyState)
  /\ fst (resolveOptimizedCacheDirWith MoreExamples.wipedEnv "/proj"
            (Some "/elsewhere/package.json") (snd missing))
     = Ok (Some "/elsewhere/node_modules/.vite_opt_cache").
Proof.
  intros found missing. split; [reflexivity|].
  pose proof (resolveOptimizedCacheDir_remembers_directory_only MoreExamples.optEnv
                "/proj" None emptyState _ (snd found) eq_refl eq_refl) as [Hdir _].
  pose proof (resolveOptimizedCacheDir_remembers_directory_only
                MoreExamples.wipedEnv "/proj" None emptyState None (snd missing)
                eq_refl eq_refl) as [_ Hnone].
  split; [apply (Hdir _ eq_refl)|]. split; [reflexivity|].
  apply (proj2 (Hnone eq_refl) MoreExamples.wipedEnv "/elsewhere/package.json").
  discriminate.
Defined.

(** ** Module requests that nothing resolves *)

Lemma resolveOptimizedModule_tables (env : Env) (root id : string) (st : State) :
  let st' := snd (resolveOptimizedModule env root id st) in
  nodeModulesFileMap st' = nodeModulesFileMap st
  /\ moduleIdToFileMap st' = moduleIdToFileMap st
  /\ requestToFileCache st' = requestToFileCache st.
Proof.
  destruct (resolveOptimizedCacheDir_tables env root st) as (_ & Hnode & Hid & Hreq).
  destruct (Js.truthy_opt (toyserverOptimizedMap st !! (root +:+ "#" +:+ id)))
    eqn:Hmemo.
  - unfold resolveOptimizedModule. munfold. now rewrite Hmemo.
  - rewrite (resolveOptimizedModule_miss env root id st Hmemo).
    destruct (cacheDirOf env st root) as [cacheDir|]; [|easy].
    destruct (Js.truthy cacheDir); [|easy].
    destruct (isFile env (Path.join [cacheDir; id])); [easy|].
    now destruct (isFile env (Path.join [cacheDir; id +:+ ".js"])).
Qed.

(** X6.  A request under the module prefix that no entry answers, that the
    optimizer directory does not hold and that package resolution fails on is
    resolved like any other request: to the file of that name in the public
    directory if something exists there, else below the root, with the fuzzy
    suffix applied.  The failure is not recorded in the id->file table. *)
Theorem requestToFile_unresolved_module (env : Env) (r : Internal)
    (publicPath : string) (st : State) (optimized : option string) (st1 : State) :
  requestToFileCache st !! publicPath = None ->
  Forall (declines r publicPath) (resolvers r) ->
  moduleRE_test publicPath = true ->
  let id := moduleRE_strip publicPath in
  Js.truthy_opt (moduleIdToFileMap st !! id) = false ->
  resolveOptimizedModule env (root r) id st = (Ok optimized, st1) ->
  Js.truthy_opt optimized = false ->
  Js.truthy_opt (nodeModulesFileMap st !! (root r +:+ "#" +:+ id)) = false ->
  isOk (resolveFrom env (root r) id) = false ->
  let file := applyPostfix env (publicOrRoot env publicPath (root r)) in
  requestToFile env r publicPath st
  = (Ok file, set_requestToFileCache publicPath file st1)
  /\ moduleIdToFileMap st1 = moduleIdToFileMap st.
Proof.
  intros Hcache Hdecline Hmod id Hmemo Hopt Hfalsy Hnode Hthrow file.
  pose proof (resolveOptimizedModule_tables env (root r) id st) as Htables.
  rewrite Hopt in Htables. cbn [snd] in Htables.
  destruct Htables as (Hnode1 & Hid1 & _).
  split; [|exact Hid1].
  rewrite requestToFile_miss by exact Hcache.
  rewrite (firstRequestToFile_none r publicPath _ Hdecline).
  rewrite defaultRequestToFile_module by exact Hmod.
  unfold moduleRequestToFile. fold id.
  unfold bind at 1. unfold gets. rewrite Hmemo.
  unfold bind at 1. rewrite Hopt, Hfalsy.
  unfold bind at 1.
  rewrite resolveNodeModuleFile_caught by (rewrite ?Hnode1; assumption).
  reflexivity.
Qed.

Lemma requestToFile_unresolved_module_witness :
  requestToFile Examples.projEnv Examples.proj "/@modules/missing" emptyState
  = (Ok "/proj/@modules/missing",
     set_requestToFileCache "/@modules/missing" "/proj/@modules/missing"
       emptyState)
  /\ moduleIdToFileMap emptyState = moduleIdToFileMap emptyState.
Proof.
  apply (requestToFile_unresolved_module Examples.projEnv Examples.proj
           "/@modules/missing" emptyState None emptyState).
  - reflexivity.
  - repeat constructor. cbn. exists None. split; reflexivity.
  - reflexivity.
  - reflexivity.
  - reflexivity.
  - reflexivity.
  - reflexivity.
  - reflexivity.
Defined.

(** ** The manifest walk of [normalizePublicPath] *)

Lemma lookupFileFrom_isFile (env : Env) (fuel : nat) (dir format found : string) :
  lookupFileFrom env fuel dir format = Some found -> isFile env found = true.
Proof.
  revert dir. induction fuel as [|fuel IH]; intros dir; cbn [lookupFileFrom];
    destruct (isFile env (Path.join [dir; format])) eqn:Hfile;
    try (intros [= <-]; exact Hfile); try discriminate.
  destruct (String.eqb (Path.dirname dir) dir); [discriminate | apply IH].
Qed.

Lemma lookupFile_here (env : Env) (dir format : string) :
  isFile env (Path.join [dir; format]) = true ->
  lookupFile env dir format = Some (Path.join [dir; format]).
Proof.
  intros Hfile. unfold lookupFile.
  destruct (String.length dir + 2); cbn [lookupFileFrom]; now rewrite Hfile.
Qed.

(** Once the walk has reached the root directory and found a manifest
    there, it looks at the same manifest again and again. *)
Lemma findPostFix_stuck_at_root (env : Env) (fuel : nat)
    (publicPath filePath inPkgPath cur : string) :
  isFile env "/package.json" = true ->
  Js.startsWith (slash env (Path.relative (cwd env) "/" filePath)) inPkgPath
  = false ->
  Js.startsWith cur inPkgPath = false ->
  findPostFix env fuel publicPath filePath inPkgPath cur "/" = None.
Proof.
  intros Hfile Hrel.
  assert (Hlook : lookupFile env "/" "package.json" = Some "/package.json")
    by exact (lookupFile_here env "/" "package.json" Hfile).
  revert cur. induction fuel as [|fuel IH]; intros cur Hcur;
    cbn [findPostFix]; rewrite Hcur; [reflexivity|].
  rewrite Hlook.
  change (Js.truthy "/package.json") with true. cbv iota.
  change (Path.dirname "/package.json") with "/".
  change (Path.join ["/"; "../"]) with "/".
  apply IH, Hrel.
Qed.

Lemma startsWith_empty (p : string) : p <> "" -> Js.startsWith "" p = false.
Proof. now destruct p. Qed.

(** X7.  [normalizePublicPath] does not return on a module request with a
    path inside the package when the file it resolves to is not in the
    optimizer directory, the nearest manifest above that file is
    [/package.json], and the file's path relative to [/] does not start with
    the path inside the package: the loop that walks up the manifests stays at
    the root directory, whatever the number of iterations. *)
Theorem normalizePublicPath_loops_at_root_manifest (env : Env) (r : Internal)
    (publicPath : string) (st : State) (filePath : string) (st1 : State) :
  String.eqb publicPath (clientPublicPath env) = false ->
  cleanUrl publicPath = publicPath ->
  moduleRE_test publicPath = true ->
  requestToFile env r publicPath st = (Ok filePath, st1) ->
  cacheRelative env (cacheDirOf env st1 (root r)) filePath = None ->
  let inPkg := inPkgPath (parseNodeModuleId (moduleRE_strip publicPath)) in
  inPkg <> "" ->
  lookupFile env filePath "package.json" = Some "/package.json" ->
  Js.startsWith (slash env (Path.relative (cwd env) "/" filePath)) inPkg = false ->
  forall fuel, normalizePublicPath env r fuel publicPath st = None.
Proof.
  intros Hclient Hclean Hmod Hrun Hcache inPkg HinPkg Hlook Hrel fuel.
  destruct (normalizePublicPath_module env r fuel publicPath st filePath st1
              Hclient Hclean Hmod Hrun) as [st2 [_ ->]].
  rewrite Hcache. cbv zeta. fold inPkg.
  apply truthy_true in HinPkg as Htruthy. rewrite Htruthy. cbn [negb].
  assert (Hfile : isFile env "/package.json" = true)
    by (eapply lookupFileFrom_isFile; exact Hlook).
  assert (Hstart : Js.startsWith "" inPkg = false) by now apply startsWith_empty.
  destruct fuel as [|fuel]; cbn [findPostFix]; rewrite Hstart; [reflexivity|].
  rewrite Hlook.
  change (Js.truthy "/package.json") with true. cbv iota.
  change (Path.dirname "/package.json") with "/".
  change (Path.join ["/"; "../"]) with "/".
  now rewrite findPostFix_stuck_at_root.
Qed.

Lemma normalizePublicPath_loops_at_root_manifest_witness :
  fst (requestToFile MoreExamples.rootManifestEnv MoreExamples.rootManifest
         "/@modules/x/y.js" emptyState) = Ok "/proj/@modules/x/y.js"
  /\ lookupFile MoreExamples.rootManifestEnv "/proj/@modules/x/y.js" "package.json"
     = Some "/package.json"
  /\ forall fuel,
       normalizePublicPath MoreExamples.rootManifestEnv MoreExamples.rootManifest
         fuel "/@modules/x/y.js" emptyState = None.
Proof.
  split; [reflexivity|]. split; [reflexivity|].
  apply (normalizePublicPath_loops_at_root_manifest MoreExamples.rootManifestEnv
           MoreExamples.rootManifest "/@modules/x/y.js" emptyState
           "/proj/@modules/x/y.js"
           (snd (requestToFile MoreExamples.rootManifestEnv
                   MoreExamples.rootManifest "/@modules/x/y.js" emptyState))).
  - reflexivity.
  - reflexivity.
  - reflexivity.
  - reflexivity.
  - reflexivity.
  - discriminate.
  - reflexivity.
  - reflexivity.
Defined.

(** X8.  [normalizePublicPath] throws the "can't find package.json" error,
    naming the request, on a module request with a path inside the package
    when the file it resolves to is not in the optimizer directory and there
    is no manifest at or above that file.  The request stays cached. *)
Theorem normalizePublicPath_no_manifest_throws (env : Env) (r : Internal)
    (publicPath : string) (st : State) (filePath : string) (st1 : State) :
  String.eqb publicPath (clientPublicPath env) = false ->
  cleanUrl publicPath = publicPath ->
  moduleRE_test publicPath = true ->
  requestToFile env r publicPath st = (Ok filePath, st1) ->
  cacheRelative env (cacheDirOf env st1 (root r)) filePath = None ->
  inPkgPath (parseNodeModuleId (moduleRE_strip publicPath)) <> "" ->
  lookupFile env filePath "package.json" = None ->
  forall fuel, exists st2,
    normalizePublicPath env r (S fuel) publicPath st
    = Some (Throw (noPackageJsonMessage publicPath), st2)
    /\ requestToFileCache st2 !! publicPath = Some filePath.
Proof.
  intros Hclient Hclean Hmod Hrun Hcache HinPkg Hlook fuel.
  destruct (normalizePublicPath_module env r (S fuel) publicPath st filePath st1
              Hclient Hclean Hmod Hrun) as [st2 [Hsame ->]].
  exists st2. split.
  - rewrite Hcache. cbv zeta.
    apply truthy_true in HinPkg as Htruthy. rewrite Htruthy. cbn [negb].
    cbn [findPostFix]. rewrite (startsWith_empty _ HinPkg). now rewrite Hlook.
  - rewrite (same_requestToFileCache _ _ _ Hsame).
    eapply requestToFile_memoized, Hrun.
Qed.

Lemma normalizePublicPath_no_manifest_throws_witness :
  fst (requestToFile Examples.emptyEnv Examples.emptyProj "/@modules/x/y.js"
         emptyState) = Ok "/proj/@modules/x/y.js"
  /\ exists st2,
       normalizePublicPath Examples.emptyEnv Examples.emptyProj 1
         "/@modules/x/y.js" emptyState
       = Some (Throw (noPackageJsonMessage "/@modules/x/y.js"), st2)
       /\ requestToFileCache st2 !! "/@modules/x/y.js"
          = Some "/proj/@modules/x/y.js".
Proof.
  split; [reflexivity|].
  apply (normalizePublicPath_no_manifest_throws Examples.emptyEnv
           Examples.emptyProj "/@modules/x/y.js" emptyState
           "/proj/@modules/x/y.js"
           (snd (requestToFile Examples.emptyEnv Examples.emptyProj
                   "/@modules/x/y.js" emptyState))).
  - reflexivity.
  - reflexivity.
  - reflexivity.
  - reflexivity.
  - reflexivity.
  - discriminate.
  - reflexivity.
Defined.

(** ** Files served by the module-resolve plugin *)

(** X9.  Let the file->id table map [file] to a non-empty [request] under
    the module prefix, and the id->file table map that request's id back to
    [file], an existing regular file without ["?"] or ["#"] in its name.  If no
    resolver entry answers either of them and neither is cached, file->request
    gives [request], request->file gives [file] back, and both answers are
    memoized. *)
Theorem module_file_round_trip (env : Env) (r : Internal)
    (file request : string) (st : State) :
  fileToRequestCache st !! file = None ->
  requestToFileCache st !! request = None ->
  firstFileToRequest r (resolvers r) file = Ok None ->
  Forall (declines r request) (resolvers r) ->
  moduleFileToIdMap st !! file = Some request ->
  request <> "" ->
  moduleRE_test request = true ->
  moduleIdToFileMap st !! moduleRE_strip request = Some file ->
  file <> "" ->
  isFile env (cleanUrl file) = true ->
  let st1 := set_fileToRequestCache file request st in
  fileToRequest env r file st = (Ok request, st1)
  /\ requestToFile env r request st1
     = (Ok file, set_requestToFileCache request file st1).
Proof.
  intros HcacheF HcacheR HentryF HentryR Hid Hrequest Hmod Hfile Hne Hexists st1.
  assert (Hdefault : defaultRequestOf env st file (root r) = request).
  { unfold defaultRequestOf. rewrite Hid. cbn.
    apply truthy_true in Hrequest. now rewrite Hrequest. }
  split.
  - rewrite fileToRequest_miss by exact HcacheF. now rewrite HentryF, Hdefault.
  - rewrite requestToFile_miss by exact HcacheR.
    rewrite (firstRequestToFile_none r request _ HentryR).
    rewrite defaultRequestToFile_module by exact Hmod.
    unfold moduleRequestToFile. unfold bind at 1. unfold gets.
    change (moduleIdToFileMap st1) with (moduleIdToFileMap st). rewrite Hfile.
    cbn [Js.truthy_opt]. apply truthy_true in Hne. rewrite Hne.
    unfold ret. now rewrite (applyPostfix_file env file Hexists).
Qed.

Lemma module_file_round_trip_witness :
  let file := "/proj/node_modules/lodash-es/fp/x.js" in
  let request := "/@modules/lodash-es/fp/x.js" in
  let st := servedModule request file in
  let st1 := set_fileToRequestCache file request st in
  fileToRequest Examples.pkgEnv Examples.pkg file st = (Ok request, st1)
  /\ requestToFile Examples.pkgEnv Examples.pkg request st1
     = (Ok file, set_requestToFileCache request file st1).
Proof.
  apply (module_file_round_trip Examples.pkgEnv Examples.pkg
           "/proj/node_modules/lodash-es/fp/x.js" "/@modules/lodash-es/fp/x.js").
  - reflexivity.
  - reflexivity.
  - reflexivity.
  - constructor.
  - reflexivity.
  - discriminate.
  - reflexivity.
  - reflexivity.
  - discriminate.
  - reflexivity.
Defined.

(** ** The order of [alias] *)

Lemma firstAlias_skip (id : string) (pre rest : list Resolver.t) :
  Forall (declinesAlias id) pre ->
  firstAlias (pre ++ rest) id = firstAlias rest id.
Proof.
  induction 1 as [|e pre He _ IH]; [reflexivity|].
  cbn. unfold declinesAlias in He.
  destruct (Resolver.alias e) as [[f|entries]|]; try exact IH.
  destruct He as [o [-> Ho]]. now rewrite Ho.
Qed.

(** X10.  [alias] answers from the literal table whenever reading it gives
    something truthy, without calling any alias function: a non-empty target
    that was assigned under the id, or, for a name of [Object.prototype] that
    has no own entry (and for [__proto__] always), the member of the
    prototype, which is not a string.  Otherwise the alias functions are
    called in the order of the entries: the first one that returns a
    non-empty string decides, one that throws before that makes [alias]
    throw, and when all decline the answer is [undefined]. *)
Theorem alias_order (r : Internal) (id : string) :
  (forall target,
      id <> "__proto__" -> literalAlias r !! id = Some target -> target <> "" ->
      alias r id = Ok (Some (Target target)))
  /\ (id ∈ objectPrototypeNames ->
      id = "__proto__" \/ literalAlias r !! id = None ->
      alias r id = Ok (Some (Inherited id)))
  /\ (id <> "__proto__" ->
      match literalAlias r !! id with
      | Some target => target = ""
      | None => id ∉ objectPrototypeNames
      end ->
      (forall pre e post f,
          resolvers r = pre ++ e :: post ->
          Forall (declinesAlias id) pre ->
          Resolver.alias e = Some (Resolver.AliasFunction f) ->
          (forall target, f id = Ok (Some target) -> target <> "" ->
             alias r id = Ok (Some (Target target)))
          /\ (forall message, f id = Throw message ->
                alias r id = Throw message))
      /\ (Forall (declinesAlias id) (resolvers r) -> alias r id = Ok None)).
Proof.
  unfold alias, getProperty. split; [|split].
  - intros target Hproto -> Htarget. apply string_eqb_false in Hproto.
    rewrite Hproto. cbn. apply truthy_true in Htarget. now rewrite Htarget.
  - intros Hname Hcase. destruct (String.eqb id "__proto__") eqn:Hproto;
      [reflexivity|].
    destruct Hcase as [-> | ->]; [discriminate|].
    now rewrite bool_decide_eq_true_2 by exact Hname.
  - intros Hproto Hfalsy. apply string_eqb_false in Hproto. rewrite Hproto.
    assert (Hread : truthyAliased
                      match literalAlias r !! id with
                      | Some target => Some (Target target)
                      | None =>
                          if bool_decide (id ∈ objectPrototypeNames)
                          then Some (Inherited id) else None
                      end = false).
    { destruct (literalAlias r !! id) as [target|]; [now subst|].
      now rewrite bool_decide_eq_false_2 by exact Hfalsy. }
    rewrite Hread. split.
    + intros pre e post f -> Hpre He. rewrite firstAlias_skip by exact Hpre.
      cbn. rewrite He. split.
      * intros target -> Htarget. cbn. apply truthy_true in Htarget.
        now rewrite Htarget.
      * now intros message ->.
    + intros Hall. rewrite <- (app_nil_r (resolvers r)).
      now rewrite firstAlias_skip.
Qed.

Lemma alias_order_witness :
  alias MoreExamples.aliased "react" = Ok (Some (Target "@pika/react"))
  /\ alias MoreExamples.aliased "constructor" = Ok (Some (Inherited "constructor"))
  /\ alias MoreExamples.aliased "vue" = Ok (Some (Target "vue/dist/vue.esm.js"))
  /\ alias MoreExamples.aliased "lodash" = Throw "alias failed".
Proof.
  destruct (alias_order MoreExamples.aliased "react") as [Hliteral _].
  destruct (alias_order MoreExamples.aliased "constructor") as (_ & Hproto & _).
  destruct (alias_order MoreExamples.aliased "vue") as (_ & _ & Hvue).
  destruct (alias_order MoreExamples.aliased "lodash") as (_ & _ & Hlodash).
  split; [apply Hliteral; [discriminate | reflexivity | discriminate]|].
  split; [apply Hproto; [compute_done | now right]|].
  split.
  - edestruct (proj1 (Hvue ltac:(discriminate) ltac:(cbn; compute_done))
                 [Examples.pluginResolver "preact"]
                 MoreExamples.vueAlias [MoreExamples.throwingAlias])
      as [Hanswer _]; [reflexivity | repeat constructor | reflexivity|].
    apply Hanswer; [reflexivity | discriminate].
  - edestruct (proj1 (Hlodash ltac:(discriminate) ltac:(cbn; compute_done))
                 [Examples.pluginResolver "preact"; MoreExamples.vueAlias]
                 MoreExamples.throwingAlias [])
      as [_ Hthrows]; [reflexivity | | reflexivity|].
    + repeat constructor. cbn. now exists None.
    + now apply Hthrows.
Defined.

(** ** The shape of a created resolver *)

Section Created.

Variable env : Env.
Variable root0 : string.
Variable rs : list Resolver.t.

Lemma createdShape_pushDirAlias r key target :
  createdShape env root0 rs r ->
  Js.startsWith key "/" = true -> Js.endsWith key "/" = true ->
  Spec.existingDirectory env target = true ->
  createdShape env root0 rs (pushDirAlias env key target r).
Proof.
  intros (Hroot & derived & Hrs & Hall & Hdir & Hlit) Hstart Hend Hexists.
  split; [exact Hroot|].
  exists (derived ++ [dirAliasResolver env key target]). cbn.
  split; [now rewrite Hrs, app_assoc|]. split; [|split].
  - apply Forall_app. split; [exact Hall|]. constructor; [|constructor].
    now exists key, target.
  - intros key' target'. destruct (decide (key = key')) as [<- | Hne].
    + rewrite lookup_insert_eq. intros [= <-]. apply elem_of_app. right.
      now left.
    + rewrite lookup_insert_ne by exact Hne. intros Hget.
      apply elem_of_app. left. now apply Hdir.
  - exact Hlit.
Qed.

Lemma createdShape_entry r entry r' :
  createdShape env root0 rs r ->
  resolveAliasEntry env r entry = Ok r' ->
  createdShape env root0 rs r'.
Proof.
  intros Hshape. destruct entry as [key target]. unfold resolveAliasEntry.
  destruct (Js.startsWith key "/" && Js.endsWith key "/" && Path.isAbsolute target)
    eqn:Htest.
  - apply andb_prop in Htest as [Htest _]. apply andb_prop in Htest as [Hstart Hend].
    rewrite !isDir_existingDirectory.
    destruct (Spec.existingDirectory env (Path.join [root r; target])) eqn:Hfrom.
    { intros [= <-]. now apply createdShape_pushDirAlias. }
    destruct (Spec.existingDirectory env target) eqn:Htarget.
    { intros [= <-]. now apply createdShape_pushDirAlias. }
    now intros [= <-].
  - intros [= <-].
    destruct Hshape as (Hroot & derived & Hrs & Hall & Hdir & Hlit).
    split; [exact Hroot|]. exists derived. cbn.
    split; [exact Hrs|]. split; [exact Hall|]. split; [exact Hdir|].
    intros key' target'. unfold setProperty.
    destruct (String.eqb key "__proto__"); [apply Hlit|].
    destruct (decide (key = key')) as [<- | Hne].
    + rewrite lookup_insert_eq. now intros [= <-].
    + rewrite lookup_insert_ne by exact Hne. apply Hlit.
Qed.

Lemma createdShape_resolveAlias alias r r' :
  createdShape env root0 rs r ->
  resolveAlias env r alias = Ok r' ->
  createdShape env root0 rs r'.
Proof.
  revert r. induction alias as [|entry alias IH]; intros r Hshape; cbn.
  - now intros [= <-].
  - destruct (resolveAliasEntry env r entry) as [r1|] eqn:Hentry; [|discriminate].
    apply IH. eapply createdShape_entry; eassumption.
Qed.

Lemma createdShape_resolveResolverAliases entries r r' :
  createdShape env root0 rs r ->
  resolveResolverAliases env r entries = Ok r' ->
  createdShape env root0 rs r'.
Proof.
  revert r. induction entries as [|e entries IH]; intros r Hshape; cbn.
  - now intros [= <-].
  - destruct (Resolver.alias e) as [[f|alias]|]; try (now apply IH).
    destruct (resolveAlias env r alias) as [r1|] eqn:Halias; [|discriminate].
    apply IH. eapply createdShape_resolveAlias; eassumption.
Qed.

Lemma createResolver_createdShape userAlias r :
  createResolver env root0 rs userAlias = Ok r ->
  createdShape env root0 rs r.
Proof.
  unfold createResolver.
  destruct (resolveResolverAliases env _ rs) as [r1|] eqn:Hfirst; [|discriminate].
  apply createdShape_resolveAlias.
  eapply createdShape_resolveResolverAliases; [|exact Hfirst].
  split; [reflexivity|]. exists []. cbn.
  split; [now rewrite app_nil_r|]. split; [constructor|].
  split; intros key target; now rewrite lookup_empty.
Qed.

End Created.

(** An entry in the list that answers makes the loop answer or throw. *)
Lemma firstRequestToFile_answered (r : Internal) (entries : list Resolver.t)
    (publicPath : string) (e : Resolver.t) f file :
  e ∈ entries ->
  Resolver.requestToFile e = Some f ->
  f publicPath (root r) = Ok (Some file) ->
  file <> "" ->
  firstRequestToFile r entries publicPath <> Ok None.
Proof.
  intros Hin He Hf Hfile. induction entries as [|e' entries IH].
  - now apply elem_of_nil in Hin.
  - cbn. apply elem_of_cons in Hin as [<- | Hin].
    + rewrite He, Hf. cbn. apply truthy_true in Hfile. now rewrite Hfile.
    + destruct (Resolver.requestToFile e') as [f'|]; [|now apply IH].
      destruct (f' publicPath (root r)) as [o|]; [|discriminate].
      destruct (Js.truthy_opt o) eqn:Ho; [|now apply IH].
      destruct o; [discriminate | discriminate].
Qed.

(** X11.  A resolver made by [createResolver] keeps the root it was given
    and the resolvers it was given, in their order, followed only by entries
    pushed for directory aliases; each of those has a key that starts and
    ends with ["/"] and a target that was an existing directory.  Every entry
    of the directory-alias table has its pushed entry, and the literal table
    holds no pair that passes the directory-alias test.  When the given
    resolvers return normally on every argument, so do all entries of the
    resolver. *)
Theorem createResolver_shape (env : Env) (root0 : string)
    (rs : list Resolver.t) (userAlias : list (string * string)) (r : Internal) :
  createResolver env root0 rs userAlias = Ok r ->
  root r = root0
  /\ (exists derived,
        resolvers r = rs ++ derived
        /\ Forall (aliasDerived env) derived
        /\ (forall key target,
              literalDirAlias r !! key = Some target ->
              dirAliasResolver env key target ∈ derived)
        /\ (forall key target,
              literalAlias r !! key = Some target ->
              Spec.isDirectoryAlias (key, target) = false))
  /\ (Forall Spec.returnsNormally rs ->
      Forall Spec.returnsNormally (resolvers r)).
Proof.
  intros Hcreate.
  destruct (createResolver_createdShape _ _ _ _ _ Hcreate)
    as (Hroot & derived & Hrs & Hall & Hdir & Hliteral).
  split; [exact Hroot|]. split.
  - exists derived. auto.
  - intros Hnormal. rewrite Hrs. apply Forall_app. split; [exact Hnormal|].
    eapply Forall_impl; [exact Hall|].
    intros e (key & target & -> & _). apply dirAliasResolver_returnsNormally.
Qed.

Lemma createResolver_shape_witness :
  root Examples.proj = "/proj"
  /\ (exists derived,
        resolvers Examples.proj = [] ++ derived
        /\ Forall (aliasDerived Examples.projEnv) derived
        /\ (forall key target,
              literalDirAlias Examples.proj !! key = Some target ->
              dirAliasResolver Examples.projEnv key target ∈ derived)
        /\ (forall key target,
              literalAlias Examples.proj !! key = Some target ->
              Spec.isDirectoryAlias (key, target) = false))
  /\ (Forall Spec.returnsNormally [] ->
      Forall Spec.returnsNormally (resolvers Examples.proj)).
Proof.
  apply (createResolver_shape Examples.projEnv "/proj" [] Examples.projAlias).
  reflexivity.
Defined.

(** X12.  The resolvers given to [createResolver] are asked before every
    directory alias: when one of them is the first to answer a request that
    is not cached, its answer is the result, whatever the alias tables of the
    resolvers and of the user say. *)
Theorem supplied_resolvers_before_directory_aliases (env : Env) (root0 : string)
    (pre post : list Resolver.t) (e : Resolver.t)
    (userAlias : list (string * string)) (r : Internal)
    (publicPath : string) (st : State) f (file : string) :
  createResolver env root0 (pre ++ e :: post) userAlias = Ok r ->
  requestToFileCache st !! publicPath = None ->
  Forall (declines r publicPath) pre ->
  Resolver.requestToFile e = Some f ->
  f publicPath root0 = Ok (Some file) ->
  file <> "" ->
  requestToFile env r publicPath st
  = (Ok (applyPostfix env file),
     set_requestToFileCache publicPath (applyPostfix env file) st).
Proof.
  intros Hcreate Hcache Hpre He Hf Hfile.
  destruct (createResolver_createdShape _ _ _ _ _ Hcreate)
    as (Hroot & derived & Hrs & _).
  rewrite requestToFile_miss by exact Hcache.
  rewrite Hrs, <- app_assoc, <- app_comm_cons.
  rewrite (firstRequestToFile_first r publicPath pre e (post ++ derived) f file);
    try assumption; [reflexivity|].
  now rewrite Hroot.
Qed.

(** X13.  A request that starts with the key of a directory alias never
    reaches the default rule: the loop over the entries answers it or throws.
    When the given resolvers return normally, request->file therefore changes
    nothing but its own cache, also for a request under the module prefix. *)
Theorem directory_alias_requests_skip_default_rule (env : Env) (root0 : string)
    (rs : list Resolver.t) (userAlias : list (string * string)) (r : Internal)
    (key target publicPath : string) :
  createResolver env root0 rs userAlias = Ok r ->
  literalDirAlias r !! key = Some target ->
  Js.startsWith publicPath key = true ->
  firstRequestToFile r (resolvers r) publicPath <> Ok None
  /\ (Forall Spec.returnsNormally rs ->
      forall st, requestToFileCache st !! publicPath = None ->
      exists file,
        requestToFile env r publicPath st
        = (Ok file, set_requestToFileCache publicPath file st)).
Proof.
  intros Hcreate Hkey Hstart.
  destruct (createResolver_createdShape _ _ _ _ _ Hcreate)
    as (Hroot & derived & Hrs & Hall & Hdir & _).
  assert (Hanswered : firstRequestToFile r (resolvers r) publicPath <> Ok None).
  { eapply (firstRequestToFile_answered r (resolvers r) publicPath
              (dirAliasResolver env key target)).
    - rewrite Hrs. apply elem_of_app. right. now apply Hdir.
    - reflexivity.
    - cbn beta. now rewrite Hstart.
    - apply truthy_true, join_truthy. }
  split; [exact Hanswered|].
  intros Hnormal st Hcache.
  assert (Hok : isOk (firstRequestToFile r (resolvers r) publicPath) = true).
  { apply firstRequestToFile_isOk. rewrite Hrs. apply Forall_app.
    split; [exact Hnormal|].
    eapply Forall_impl; [exact Hall|].
    intros e (k & t & -> & _). apply dirAliasResolver_returnsNormally. }
  rewrite requestToFile_miss by exact Hcache.
  destruct (firstRequestToFile r (resolvers r) publicPath) as [[file|]|];
    [|congruence|discriminate].
  now eexists.
Qed.

Lemma directory_alias_requests_skip_default_rule_witness :
  literalDirAlias Examples.webModules !! "/@modules/" = Some "/proj/web_modules"
  /\ firstRequestToFile Examples.webModules (resolvers Examples.webModules)
       "/@modules/missing" <> Ok None
  /\ exists file,
       requestToFile Examples.webModulesEnv Examples.webModules
         "/@modules/missing" emptyState
       = (Ok file, set_requestToFileCache "/@modules/missing" file emptyState).
Proof.
  split; [reflexivity|].
  destruct (directory_alias_requests_skip_default_rule Examples.webModulesEnv
              "/proj" [] [("/@modules/", "/proj/web_modules")]
              Examples.webModules "/@modules/" "/proj/web_modules"
              "/@modules/missing" eq_refl eq_refl eq_refl) as [Hfirst Hrun].
  split; [exact Hfirst|]. apply Hrun; [constructor | reflexivity].
Defined.

Lemma supplied_resolvers_before_directory_aliases_witness :
  literalDirAlias Playground.shadowed !! "/@/" = Some "/proj/foo-dir"
  /\ requestToFile Examples.projEnv Playground.shadowed "/@/app.js" emptyState
     = (Ok "/proj/src/app.js",
        set_requestToFileCache "/@/app.js" "/proj/src/app.js" emptyState).
Proof.
  split; [reflexivity|].
  eapply (supplied_resolvers_before_directory_aliases Examples.projEnv "/proj"
            [] [] (Playground.resolver Examples.projEnv "/proj/src" "/proj/bar-dir")
            [("/@/", "/proj/foo-dir")] Playground.shadowed "/@/app.js" emptyState
            _ "/proj/src/app.js").
  - reflexivity.
  - reflexivity.
  - constructor.
  - reflexivity.
  - reflexivity.
  - discriminate.
Defined.

(** X14.  Between two directory aliases on the same key the first
    registration decides where requests go.  When a resolver's alias map and
    the user's alias map both alias [key] to existing directories,
    the directory-alias table records the user's target, but every uncached
    request under [key] resolves into the resolver's target. *)
Theorem directory_alias_first_registration_wins (env : Env)
    (root0 key target1 target2 : string) :
  Js.startsWith key "/" = true ->
  Js.endsWith key "/" = true ->
  Path.isAbsolute target1 = true ->
  Path.isAbsolute target2 = true ->
  Spec.existingDirectory env (Path.join [root0; target1]) = false ->
  Spec.existingDirectory env target1 = true ->
  Spec.existingDirectory env (Path.join [root0; target2]) = false ->
  Spec.existingDirectory env target2 = true ->
  exists r,
    createResolver env root0 [dirAliasPlugin key target1] [(key, target2)] = Ok r
    /\ literalDirAlias r !! key = Some target2
    /\ forall publicPath st,
         Js.startsWith publicPath key = true ->
         requestToFileCache st !! publicPath = None ->
         let file :=
           applyPostfix env
             (Path.join [target1; Js.slice (String.length key) publicPath]) in
         requestToFile env r publicPath st
         = (Ok file, set_requestToFileCache publicPath file st).
Proof.
  intros Hstart Hend Habs1 Habs2 Hfrom1 Hdir1 Hfrom2 Hdir2.
  eexists. split; [|split].
  - unfold createResolver. cbn [resolveResolverAliases dirAliasPlugin
                                 Resolver.alias resolveAlias].
    unfold resolveAliasEntry at 1.
    rewrite Hstart, Hend, Habs1. cbn [andb root].
    rewrite !isDir_existingDirectory, Hfrom1, Hdir1.
    cbn [resolveAlias]. unfold resolveAliasEntry.
    rewrite Hstart, Hend, Habs2. cbn [andb root pushDirAlias].
    rewrite !isDir_existingDirectory, Hfrom2, Hdir2. reflexivity.
  - cbn. apply lookup_insert_eq.
  - intros publicPath st Hunder Hcache file.
    rewrite requestToFile_miss by exact Hcache.
    cbn [resolvers pushDirAlias app firstRequestToFile dirAliasPlugin
         Resolver.requestToFile dirAliasResolver].
    rewrite Hunder. cbn [Js.truthy_opt]. now rewrite join_truthy.
Qed.

Lemma directory_alias_first_registration_wins_witness :
  exists r,
    createResolver Examples.projEnv "/proj"
      [dirAliasPlugin "/lib/" "/proj/src/lib"] [("/lib/", "/proj/foo-dir")] = Ok r
    /\ literalDirAlias r !! "/lib/" = Some "/proj/foo-dir"
    /\ forall publicPath st,
         Js.startsWith publicPath "/lib/" = true ->
         requestToFileCache st !! publicPath = None ->
         let file :=
           applyPostfix Examples.projEnv
             (Path.join ["/proj/src/lib";
                         Js.slice (String.length "/lib/") publicPath]) in
         requestToFile Examples.projEnv r publicPath st
         = (Ok file, set_requestToFileCache publicPath file st).
Proof.
  apply (directory_alias_first_registration_wins Examples.projEnv "/proj" "/lib/"
           "/proj/src/lib" "/proj/foo-dir"); reflexivity.
Defined.

(** ** Round trips through one entry *)

Lemma join_app (sep : string) (l1 l2 : list string) :
  l1 <> [] -> l2 <> [] ->
  Js.join sep (l1 ++ l2) = Js.join sep l1 +:+ sep +:+ Js.join sep l2.
Proof.
  intros H1 H2. induction l1 as [|x l1 IH]; [congruence|].
  destruct l1 as [|y l1].
  - cbn [app]. now rewrite join_cons by exact H2.
  - rewrite <- app_comm_cons, join_cons by discriminate.
    rewrite IH by discriminate. rewrite (join_cons sep x (y :: l1)) by discriminate.
    now rewrite !append_assoc.
Qed.

Lemma absolutePath_app (ts segs : list string) :
  ts <> [] -> segs <> [] ->
  absolutePath (ts ++ segs) = (absolutePath ts +:+ "/") +:+ Js.join "/" segs.
Proof.
  intros Hts Hsegs. unfold absolutePath. rewrite join_app by assumption.
  now rewrite !append_assoc.
Qed.

Lemma absolutePath_prefix (ts segs : list string) :
  Js.startsWith (absolutePath (ts ++ segs)) (absolutePath ts) = true.
Proof.
  unfold Js.startsWith. destruct ts as [|t ts].
  - cbn [app]. unfold absolutePath. cbn [Js.join]. rewrite append_nil_r.
    apply prefix_append.
  - destruct segs as [|x segs].
    + rewrite app_nil_r. apply prefix_refl.
    + rewrite absolutePath_app by discriminate. rewrite append_assoc.
      apply prefix_append.
Qed.

(** X15.  The two functions of the entry pushed for a directory alias undo
    each other on the files below the target: for a target [/t1/.../tn]
    ([n >= 1]) and a file [/t1/.../tn/s1/.../sm] ([m >= 1]) made of plain
    segments, file->request answers the key followed by [s1/.../sm], and
    request->file answers the file for that request. *)
Theorem directory_alias_entry_round_trip (env : Env) (key : string)
    (ts segs : list string) (root0 : string) :
  Forall (fun s => plainSegment s = true) ts ->
  Forall (fun s => plainSegment s = true) segs ->
  ts <> [] -> segs <> [] ->
  let target := absolutePath ts in
  let file := absolutePath (ts ++ segs) in
  let request := key +:+ Js.join "/" segs in
  slash env request = request ->
  exists toRequest toFile,
    Resolver.fileToRequest (dirAliasResolver env key target) = Some toRequest
    /\ Resolver.requestToFile (dirAliasResolver env key target) = Some toFile
    /\ toRequest file root0 = Ok (Some request)
    /\ toFile request root0 = Ok (Some file).
Proof.
  intros Hts Hsegs Hne1 Hne2 target file request Hslash.
  eexists _, _. split; [reflexivity|]. split; [reflexivity|]. cbn beta. split.
  - unfold file at 1. rewrite absolutePath_app by assumption.
    fold target. unfold Js.startsWith at 1. rewrite prefix_append.
    unfold target, file. rewrite relative_under by assumption.
    fold request. now rewrite Hslash.
  - unfold Js.startsWith, request. rewrite prefix_append, slice_append.
    unfold target, file. now rewrite join_under.
Qed.

Lemma directory_alias_entry_round_trip_witness :
  exists toRequest toFile,
    Resolver.fileToRequest (dirAliasResolver Examples.projEnv "/@foo/" "/proj/foo-dir")
    = Some toRequest
    /\ Resolver.requestToFile
         (dirAliasResolver Examples.projEnv "/@foo/" "/proj/foo-dir")
       = Some toFile
    /\ toRequest "/proj/foo-dir/util.ts" "/proj" = Ok (Some "/@foo/util.ts")
    /\ toFile "/@foo/util.ts" "/proj" = Ok (Some "/proj/foo-dir/util.ts").
Proof.
  apply (directory_alias_entry_round_trip Examples.projEnv "/@foo/"
           ["proj"; "foo-dir"] ["util.ts"] "/proj").
  - repeat constructor.
  - repeat constructor.
  - discriminate.
  - discriminate.
  - reflexivity.
Defined.

(** X16.  The resolver of the playground configuration maps a file below
    its source directory to the request [/@/] followed by the file's path
    inside that directory, and maps that request back to the file.  The
    [/components/] request of the same path reaches the same file, so on such
    a request request->file followed by file->request answers with the [/@/]
    form. *)
Theorem playground_resolver_round_trip (env : Env) (barDir : string)
    (ts segs : list string) (root0 : string) :
  Forall (fun s => plainSegment s = true) ts ->
  Forall (fun s => plainSegment s = true) segs ->
  segs <> [] ->
  let srcPath := absolutePath ts in
  let file := absolutePath (ts ++ segs) in
  let rel := Js.join "/" segs in
  exists toRequest toFile,
    Resolver.fileToRequest (Playground.resolver env srcPath barDir) = Some toRequest
    /\ Resolver.requestToFile (Playground.resolver env srcPath barDir) = Some toFile
    /\ toRequest file root0 = Ok (Some ("/@/" +:+ rel))
    /\ toFile ("/@/" +:+ rel) root0 = Ok (Some file)
    /\ toFile ("/components/" +:+ rel) root0 = Ok (Some file).
Proof.
  intros Hts Hsegs Hne srcPath file rel.
  eexists _, _. split; [reflexivity|]. split; [reflexivity|]. cbn beta.
  split; [|split].
  - unfold file, srcPath. rewrite absolutePath_prefix.
    now rewrite relative_under by assumption.
  - unfold Js.startsWith. rewrite prefix_append, stripPrefix_append.
    unfold srcPath, rel, file. now rewrite join_under.
  - assert (Hother : Js.startsWith ("/components/" +:+ rel) "/@/" = false)
      by reflexivity.
    rewrite Hother. unfold Js.startsWith.
    rewrite prefix_append, stripPrefix_append.
    unfold srcPath, rel, file. now rewrite join_under.
Qed.

Lemma playground_resolver_round_trip_witness :
  exists toRequest toFile,
    Resolver.fileToRequest
      (Playground.resolver Examples.projEnv "/proj/src" "/proj/bar-dir")
    = Some toRequest
    /\ Resolver.requestToFile
         (Playground.resolver Examples.projEnv "/proj/src" "/proj/bar-dir")
       = Some toFile
    /\ toRequest "/proj/src/lib/index.tsx" "/proj" = Ok (Some "/@/lib/index.tsx")
    /\ toFile "/@/lib/index.tsx" "/proj" = Ok (Some "/proj/src/lib/index.tsx")
    /\ toFile "/components/lib/index.tsx" "/proj"
       = Ok (Some "/proj/src/lib/index.tsx").
Proof.
  apply (playground_resolver_round_trip Examples.projEnv "/proj/bar-dir"
           ["proj"; "src"] ["lib"; "index.tsx"] "/proj").
  - repeat constructor.
  - repeat constructor.
  - discriminate.
Defined.

(** ** The keys of the directory-alias table *)

Lemma resolveAlias_app (env : Env) (r : Internal) (a b : list (string * string)) :
  resolveAlias env r (a ++ b) =
    match resolveAlias env r a with
    | Ok r' => resolveAlias env r' b
    | Throw e => Throw e
    end.
Proof.
  revert r. induction a as [|entry a IH]; intros r; [reflexivity|]. cbn.
  destruct (resolveAliasEntry env r entry); [apply IH | reflexivity].
Qed.

Lemma resolveResolverAliases_flat (env : Env) (r : Internal) (rs : list Resolver.t) :
  resolveResolverAliases env r rs = resolveAlias env r (aliasRecords rs).
Proof.
  revert r. induction rs as [|e rs IH]; intros r; [reflexivity|].
  cbn. destruct (Resolver.alias e) as [[f|entries]|]; try apply IH.
  rewrite resolveAlias_app.
  destruct (resolveAlias env r entries); [apply IH | reflexivity].
Qed.

Lemma elem_of_assignKey (keys : list string) (key k : string) :
  k ∈ assignKey keys key <-> k = key \/ k ∈ keys.
Proof.
  unfold assignKey. case_bool_decide as Hin.
  - split; [now right|]. now intros [-> | H].
  - rewrite elem_of_app, list_elem_of_singleton. tauto.
Qed.

Lemma NoDup_assignKey (keys : list string) (key : string) :
  NoDup keys -> NoDup (assignKey keys key).
Proof.
  intros Hkeys. unfold assignKey. case_bool_decide as Hin; [exact Hkeys|].
  apply NoDup_app. split; [exact Hkeys|]. split.
  - intros k Hk Hk'. apply list_elem_of_singleton in Hk'. now subst.
  - apply NoDup_singleton.
Qed.

Lemma NoDup_dirAliasStep (env : Env) (root0 : string) (entries : list (string * string))
    (keys : list string) :
  NoDup keys -> NoDup (fold_left (dirAliasStep env root0) entries keys).
Proof.
  revert keys. induction entries as [|[key target] entries IH]; intros keys Hkeys;
    [exact Hkeys|].
  cbn [fold_left]. apply IH. unfold dirAliasStep.
  destruct (_ && _ && _); [|exact Hkeys].
  destruct (_ || _); [now apply NoDup_assignKey | exact Hkeys].
Qed.

Lemma dirAliasStep_keys (env : Env) (root0 : string) (r r' : Internal)
    (keys : list string) (entry : string * string) :
  root r = root0 ->
  (forall k, k ∈ keys <-> is_Some (literalDirAlias r !! k)) ->
  resolveAliasEntry env r entry = Ok r' ->
  root r' = root0
  /\ forall k, k ∈ dirAliasStep env root0 keys entry
               <-> is_Some (literalDirAlias r' !! k).
Proof.
  intros Hroot Hkeys. destruct entry as [key target].
  unfold resolveAliasEntry, dirAliasStep. rewrite Hroot.
  assert (Hpush : forall t k,
            k ∈ assignKey keys key
            <-> is_Some (literalDirAlias (pushDirAlias env key t r) !! k)).
  { intros t k. rewrite elem_of_assignKey. cbn.
    rewrite lookup_insert_is_Some', Hkeys. intuition congruence. }
  destruct (_ && _ && _).
  - rewrite !isDir_existingDirectory.
    destruct (Spec.existingDirectory env (Path.join [root0; target])).
    { intros [= <-]. split; [exact Hroot | apply Hpush]. }
    destruct (Spec.existingDirectory env target); cbn [orb].
    { intros [= <-]. split; [exact Hroot | apply Hpush]. }
    intros [= <-]. now split.
  - intros [= <-]. now split.
Qed.

Lemma dirAliasKeys_fold (env : Env) (root0 : string)
    (entries : list (string * string)) (r r' : Internal) (keys : list string) :
  root r = root0 ->
  (forall k, k ∈ keys <-> is_Some (literalDirAlias r !! k)) ->
  resolveAlias env r entries = Ok r' ->
  forall k, k ∈ fold_left (dirAliasStep env root0) entries keys
            <-> is_Some (literalDirAlias r' !! k).
Proof.
  revert r keys. induction entries as [|entry entries IH]; intros r keys Hroot Hkeys.
  - now intros [= <-].
  - cbn. destruct (resolveAliasEntry env r entry) as [r1|] eqn:Hentry; [|discriminate].
    destruct (dirAliasStep_keys env root0 r r1 keys entry Hroot Hkeys Hentry)
      as [Hroot1 Hkeys1].
    now apply IH.
Qed.

(** X17.  The directory-alias table of a created resolver has exactly the
    keys of the alias entries, of the resolvers' maps and of the user's, that
    pass the directory-alias test and whose target is an existing directory
    below the root or as given; enumerated in the order of their first
    assignment, no key comes twice. *)
Theorem createResolver_directory_alias_keys (env : Env) (root0 : string)
    (rs : list Resolver.t) (userAlias : list (string * string)) (r : Internal) :
  createResolver env root0 rs userAlias = Ok r ->
  (forall key, key ∈ dirAliasKeys env root0 rs userAlias
               <-> is_Some (literalDirAlias r !! key))
  /\ NoDup (dirAliasKeys env root0 rs userAlias).
Proof.
  intros Hcreate. split; [|apply NoDup_dirAliasStep, NoDup_nil_2].
  unfold createResolver in Hcreate.
  rewrite resolveResolverAliases_flat, <- resolveAlias_app in Hcreate.
  eapply dirAliasKeys_fold; [| |exact Hcreate]; [reflexivity|].
  intros k. cbn. rewrite lookup_empty. split.
  - now intros H%elem_of_nil.
  - now intros [x Hx].
Qed.

Lemma createResolver_directory_alias_keys_witness :
  dirAliasKeys Examples.projEnv "/proj"
    [Playground.resolver Examples.projEnv "/proj/src" "/proj/foo-dir"]
    [("/@foo/", "/proj/foo-dir"); ("react", "@pika/react");
     ("/@bar/", "/proj/src")]
  = ["/@bar/"; "/@foo/"]
  /\ forall key,
       key ∈ ["/@bar/"; "/@foo/"]
       <-> is_Some
             (literalDirAlias
                (Examples.orEmpty
                   (createResolver Examples.projEnv "/proj"
                      [Playground.resolver Examples.projEnv "/proj/src"
                         "/proj/foo-dir"]
                      [("/@foo/", "/proj/foo-dir"); ("react", "@pika/react");
                       ("/@bar/", "/proj/src")])) !! key).
Proof.
  split; [reflexivity|].
  apply (createResolver_directory_alias_keys Examples.projEnv "/proj"
           [Playground.resolver Examples.projEnv "/proj/src" "/proj/foo-dir"]
           [("/@foo/", "/proj/foo-dir"); ("react", "@pika/react");
            ("/@bar/", "/proj/src")]).
  reflexivity.
Defined.

(** ** Relative imports *)

Lemma cleanUrl_idem (s : string) : cleanUrl (cleanUrl s) = cleanUrl s.
Proof.
  induction s as [|a s IH]; [reflexivity|]. cbn.
  destruct (Ascii.eqb a "?" || Ascii.eqb a "#") eqn:Ha; [reflexivity|].
  cbn. now rewrite Ha, IH.
Qed.

Lemma cleanUrl_app (a b : string) :
  cleanUrl a = a -> cleanUrl b = b -> cleanUrl (a +:+ b) = a +:+ b.
Proof.
  intros Ha Hb. induction a as [|c a IH]; [now rewrite append_nil_l|].
  rewrite append_cons. cbn in *.
  destruct (Ascii.eqb c "?" || Ascii.eqb c "#"); [discriminate|].
  injection Ha as Ha. now rewrite IH.
Qed.

Lemma keeps_resolveRelative (env : Env) (r : Internal) (keys : list string)
    (importer importee : string) :
  keeps (later env r) (resolveRelative env r keys importer importee).
Proof.
  unfold resolveRelative.
  destruct (Js.startsWith importee "."); [|apply keeps_ret, later_refl].
  destruct (List.find _ keys) as [alias|]; [|apply keeps_ret, later_refl].
  destruct (negb _); [|apply keeps_ret, later_refl].
  apply keeps_bind; [apply later_trans | apply requestToFile_later|].
  intros file. apply fileToRequest_later.
Qed.

(** X18.  Let the importee start with ["."] and let [alias] be the first
    directory-alias key, as enumerated, that the importer starts with; let
    [naive] be the importee resolved against the importer's directory as
    request paths.
    - If [naive] is under [alias], it is the answer, and the resolver is not
      asked: the state is untouched.
    - If [naive] is not under [alias], [resolveRelativeRequest] asks
      request->file for the importer, resolves the importee against the
      directory of that file, and answers with what file->request says of the
      result, in the state these two calls leave.
    In both cases the pathname is the answer cleaned by [cleanUrl], followed
    by ["/"] when the importee ends with one and the answer does not.
    Whatever the call does, the caches of the resolver have only grown, and
    it returns normally whenever the resolver entries do. *)
Theorem resolveRelativeRequest_across_alias (env : Env) (r : Internal)
    (queryRE : string -> option string) (keys : list string)
    (importer importee : string) (st : State) :
  let pathnameOf resolved :=
    cleanUrl resolved
      +:+ (if Js.endsWith importee "/" && negb (Js.endsWith resolved "/")
           then "/" else "") in
  let naive := Path.resolve (cwd env) [Path.dirname importer; importee] in
  (forall alias,
      Js.startsWith importee "." = true ->
      List.find (fun alias => Js.startsWith importer alias) keys = Some alias ->
      (Js.startsWith naive alias = true ->
       resolveRelativeRequest env r queryRE keys importer importee st
       = (Ok (pathnameOf naive, default "" (queryRE importee)), st))
      /\ (Js.startsWith naive alias = false ->
          forall importerFilePath st1 request st2,
            requestToFile env r importer st = (Ok importerFilePath, st1) ->
            fileToRequest env r
              (Path.resolve (cwd env) [Path.dirname importerFilePath; importee])
              st1
            = (Ok request, st2) ->
            resolveRelativeRequest env r queryRE keys importer importee st
            = (Ok (pathnameOf request, default "" (queryRE importee)), st2)))
  /\ (forall res st',
        resolveRelativeRequest env r queryRE keys importer importee st
        = (res, st') ->
        later env r st st')
  /\ (Forall Spec.returnsNormally (resolvers r) ->
      isOk (fst (resolveRelativeRequest env r queryRE keys importer importee st))
      = true).
Proof.
  intros pathnameOf naive. split; [|split].
  - intros alias Hrelative Hfind. unfold resolveRelativeRequest, resolveRelative.
    cbv zeta. rewrite Hrelative, Hfind. fold naive. split.
    + intros ->. reflexivity.
    + intros -> importerFilePath st1 request st2 Hfile Hrequest.
      cbn [negb]. unfold bind. now rewrite Hfile, Hrequest.
  - intros res st' Hrun.
    assert (Hkeeps : keeps (later env r)
                       (resolveRelativeRequest env r queryRE keys importer
                          importee)).
    { unfold resolveRelativeRequest. cbv zeta.
      apply keeps_bind; [apply later_trans | apply keeps_resolveRelative|].
      intros resolved. apply keeps_ret, later_refl. }
    eapply Hkeeps, Hrun.
  - intros Hnormal. unfold resolveRelativeRequest. cbv zeta.
    apply bind_isOk; [|reflexivity].
    unfold resolveRelative.
    destruct (Js.startsWith importee "."); [|reflexivity].
    destruct (List.find _ keys) as [alias|]; [|reflexivity].
    destruct (negb _); [|reflexivity].
    apply bind_isOk; [now apply requestToFile_isOk|].
    intros file st1. now apply fileToRequest_isOk.
Qed.

Lemma resolveRelativeRequest_across_alias_witness :
  let keys := dirAliasKeys Examples.projEnv "/proj" [] [("/@lib/", "/proj/src/lib")] in
  let st1 := set_requestToFileCache "/@lib/index.tsx" "/proj/src/lib/index.tsx"
               emptyState in
  let st2 := set_fileToRequestCache "/proj/src/app.js" "/src/app.js" st1 in
  keys = ["/@lib/"]
  /\ Path.resolve "/" [Path.dirname "/@lib/index.tsx"; "../app.js"] = "/app.js"
  /\ resolveRelativeRequest Examples.projEnv Examples.libAlias Js.matchQuery keys
       "/@lib/index.tsx" "../app.js" emptyState
     = (Ok ("/src/app.js", ""), st2)
  /\ resolveRelativeRequest Examples.projEnv Examples.libAlias Js.matchQuery keys
       "/@lib/index.tsx" "./util?x" emptyState
     = (Ok ("/@lib/util", "?x"), emptyState)
  /\ later Examples.projEnv Examples.libAlias emptyState st2.
Proof.
  intros keys st1 st2.
  destruct (resolveRelativeRequest_across_alias Examples.projEnv
              Examples.libAlias Js.matchQuery keys "/@lib/index.tsx" "../app.js"
              emptyState) as (Hbranch & Hlater & _).
  destruct (Hbranch "/@lib/" eq_refl eq_refl) as [_ Hacross].
  destruct (resolveRelativeRequest_across_alias Examples.projEnv
              Examples.libAlias Js.matchQuery keys "/@lib/index.tsx" "./util?x"
              emptyState) as (Hbranch' & _).
  destruct (Hbranch' "/@lib/" eq_refl eq_refl) as [Hinside _].
  pose proof (Hacross eq_refl "/proj/src/lib/index.tsx" st1 "/src/app.js" st2
                eq_refl eq_refl) as Hrun.
  split; [reflexivity|]. split; [reflexivity|]. split; [exact Hrun|].
  split; [exact (Hinside eq_refl)|].
  exact (Hlater _ _ Hrun).
Defined.

Lemma length_list_ascii_of_string (s : string) :
  length (String.list_ascii_of_string s) = String.length s.
Proof. induction s as [|a s IH]; [reflexivity|]. cbn. now rewrite IH. Qed.

Lemma dirnameScan_bound (l : list ascii) (matchedSlash : bool) (k0 k : nat) :
  Path.dirnameScan l matchedSlash k0 = Some k -> k0 <= k < k0 + length l.
Proof.
  revert matchedSlash k0. induction l as [|c l IH]; intros m k0; cbn; [discriminate|].
  destruct (Ascii.eqb c Path.sep).
  - destruct m.
    + intros H%IH. lia.
    + intros [= <-]. lia.
  - intros H%IH. lia.
Qed.

Lemma dirname_isAbsolute (path : string) :
  Path.isAbsolute path = true -> Path.isAbsolute (Path.dirname path) = true.
Proof.
  destruct path as [|c0 tail]; [discriminate|].
  unfold Path.isAbsolute at 1. cbn [Js.head_is]. intros Hroot.
  unfold Path.dirname. rewrite Hroot.
  destruct (Path.dirnameScan _ true 0) as [k|] eqn:Hscan; [|reflexivity].
  apply dirnameScan_bound in Hscan.
  rewrite length_rev, length_list_ascii_of_string in Hscan.
  cbn [String.length andb].
  destruct (S (String.length tail) - 1 - k) as [|n] eqn:Hend; [lia|].
  destruct (S n =? 1)%nat; [reflexivity|]. cbn [Path.take].
  unfold Path.isAbsolute. cbn [Js.head_is]. exact Hroot.
Qed.

Lemma resolve_relative_isAbsolute (cwd dir importee : string) :
  Path.isAbsolute dir = true ->
  Path.isAbsolute (Path.resolve cwd [dir; importee]) = true.
Proof.
  intros Hdir. unfold Path.resolve. cbn [rev app Path.resolveLoop].
  assert (Hne : String.eqb dir "" = false) by now destruct dir.
  destruct (String.eqb importee "").
  - rewrite Hne, Hdir. reflexivity.
  - destruct (Path.isAbsolute importee); [reflexivity|].
    rewrite Hne, Hdir. reflexivity.
Qed.

Lemma find_none_Forall {A} (f : A -> bool) (l : list A) :
  Forall (fun x => f x = false) l -> List.find f l = None.
Proof.
  induction 1 as [|x l Hx _ IH]; [reflexivity|]. cbn. now rewrite Hx.
Qed.

(** X19.  [resolveRelativeRequest] asks the resolver nothing and leaves the
    state alone unless the importee starts with ["."] and the importer is
    under a directory alias.  An importee that does not start with ["."] comes
    back as it is, without its query and hash.  An importee that starts with
    ["."], for an importer that starts with ["/"] and is under no directory
    alias, gives a pathname that starts with ["/"]. *)
Theorem resolveRelativeRequest_without_alias (env : Env) (r : Internal)
    (queryRE : string -> option string) (keys : list string)
    (importer importee : string) (st : State) :
  (Js.startsWith importee "." = false ->
   resolveRelativeRequest env r queryRE keys importer importee st
   = (Ok (cleanUrl importee, default "" (queryRE importee)), st))
  /\ (Js.startsWith importee "." = true ->
      Forall (fun alias => Js.startsWith importer alias = false) keys ->
      Path.isAbsolute importer = true ->
      exists pathname,
        resolveRelativeRequest env r queryRE keys importer importee st
        = (Ok (pathname, default "" (queryRE importee)), st)
        /\ Path.isAbsolute pathname = true).
Proof.
  unfold resolveRelativeRequest, resolveRelative. cbv zeta. split.
  - intros ->. unfold bind, ret.
    destruct (Js.endsWith importee "/"); cbn [andb negb]; now rewrite append_nil_r.
  - intros -> Hkeys Habs. rewrite (find_none_Forall (fun alias => Js.startsWith importer alias) keys Hkeys).
    unfold bind, ret. eexists. split; [reflexivity|].
    pose proof (resolve_relative_isAbsolute (cwd env) (Path.dirname importer)
                  importee (dirname_isAbsolute _ Habs)) as Hresolved.
    destruct (Path.resolve (cwd env) [Path.dirname importer; importee])
      as [|c resolved]; [discriminate|].
    unfold Path.isAbsolute in *. cbn [Js.head_is] in Hresolved.
    apply Ascii.eqb_eq in Hresolved as ->.
    change (cleanUrl (String Path.sep resolved))
      with (String Path.sep (cleanUrl resolved)).
    now rewrite append_cons.
Qed.

Lemma resolveRelativeRequest_without_alias_witness :
  resolveRelativeRequest Examples.projEnv Examples.proj Js.matchQuery ["/@foo/"]
    "/src/app.js" "vue?x" emptyState
  = (Ok ("vue", "?x"), emptyState)
  /\ exists pathname,
       resolveRelativeRequest Examples.projEnv Examples.proj Js.matchQuery
         ["/@foo/"] "/src/app.js" "./lib/" emptyState
       = (Ok (pathname, ""), emptyState)
       /\ Path.isAbsolute pathname = true.
Proof.
  split.
  - apply (proj1 (resolveRelativeRequest_without_alias Examples.projEnv
                    Examples.proj Js.matchQuery ["/@foo/"] "/src/app.js" "vue?x"
                    emptyState)).
    reflexivity.
  - apply (proj2 (resolveRelativeRequest_without_alias Examples.projEnv
                    Examples.proj Js.matchQuery ["/@foo/"] "/src/app.js" "./lib/"
                    emptyState)).
    + reflexivity.
    + repeat constructor.
    + reflexivity.
Defined.

(** ** Configuration: plugins and aliases *)

Lemma get_app (k : string) (a b : Obj.t) :
  Obj.get k (a ++ b)
  = match Obj.get k a with Some v => Some v | None => Obj.get k b end.
Proof.
  unfold Obj.get. induction a as [|[k' v'] a IH]; [reflexivity|]. cbn.
  now destruct (String.eqb k k').
Qed.

Lemma get_set (k k' v : string) (o : Obj.t) :
  Obj.get k (Obj.set o k' v) = if String.eqb k k' then Some v else Obj.get k o.
Proof.
  unfold Obj.get. induction o as [|[k1 v1] o IH]; [reflexivity|]. cbn.
  destruct (String.eqb k1 k') eqn:H1; cbn.
  - apply string_eqb_true in H1 as ->. now destruct (String.eqb k k').
  - rewrite IH. destruct (String.eqb k k') eqn:Hk; [|reflexivity].
    apply string_eqb_true in Hk as ->.
    rewrite String.eqb_sym in H1. now rewrite H1.
Qed.

Lemma get_None (k : string) (o : Obj.t) : k ∉ o.*1 -> Obj.get k o = None.
Proof.
  unfold Obj.get. induction o as [|[k' v'] o IH]; [reflexivity|]. cbn.
  intros Hnot. apply not_elem_of_cons in Hnot as [Hne Hnot].
  apply string_eqb_false in Hne. now rewrite Hne, IH.
Qed.

Lemma get_Some_elem (k v : string) (o : Obj.t) :
  Obj.get k o = Some v -> (k, v) ∈ o.
Proof.
  unfold Obj.get. induction o as [|[k' v'] o IH]; [discriminate|]. cbn.
  destruct (String.eqb k k') eqn:Hk.
  - apply string_eqb_true in Hk as ->. intros [= ->]. now left.
  - intros H. right. now apply IH.
Qed.

Lemma keys_set (o : Obj.t) (k v : string) :
  (Obj.set o k v).*1 = assignKey o.*1 k.
Proof.
  unfold assignKey. induction o as [|[k1 v1] o IH]; [reflexivity|]. cbn.
  destruct (String.eqb k1 k) eqn:H1.
  - apply string_eqb_true in H1 as ->. cbn.
    rewrite bool_decide_eq_true_2; [reflexivity | now left].
  - apply string_eqb_false in H1. cbn. rewrite IH.
    destruct (bool_decide (k ∈ o.*1)) eqn:Hin.
    + apply bool_decide_eq_true in Hin.
      rewrite bool_decide_eq_true_2; [reflexivity | now right].
    + apply bool_decide_eq_false in Hin.
      rewrite bool_decide_eq_false_2; [reflexivity|].
      intros [Heq | H]%elem_of_cons; [congruence | contradiction].
Qed.

Lemma NoDup_assign (target source : Obj.t) :
  NoDup target.*1 -> NoDup (Obj.assign target source).*1.
Proof.
  unfold Obj.assign. revert target.
  induction source as [|[k v] source IH]; intros target Htarget; [exact Htarget|].
  cbn. apply IH. rewrite keys_set. now apply NoDup_assignKey.
Qed.

Lemma get_assign (k : string) (target source : Obj.t) :
  NoDup source.*1 ->
  Obj.get k (Obj.assign target source)
  = match Obj.get k source with Some v => Some v | None => Obj.get k target end.
Proof.
  unfold Obj.assign. revert target.
  induction source as [|[k1 v1] source IH]; intros target Hnodup; [reflexivity|].
  cbn in *. apply NoDup_cons in Hnodup as [Hnot Hnodup].
  rewrite IH by exact Hnodup. rewrite get_set.
  change (Obj.get k ((k1, v1) :: source))
    with (if String.eqb k k1 then Some v1 else Obj.get k source).
  destruct (String.eqb k k1) eqn:Hk; [|reflexivity].
  apply string_eqb_true in Hk as ->. now rewrite get_None.
Qed.

Lemma get_spread (k : string) (a b : option Obj.t) :
  NoDup (default [] a).*1 -> NoDup (default [] b).*1 ->
  Obj.get k (Obj.spread a b) = Obj.get k (default [] b ++ default [] a)
  /\ NoDup (Obj.spread a b).*1.
Proof.
  intros Ha Hb. unfold Obj.spread. split.
  - rewrite !get_assign, get_app by assumption.
    destruct (Obj.get k (default [] b)); [reflexivity|].
    now destruct (Obj.get k (default [] a)).
  - apply NoDup_assign, NoDup_assign. constructor.
Qed.

(** What the plugin loop leaves in [alias] and [resolvers]. *)
Lemma resolvePlugin_fold (ps : list Config.t) (config : Config.t) :
  NoDup (Config.aliasOrEmpty config).*1 ->
  Forall (fun p => NoDup (Config.aliasOrEmpty p).*1) ps ->
  let resolved := fold_left Config.resolvePlugin ps config in
  (forall k,
      Obj.get k (Config.aliasOrEmpty resolved)
      = Obj.get k (Config.aliasOrEmpty config ++ flat_map Config.aliasOrEmpty ps))
  /\ NoDup (Config.aliasOrEmpty resolved).*1
  /\ Config.resolversOrEmpty resolved
     = Config.resolversOrEmpty config ++ flat_map Config.resolversOrEmpty ps.
Proof.
  unfold Config.aliasOrEmpty, Config.resolversOrEmpty.
  revert config. induction ps as [|p ps IH]; intros config Hconfig Hps; cbn zeta.
  - cbn. rewrite !app_nil_r. auto.
  - apply Forall_cons in Hps as [Hp Hps]. cbn [fold_left].
    destruct (get_spread "" (Config.valueOf (Config.alias p))
                (Config.valueOf (Config.alias config)) Hp Hconfig)
      as [_ Hnodup].
    destruct (IH (Config.resolvePlugin config p) Hnodup Hps)
      as (Hget & Hnd & Hres).
    split; [|split; [exact Hnd|]].
    + intros k. rewrite Hget. cbn [flat_map]. rewrite !get_app.
      change (default [] (Config.valueOf (Config.alias (Config.resolvePlugin config p))))
        with (Obj.spread (Config.valueOf (Config.alias p))
                (Config.valueOf (Config.alias config))).
      rewrite (proj1 (get_spread k _ _ Hp Hconfig)), get_app.
      now destruct (Obj.get k (default [] (Config.valueOf (Config.alias config)))).
    + rewrite Hres. cbn. now rewrite app_assoc.
Qed.

(** A key that [resolvePlugin] takes from the spread: after the loop it is
    the one of the last plugin that has it, or else the configuration's. *)
Lemma spreadKey_fold {A} (key : Config.t -> Config.Key A)
    (ps : list Config.t) (config : Config.t) :
  (forall c p, key (Config.resolvePlugin c p)
               = Config.spreadKey (key c) (key p)) ->
  (Forall (fun p => key p = Config.Absent) ps ->
   key (fold_left Config.resolvePlugin ps config) = key config)
  /\ (forall pre p post value,
        ps = pre ++ p :: post ->
        key p = Config.Present value ->
        Forall (fun q => key q = Config.Absent) post ->
        key (fold_left Config.resolvePlugin ps config) = Config.Present value).
Proof.
  intros Hkey.
  assert (Hnone : forall qs c, Forall (fun p => key p = Config.Absent) qs ->
                    key (fold_left Config.resolvePlugin qs c) = key c).
  { induction qs as [|q qs IH]; intros c Hqs; [reflexivity|].
    apply Forall_cons in Hqs as [Hq Hqs]. cbn [fold_left].
    now rewrite IH, Hkey, Hq by exact Hqs. }
  split; [apply Hnone|].
  intros pre p post value -> Hp Hpost.
  rewrite fold_left_app. cbn [fold_left].
  now rewrite Hnone, Hkey, Hp by exact Hpost.
Qed.

(** X20.  After the plugin loop of [resolveConfig], a key of [alias] has the
    value the configuration gave it, or else the value of the first plugin,
    in the order of [plugins], that has the key, and [resolvers] holds the
    configuration's resolvers followed by those of the plugins in that
    order.  For the root it is the other way round: a plugin object that
    carries a [root] key replaces the configuration's, the last such plugin
    wins, and the root is the configuration's only when no plugin has
    the key. *)
Theorem resolvePlugins_precedence (config : Config.t) (ps : list Config.t) :
  Config.valueOf (Config.plugins config) = Some ps ->
  NoDup (Config.aliasOrEmpty config).*1 ->
  Forall (fun p => NoDup (Config.aliasOrEmpty p).*1) ps ->
  let resolved := Config.resolvePlugins config in
  (forall k,
      Obj.get k (Config.aliasOrEmpty resolved)
      = match Obj.get k (Config.aliasOrEmpty config) with
        | Some target => Some target
        | None => Obj.get k (flat_map Config.aliasOrEmpty ps)
        end)
  /\ Config.resolversOrEmpty resolved
     = Config.resolversOrEmpty config ++ flat_map Config.resolversOrEmpty ps
  /\ (Forall (fun p => Config.root p = Config.Absent) ps ->
      Config.root resolved = Config.root config)
  /\ (forall pre p post value,
        ps = pre ++ p :: post ->
        Config.root p = Config.Present value ->
        Forall (fun q => Config.root q = Config.Absent) post ->
        Config.root resolved = Config.Present value).
Proof.
  intros Hplugins Hconfig Hps. unfold Config.resolvePlugins. rewrite Hplugins.
  destruct (resolvePlugin_fold ps config Hconfig Hps) as (Hget & _ & Hres).
  destruct (spreadKey_fold Config.root ps config (fun c p => eq_refl))
    as [Hkeep Hlast].
  split; [|split; [exact Hres | split; [exact Hkeep | exact Hlast]]].
  intros k. now rewrite Hget, get_app.
Qed.

Lemma resolvePlugins_precedence_witness :
  let resolved := Config.resolvePlugins ConfigExamples.rooted in
  Obj.get "react" (Config.aliasOrEmpty resolved) = Some "@pika/react"
  /\ Obj.get "vue" (Config.aliasOrEmpty resolved) = Some "vue-first"
  /\ Config.resolversOrEmpty resolved
     = [Examples.pluginResolver "resolver-react";
        Examples.pluginResolver "resolver-react"]
  /\ Config.root ConfigExamples.rooted = Config.Present (Some ".")
  /\ Config.root resolved = Config.Present (Some "packages/app").
Proof.
  intros resolved.
  destruct (resolvePlugins_precedence ConfigExamples.rooted
              [ConfigExamples.reactPlugin "first"; ConfigExamples.rootPlugin;
               ConfigExamples.reactPlugin "second"] eq_refl)
    as (Hget & Hres & _ & Hroot).
  - cbn. compute_done.
  - repeat constructor; cbn; compute_done.
  - split; [exact (Hget "react")|]. split; [exact (Hget "vue")|].
    split; [exact Hres|]. split; [reflexivity|].
    apply (Hroot [ConfigExamples.reactPlugin "first"] ConfigExamples.rootPlugin
             [ConfigExamples.reactPlugin "second"]);
      [reflexivity | reflexivity | repeat constructor].
Defined.

(** X21.  From the configuration file to [alias]: in the resolver that
    [createServer] makes from a configuration resolved with its plugins, a
    literal alias with a non-empty target, for an id other than [__proto__],
    is answered with the configuration's target, or else the target of the
    first plugin that has the key, whatever the alias maps of the resolvers
    hold. *)
Theorem configured_alias_precedence (env : Env) (config : Config.t)
    (ps : list Config.t) (r : Internal) (id target : string) :
  Config.valueOf (Config.plugins config) = Some ps ->
  NoDup (Config.aliasOrEmpty config).*1 ->
  Forall (fun p => NoDup (Config.aliasOrEmpty p).*1) ps ->
  Config.serverResolver env (Config.resolvePlugins config) = Ok r ->
  Obj.get id (Config.aliasOrEmpty config ++ flat_map Config.aliasOrEmpty ps)
  = Some target ->
  Spec.isDirectoryAlias (id, target) = false ->
  id <> "__proto__" ->
  target <> "" ->
  alias r id = Ok (Some (Target target)).
Proof.
  intros Hplugins Hconfig Hps Hcreate Hget Hliteral Hproto Htarget.
  unfold Config.resolvePlugins in Hcreate. rewrite Hplugins in Hcreate.
  destruct (resolvePlugin_fold ps config Hconfig Hps) as (Hmerged & Hnodup & _).
  rewrite <- Hmerged in Hget. apply get_Some_elem in Hget.
  unfold Config.serverResolver, createResolver in Hcreate.
  destruct (resolveResolverAliases env _ _) as [r1|e]; [|discriminate].
  unfold alias, getProperty.
  rewrite (resolveAlias_literal env r1 _ r id target Hcreate Hnodup Hget Hliteral
             Hproto).
  apply string_eqb_false in Hproto. rewrite Hproto.
  cbn. apply truthy_true in Htarget. now rewrite Htarget.
Qed.

Lemma configured_alias_precedence_witness :
  let r := Examples.orEmpty
             (Config.serverResolver Examples.projEnv
                (Config.resolvePlugins ConfigExamples.config)) in
  alias r "react" = Ok (Some (Target "@pika/react"))
  /\ alias r "vue" = Ok (Some (Target "vue-first")).
Proof.
  intros r.
  assert (Hconfig : NoDup (Config.aliasOrEmpty ConfigExamples.config).*1)
    by (cbn; compute_done).
  assert (Hps : Forall (fun p => NoDup (Config.aliasOrEmpty p).*1)
                  [ConfigExamples.reactPlugin "first";
                   ConfigExamples.reactPlugin "second"])
    by (repeat constructor; cbn; compute_done).
  split.
  - apply (configured_alias_precedence Examples.projEnv ConfigExamples.config
             _ r "react" "@pika/react" eq_refl Hconfig Hps eq_refl eq_refl eq_refl);
      discriminate.
  - apply (configured_alias_precedence Examples.projEnv ConfigExamples.config
             _ r "vue" "vue-first" eq_refl Hconfig Hps eq_refl eq_refl eq_refl);
      discriminate.
Defined.

(** ** Configuration: environment files *)

Section LoadEnvProperties.

Variable host : Env.
Variable dotenvConfig :
  string -> gmap string string -> Res (Obj.t * gmap string string).

Lemma prefixedOnly_exposeKey (parsed : Obj.t) (s : Config.EnvState) :
  prefixedOnly s -> prefixedOnly (fold_left Config.exposeKey parsed s).
Proof.
  revert s. induction parsed as [|[key value] parsed IH]; intros s Hs; [exact Hs|].
  cbn [fold_left]. apply IH. intros k. cbn.
  destruct (Js.startsWith key Config.envPrefix) eqn:Hkey; [|apply Hs].
  rewrite lookup_insert_is_Some'. intros [<- | H]; [exact Hkey | now apply Hs].
Qed.

Lemma prefixedOnly_loadEnvFiles (files : list string) (root : string)
    (s s' : Config.EnvState) :
  prefixedOnly s ->
  Config.loadEnvFiles host dotenvConfig files root s = Ok s' ->
  prefixedOnly s'.
Proof.
  revert s. induction files as [|file files IH]; intros s Hs; cbn.
  - now intros [= <-].
  - destruct (lookupFile host root file) as [path|]; [|now apply IH].
    destruct (Js.truthy path); [|now apply IH].
    destruct (dotenvConfig path (Config.nodeEnv s)) as [[parsed nodeEnv']|];
      [|discriminate].
    apply IH. now apply prefixedOnly_exposeKey.
Qed.

Lemma prefixedOnly_loadEnv (mode root : string) (processEnv : gmap string string)
    (s : Config.EnvState) :
  Config.loadEnv host dotenvConfig mode root processEnv = Ok s -> prefixedOnly s.
Proof.
  unfold Config.loadEnv. destruct (String.eqb mode "local"); [discriminate|].
  apply prefixedOnly_loadEnvFiles. intros key. cbn. rewrite lookup_empty.
  now intros [x Hx].
Qed.

End LoadEnvProperties.

(** X22.  [loadEnv] refuses the mode ["local"] before it looks at any file.
    For another mode, every key of the object it returns starts with
    [TOYSERVER_], whatever the files hold; and when none of the four files
    [.env.<mode>.local], [.env.<mode>], [.env.local], [.env] is found at or
    above the root, the object is empty and [process.env] is as before. *)
Theorem loadEnv_exposes_prefixed_keys_only (host : Env)
    (dotenvConfig : string -> gmap string string
                    -> Res (Obj.t * gmap string string))
    (mode root : string) (processEnv : gmap string string) :
  (mode = "local" ->
   Config.loadEnv host dotenvConfig mode root processEnv
   = Throw Config.localModeMessage)
  /\ (forall s,
        Config.loadEnv host dotenvConfig mode root processEnv = Ok s ->
        forall key, is_Some (Config.clientEnv s !! key) ->
                    Js.startsWith key "TOYSERVER_" = true)
  /\ (mode <> "local" ->
      Forall (fun file => lookupFile host root file = None)
        [".env." +:+ mode +:+ ".local"; ".env." +:+ mode; ".env.local"; ".env"] ->
      Config.loadEnv host dotenvConfig mode root processEnv
      = Ok {| Config.nodeEnv := processEnv; Config.clientEnv := ∅ |}).
Proof.
  split; [|split].
  - now intros ->.
  - intros s Hrun. exact (prefixedOnly_loadEnv host dotenvConfig _ _ _ _ Hrun).
  - intros Hmode Hfiles. unfold Config.loadEnv.
    apply string_eqb_false in Hmode. rewrite Hmode.
    unfold Config.envFiles. generalize dependent (Config.Build_EnvState processEnv ∅).
    revert Hfiles. generalize [".env." +:+ mode +:+ ".local"; ".env." +:+ mode;
                               ".env.local"; ".env"].
    intros files Hfiles s. induction Hfiles as [|file files Hfile _ IH];
      [reflexivity|].
    cbn. now rewrite Hfile.
Qed.

Lemma loadEnv_exposes_prefixed_keys_only_witness :
  let run := Config.loadEnv ConfigExamples.host ConfigExamples.dotenvConfig
               "development" "/proj" ∅ in
  Config.loadEnv ConfigExamples.host ConfigExamples.dotenvConfig "local" "/proj" ∅
  = Throw Config.localModeMessage
  /\ (exists s, run = Ok s
        /\ Config.clientEnv s !! "TOYSERVER_API" = Some "/api"
        /\ Config.nodeEnv s !! "USER" = Some "nobody"
        /\ forall key, is_Some (Config.clientEnv s !! key) ->
                       Js.startsWith key "TOYSERVER_" = true).
Proof.
  intros run.
  destruct (loadEnv_exposes_prefixed_keys_only ConfigExamples.host
              ConfigExamples.dotenvConfig "local" "/proj" ∅) as [Hlocal _].
  destruct (loadEnv_exposes_prefixed_keys_only ConfigExamples.host
              ConfigExamples.dotenvConfig "development" "/proj" ∅)
    as (_ & Hkeys & _).
  split; [now apply Hlocal|].
  eexists. split; [reflexivity|]. split; [reflexivity|]. split; [reflexivity|].
  now apply Hkeys.
Defined.

(** X23.  For a configuration file at an absolute path, the configuration
    that [resolveConfig] returns names the file in [__path].  When no plugin
    object carries a [root] key its root is empty, missing or absolute; a
    plugin that carries one replaces the normalized root with its own value
    as it is, the last such plugin winning.  In the same way [env] starts
    from the [env] of the last plugin that carries that key, or else the
    file's own, and keeps every entry of it whose key does not start with
    [TOYSERVER_]: the environment files override only keys with the
    prefix. *)
Theorem resolveLoaded_root_and_env (host : Env)
    (dotenvConfig : string -> gmap string string
                    -> Res (Obj.t * gmap string string))
    (mode resolvedPath : string) (config resolved : Config.t)
    (processEnv processEnv' : gmap string string) :
  Path.isAbsolute resolvedPath = true ->
  Config.resolveLoaded host dotenvConfig mode resolvedPath (Some config) processEnv
  = Ok (resolved, processEnv') ->
  let ps := default [] (Config.valueOf (Config.plugins config)) in
  Config.__path resolved = Config.Present (Some resolvedPath)
  /\ (Forall (fun p => Config.root p = Config.Absent) ps ->
      forall dir, Config.valueOf (Config.root resolved) = Some dir ->
                  dir <> "" -> Path.isAbsolute dir = true)
  /\ (forall pre p post value,
        ps = pre ++ p :: post ->
        Config.root p = Config.Present value ->
        Forall (fun q => Config.root q = Config.Absent) post ->
        Config.root resolved = Config.Present value)
  /\ (Forall (fun p => Config.env p = Config.Absent) ps ->
      forall key, Js.startsWith key "TOYSERVER_" = false ->
        default ∅ (Config.valueOf (Config.env resolved)) !! key
        = default ∅ (Config.valueOf (Config.env config)) !! key)
  /\ (forall pre p post value,
        ps = pre ++ p :: post ->
        Config.env p = Config.Present value ->
        Forall (fun q => Config.env q = Config.Absent) post ->
        forall key, Js.startsWith key "TOYSERVER_" = false ->
          default ∅ (Config.valueOf (Config.env resolved)) !! key
          = default ∅ value !! key).
Proof.
  intros Habs. unfold Config.resolveLoaded. cbv zeta.
  set (config1 := Config.Build_t _ _ _ _ _ _ _ _).
  destruct (Config.loadEnv _ _ _ _ _) as [s|] eqn:Hload; [|discriminate].
  intros [= <- <-]. set (ps := default [] (Config.valueOf (Config.plugins config))).
  cbn [Config.root Config.__path Config.env].
  assert (Hloaded : forall key, Js.startsWith key "TOYSERVER_" = false ->
            forall base : gmap string string,
              (Config.clientEnv s ∪ base) !! key = base !! key).
  { intros key Hkey base. apply lookup_union_r.
    destruct (Config.clientEnv s !! key) as [value|] eqn:Hget; [|reflexivity].
    pose proof (prefixedOnly_loadEnv host dotenvConfig _ _ _ _ Hload key
                  (mk_is_Some _ _ Hget)) as Hprefixed.
    unfold Config.envPrefix in Hprefixed. congruence. }
  assert (Hfold : forall A (key : Config.t -> Config.Key A),
            (forall c p, key (Config.resolvePlugin c p)
                         = Config.spreadKey (key c) (key p)) ->
            (Forall (fun p => key p = Config.Absent) ps ->
             key (Config.resolvePlugins config1) = key config1)
            /\ (forall pre p post value,
                  ps = pre ++ p :: post ->
                  key p = Config.Present value ->
                  Forall (fun q => key q = Config.Absent) post ->
                  key (Config.resolvePlugins config1) = Config.Present value)).
  { intros A key Hkey. unfold Config.resolvePlugins, ps, config1.
    cbn [Config.plugins].
    destruct (Config.valueOf (Config.plugins config)) as [qs|]; cbn [default].
    - apply spreadKey_fold, Hkey.
    - split; [reflexivity|]. intros pre p post value Hnil. now destruct pre. }
  destruct (Hfold _ Config.root (fun c p => eq_refl)) as [Hroot Hroot'].
  destruct (Hfold _ Config.env (fun c p => eq_refl)) as [Henv Henv'].
  split; [reflexivity|]. split; [|split; [exact Hroot'|split]].
  - intros Hnone dir. rewrite (Hroot Hnone). unfold config1. cbn [Config.root].
    destruct (Config.valueOf (Config.root config)) as [dir0|] eqn:Hdir0.
    + destruct (Js.truthy dir0 && negb (Path.isAbsolute dir0)) eqn:Htest.
      * intros [= <-] _. apply resolve_relative_isAbsolute.
        now apply dirname_isAbsolute.
      * rewrite Hdir0. intros [= <-] Hdir. apply truthy_true in Hdir.
        rewrite Hdir in Htest. cbn in Htest. now apply negb_false_iff in Htest.
    + now rewrite Hdir0.
  - intros Hnone key Hkey. unfold Config.valueOf at 1. cbn [from_option id].
    rewrite (Hloaded key Hkey), (Henv Hnone). reflexivity.
  - intros pre p post value Hps Hp Hpost key Hkey.
    unfold Config.valueOf at 1. cbn [from_option id].
    rewrite (Hloaded key Hkey), (Henv' pre p post value Hps Hp Hpost). reflexivity.
Qed.

Lemma resolveLoaded_root_and_env_witness :
  (exists resolved processEnv',
      Config.resolveLoaded ConfigExamples.host ConfigExamples.dotenvConfig
        "development" "/proj/toyserver.config.js" (Some ConfigExamples.config) ∅
      = Ok (resolved, processEnv')
      /\ Config.root resolved = Config.Present (Some "/proj")
      /\ Path.isAbsolute "/proj" = true
      /\ Config.__path resolved = Config.Present (Some "/proj/toyserver.config.js")
      /\ default ∅ (Config.valueOf (Config.env resolved)) !! "USER" = Some "root"
      /\ default ∅ (Config.valueOf (Config.env resolved)) !! "TOYSERVER_API"
         = Some "/api")
  /\ (exists resolved processEnv',
        Config.resolveLoaded ConfigExamples.host ConfigExamples.dotenvConfig
          "development" "/proj/toyserver.config.js" (Some ConfigExamples.rooted) ∅
        = Ok (resolved, processEnv')
        /\ Config.root resolved = Config.Present (Some "packages/app")
        /\ default ∅ (Config.valueOf (Config.env resolved)) !! "USER"
           = Some "plugin").
Proof.
  split.
  - eexists _, _. split; [reflexivity|].
    match goal with
    | |- Config.root ?resolved = _ /\ _ =>
        destruct (resolveLoaded_root_and_env ConfigExamples.host
                    ConfigExamples.dotenvConfig "development"
                    "/proj/toyserver.config.js" ConfigExamples.config resolved ∅ _
                    eq_refl eq_refl) as (Hpath & Hroot & _ & Henv & _)
    end.
    split; [reflexivity|].
    split; [apply (Hroot ltac:(repeat constructor) "/proj");
            [reflexivity | discriminate]|].
    split; [exact Hpath|]. split; [|reflexivity].
    now rewrite (Henv ltac:(repeat constructor) "USER" eq_refl).
  - eexists _, _. split; [reflexivity|].
    match goal with
    | |- Config.root ?resolved = _ /\ _ =>
        destruct (resolveLoaded_root_and_env ConfigExamples.host
                    ConfigExamples.dotenvConfig "development"
                    "/proj/toyserver.config.js" ConfigExamples.rooted resolved ∅ _
                    eq_refl eq_refl) as (_ & _ & Hroot & _ & Henv)
    end.
    split.
    + apply (Hroot [ConfigExamples.reactPlugin "first"] ConfigExamples.rootPlugin
               [ConfigExamples.reactPlugin "second"]);
        [reflexivity | reflexivity | repeat constructor].
    + rewrite (Henv [ConfigExamples.reactPlugin "first"] ConfigExamples.rootPlugin
                 [ConfigExamples.reactPlugin "second"] _ eq_refl eq_refl
                 ltac:(repeat constructor) "USER" eq_refl).
      reflexivity.
Defined.

(** ** The https options *)

(** X24.  After [resolveHttpsConfig], with a generated certificate that is
    not empty, [key] and [cert] are both set: either both are what the
    options named, read from disk where a readable file was named, or both
    are the generated certificate.  The second happens as soon as one of the
    two is missing, so a certificate given without a key is dropped; [ca] and
    [pfx] are only read. *)
Theorem resolveHttpsConfig_key_and_cert (cwd : string)
    (readFileSync : string -> option string) (createCertificate : Https.Value)
    (httpsOption : Https.ServerOptions) :
  Https.truthy createCertificate = true ->
  let read := Https.readFileIfExists cwd readFileSync in
  let resolved :=
    Https.resolveHttpsConfig cwd readFileSync createCertificate httpsOption in
  Https.truthy (Https.key resolved) = true
  /\ Https.truthy (Https.cert resolved) = true
  /\ (if Https.truthy (Https.key httpsOption)
         && Https.truthy (Https.cert httpsOption)
      then Https.key resolved = read (Https.key httpsOption)
           /\ Https.cert resolved = read (Https.cert httpsOption)
      else Https.key resolved = createCertificate
           /\ Https.cert resolved = createCertificate)
  /\ Https.ca resolved = read (Https.ca httpsOption)
  /\ Https.pfx resolved = read (Https.pfx httpsOption).
Proof.
  intros Hgenerated read resolved.
  assert (Hread : forall v, Https.truthy (read v) = Https.truthy v).
  { intros v. unfold read, Https.readFileIfExists.
    destruct (Https.truthy v) eqn:Hv; [|exact Hv].
    destruct v as [|s|bytes|b]; try exact Hv.
    now destruct (readFileSync _). }
  unfold resolved, Https.resolveHttpsConfig. cbv zeta.
  cbn [Https.key Https.cert]. fold read. rewrite !Hread.
  destruct (Https.truthy (Https.key httpsOption)) eqn:Hkey;
    destruct (Https.truthy (Https.cert httpsOption)) eqn:Hcert;
    cbn [negb orb andb Https.key Https.cert Https.ca Https.pfx];
    rewrite ?Hread, ?Hkey, ?Hcert, ?Hgenerated; auto.
Qed.

Lemma resolveHttpsConfig_key_and_cert_witness :
  let named := {| Https.ca := Https.Undefined;
                  Https.cert := Https.Text "./cert/server.crt";
                  Https.key := Https.Text "./cert/server.pem";
                  Https.pfx := Https.Undefined |} in
  let lone := {| Https.ca := Https.Undefined;
                 Https.cert := Https.Text "./cert/server.crt";
                 Https.key := Https.Undefined;
                 Https.pfx := Https.Undefined |} in
  let resolve := Https.resolveHttpsConfig "/proj" Https.disk (Https.Text "GENERATED") in
  Https.key (resolve named) = Https.Buffer "KEY"
  /\ Https.cert (resolve named) = Https.Buffer "CERT"
  /\ Https.key (resolve lone) = Https.Text "GENERATED"
  /\ Https.cert (resolve lone) = Https.Text "GENERATED".
Proof.
  intros named lone resolve.
  destruct (resolveHttpsConfig_key_and_cert "/proj" Https.disk
              (Https.Text "GENERATED") named eq_refl) as (_ & _ & [Hk Hc] & _).
  destruct (resolveHttpsConfig_key_and_cert "/proj" Https.disk
              (Https.Text "GENERATED") lone eq_refl) as (_ & _ & [Hk' Hc'] & _).
  split; [exact Hk|]. split; [exact Hc|]. split; [exact Hk' | exact Hc'].
Defined.

(** ** What [normalizePublicPath] returns *)

(** X25.  For a request outside the module prefix, without ["?"] or ["#"],
    [normalizePublicPath] returns what file->request says about the file the
    request resolves to, as soon as that answer resolves back to the same
    file; the state is the one these three calls leave. *)
Theorem normalizePublicPath_returns_round_trip (env : Env) (r : Internal)
    (fuel : nat) (publicPath file request : string) (st st1 st2 st3 : State) :
  String.eqb publicPath (clientPublicPath env) = false ->
  cleanUrl publicPath = publicPath ->
  moduleRE_test publicPath = false ->
  requestToFile env r publicPath st = (Ok file, st1) ->
  fileToRequest env r file st1 = (Ok request, st2) ->
  requestToFile env r request st2 = (Ok file, st3) ->
  normalizePublicPath env r fuel publicPath st = Some (Ok request, st3).
Proof.
  intros Hclient Hclean Hmod Hfile Hrequest Hback.
  rewrite normalizePublicPath_plain by assumption.
  unfold bind at 1 2. rewrite Hfile, Hrequest.
  rewrite finalize_unfold, append_nil_r, Hback.
  assert (Hlater : later env r st1 st3).
  { eapply later_trans.
    - eapply fileToRequest_later, Hrequest.
    - eapply requestToFile_later, Hback. }
  rewrite (requestToFile_stable env r publicPath st file st1 st3 Hfile Hlater).
  now rewrite String.eqb_refl.
Qed.

Lemma normalizePublicPath_returns_round_trip_witness :
  let env := Examples.projEnv in
  let r := Examples.plain in
  let st1 := snd (requestToFile env r "/src/lib" emptyState) in
  let st2 := snd (fileToRequest env r "/proj/src/lib/index.tsx" st1) in
  let st3 := snd (requestToFile env r "/src/lib/index.tsx" st2) in
  normalizePublicPath env r 0 "/src/lib" emptyState
  = Some (Ok "/src/lib/index.tsx", st3).
Proof.
  intros env r st1 st2 st3.
  apply (normalizePublicPath_returns_round_trip env r 0 "/src/lib"
           "/proj/src/lib/index.tsx" "/src/lib/index.tsx" emptyState st1 st2 st3);
    reflexivity.
Defined.

(** * Directory aliases and the round trip *)

(** ** What [createResolver] registers *)

Lemma resolveAliasEntry_registers (env : Env) (r : Internal)
    (entry : string * string) :
  resolveAliasEntry env r entry
  = Ok {| root := root r;
          resolvers := resolvers r ++ Spec.entryOf env (root r) entry;
          literalAlias := Spec.registerLiteral (literalAlias r) entry;
          literalDirAlias :=
            Spec.registerDirAlias env (root r) (literalDirAlias r) entry |}.
Proof.
  destruct entry as [key target].
  unfold resolveAliasEntry, Spec.entryOf, Spec.registerLiteral,
    Spec.registerDirAlias, Spec.chosenTarget, Spec.isDirectoryAlias.
  cbn [fst snd].
  destruct (Js.startsWith key "/" && Js.endsWith key "/" && Path.isAbsolute target).
  - rewrite !isDir_existingDirectory.
    destruct (Spec.existingDirectory env (Path.join [root r; target]));
      [reflexivity|].
    destruct (Spec.existingDirectory env target); [reflexivity|].
    destruct r. cbn. now rewrite app_nil_r.
  - unfold setLiteralAlias. now rewrite app_nil_r.
Qed.

Lemma resolveAlias_registers (env : Env) (r : Internal)
    (entries : list (string * string)) :
  resolveAlias env r entries
  = Ok {| root := root r;
          resolvers := resolvers r ++ Spec.aliasEntries env (root r) entries;
          literalAlias := fold_left Spec.registerLiteral entries (literalAlias r);
          literalDirAlias :=
            fold_left (Spec.registerDirAlias env (root r)) entries
              (literalDirAlias r) |}.
Proof.
  revert r. induction entries as [|entry entries IH]; intros r.
  - destruct r. cbn. now rewrite app_nil_r.
  - cbn [resolveAlias]. rewrite resolveAliasEntry_registers, IH.
    cbn [root resolvers literalAlias literalDirAlias fold_left
         Spec.aliasEntries flat_map].
    now rewrite <- app_assoc.
Qed.

Lemma createResolver_registers (env : Env) (root0 : string)
    (rs : list Resolver.t) (userAlias : list (string * string)) :
  createResolver env root0 rs userAlias
  = Ok {| root := root0;
          resolvers :=
            rs ++ Spec.aliasEntries env root0 (aliasRecords rs ++ userAlias);
          literalAlias := Spec.literalTable (aliasRecords rs ++ userAlias);
          literalDirAlias :=
            Spec.dirAliasTable env root0 (aliasRecords rs ++ userAlias) |}.
Proof.
  unfold createResolver. rewrite resolveResolverAliases_flat.
  rewrite <- resolveAlias_app. now rewrite resolveAlias_registers.
Qed.

Lemma aliasEntries_app (env : Env) (root0 : string)
    (a b : list (string * string)) :
  Spec.aliasEntries env root0 (a ++ b)
  = Spec.aliasEntries env root0 a ++ Spec.aliasEntries env root0 b.
Proof. apply flat_map_app. Qed.

Lemma registerDirAlias_other (env : Env) (root0 : string)
    (entries : list (string * string)) (table : gmap string string)
    (key : string) :
  Forall (fun entry => entry.1 <> key) entries ->
  fold_left (Spec.registerDirAlias env root0) entries table !! key
  = table !! key.
Proof.
  intros Hother. revert table.
  induction Hother as [|entry entries Hne _ IH]; intros table; [reflexivity|].
  cbn [fold_left]. rewrite IH. unfold Spec.registerDirAlias.
  destruct (Spec.isDirectoryAlias entry); [|reflexivity].
  destruct (Spec.chosenTarget env root0 entry); [|reflexivity].
  now rewrite lookup_insert_ne.
Qed.

Section Chain.

Variable r : Internal.

Lemma firstFileToRequest_skip filePath pre rest :
  Forall (declinesFile r filePath) pre ->
  firstFileToRequest r (pre ++ rest) filePath
  = firstFileToRequest r rest filePath.
Proof.
  induction 1 as [|e pre He _ IH]; [reflexivity|].
  cbn. unfold declinesFile in He.
  destruct (Resolver.fileToRequest e) as [f|]; [|exact IH].
  destruct He as [o [-> ->]]. exact IH.
Qed.

Lemma firstFileToRequest_first filePath pre e post f request :
  Forall (declinesFile r filePath) pre ->
  Resolver.fileToRequest e = Some f ->
  f filePath (root r) = Ok (Some request) ->
  request <> "" ->
  firstFileToRequest r (pre ++ e :: post) filePath = Ok (Some request).
Proof.
  intros Hpre Hf Hcall Hrequest. rewrite firstFileToRequest_skip by exact Hpre.
  cbn. rewrite Hf, Hcall. cbn.
  apply truthy_true in Hrequest. now rewrite Hrequest.
Qed.

End Chain.

(** ** The target of a directory alias *)

(** C7.  Take an alias entry, of a resolver's alias map or of the user's,
    whose key starts and ends with ["/"] and whose value is an absolute path.
    [createResolver] returns normally, and the literal table is the one the
    other entries give.
    - If the value joined onto the root is an existing directory, or else
      the value itself is one, that directory is used: the entry pushed for
      the alias stands in the chain after the given resolvers and the entries
      of the earlier aliases, the directory-alias table holds the directory
      under the key unless a later entry has the same key, a request under
      the key that is not cached and that no earlier chain entry answers
      resolves to the rest of the request joined onto that directory, and a
      file under that directory that is not cached and that no earlier chain
      entry answers is given the request made of the key and the file's path
      relative to that directory.
    - Otherwise the alias is skipped: the chain and the directory-alias
      table are those the other entries give. *)
Theorem directory_alias_target (env : Env) (root0 : string)
    (rs : list Resolver.t) (userAlias pre post : list (string * string))
    (key target : string) :
  aliasRecords rs ++ userAlias = pre ++ (key, target) :: post ->
  Spec.isDirectoryAlias (key, target) = true ->
  exists r,
    createResolver env root0 rs userAlias = Ok r
    /\ root r = root0
    /\ literalAlias r = Spec.literalTable (pre ++ post)
    /\ match Spec.chosenTarget env root0 (key, target) with
       | Some dir =>
           let earlier := rs ++ Spec.aliasEntries env root0 pre in
           resolvers r
           = earlier ++ dirAliasResolver env key dir
                        :: Spec.aliasEntries env root0 post
           /\ (Forall (fun entry => entry.1 <> key) post ->
               literalDirAlias r !! key = Some dir)
           /\ (forall publicPath st,
                 Js.startsWith publicPath key = true ->
                 requestToFileCache st !! publicPath = None ->
                 Forall (declines r publicPath) earlier ->
                 let file :=
                   applyPostfix env
                     (Path.join [dir; Js.slice (String.length key) publicPath]) in
                 requestToFile env r publicPath st
                 = (Ok file, set_requestToFileCache publicPath file st))
           /\ (forall filePath st,
                 Spec.liesUnder dir filePath = true ->
                 fileToRequestCache st !! filePath = None ->
                 Forall (declinesFile r filePath) earlier ->
                 let request :=
                   slash env (key +:+ Path.relative (cwd env) dir filePath) in
                 request <> "" ->
                 fileToRequest env r filePath st = (Ok request, st))
       | None =>
           resolvers r = rs ++ Spec.aliasEntries env root0 (pre ++ post)
           /\ literalDirAlias r = Spec.dirAliasTable env root0 (pre ++ post)
       end.
Proof.
  intros Hentries Hdir. eexists. split; [apply createResolver_registers|].
  rewrite Hentries. split; [reflexivity|]. cbn [literalAlias resolvers literalDirAlias].
  assert (Hentry : Spec.entryOf env root0 (key, target)
                   = match Spec.chosenTarget env root0 (key, target) with
                     | Some dir => [dirAliasResolver env key dir]
                     | None => []
                     end).
  { unfold Spec.entryOf. now rewrite Hdir. }
  assert (Hregister : forall table,
             Spec.registerDirAlias env root0 table (key, target)
             = match Spec.chosenTarget env root0 (key, target) with
               | Some dir => <[key := dir]> table
               | None => table
               end).
  { intros table. unfold Spec.registerDirAlias. now rewrite Hdir. }
  split.
  { unfold Spec.literalTable. rewrite !fold_left_app. cbn [fold_left].
    unfold Spec.registerLiteral at 2. now rewrite Hdir. }
  rewrite !aliasEntries_app.
  change (Spec.aliasEntries env root0 ((key, target) :: post))
    with (Spec.entryOf env root0 (key, target) ++ Spec.aliasEntries env root0 post).
  unfold Spec.dirAliasTable. rewrite !fold_left_app. cbn [fold_left].
  rewrite Hentry, Hregister.
  destruct (Spec.chosenTarget env root0 (key, target)) as [dir|];
    [|split; reflexivity].
  cbv zeta. cbn [app]. split; [now rewrite app_assoc|]. split; [|split].
  - intros Hother. rewrite registerDirAlias_other by exact Hother.
    apply lookup_insert_eq.
  - intros publicPath st Hunder Hcache Hearlier.
    rewrite requestToFile_miss by exact Hcache.
    cbn [resolvers]. rewrite app_assoc.
    erewrite firstRequestToFile_first; [reflexivity|exact Hearlier|reflexivity| |].
    + cbn beta. now rewrite Hunder.
    + apply truthy_true, join_truthy.
  - intros filePath st Hunder Hcache Hearlier Hrequest.
    rewrite fileToRequest_miss by exact Hcache.
    cbn [resolvers]. rewrite app_assoc.
    erewrite firstFileToRequest_first; [reflexivity|exact Hearlier|reflexivity| |].
    + cbn beta. unfold Spec.liesUnder in Hunder. now rewrite Hunder.
    + exact Hrequest.
Qed.

Lemma directory_alias_target_witness :
  (exists r,
      createResolver Examples.projEnv "/proj" [] Examples.dirsAlias = Ok r
      /\ literalDirAlias r !! "/@src/" = Some "/proj/src"
      /\ requestToFile Examples.projEnv r "/@src/app.js" emptyState
         = (Ok "/proj/src/app.js",
            set_requestToFileCache "/@src/app.js" "/proj/src/app.js" emptyState)
      /\ fileToRequest Examples.projEnv r "/proj/src/app.js" emptyState
         = (Ok "/@src/app.js", emptyState))
  /\ (exists r,
        createResolver Examples.projEnv "/proj" [] Examples.dirsAlias = Ok r
        /\ literalDirAlias r !! "/@foo/" = Some "/proj/foo-dir"
        /\ requestToFile Examples.projEnv r "/@foo/util" emptyState
           = (Ok "/proj/foo-dir/util.ts",
              set_requestToFileCache "/@foo/util" "/proj/foo-dir/util.ts"
                emptyState)
        /\ fileToRequest Examples.projEnv r "/proj/foo-dir/util.ts" emptyState
           = (Ok "/@foo/util.ts", emptyState))
  /\ (exists r,
        createResolver Examples.projEnv "/proj" [] Examples.dirsAlias = Ok r
        /\ resolvers r
           = [dirAliasResolver Examples.projEnv "/@src/" "/proj/src";
              dirAliasResolver Examples.projEnv "/@foo/" "/proj/foo-dir"]
        /\ literalDirAlias r !! "/@gone/" = None).
Proof.
  split; [|split].
  - destruct (directory_alias_target Examples.projEnv "/proj" [] Examples.dirsAlias
                [] [("/@foo/", "/proj/foo-dir"); ("/@gone/", "/proj/gone")]
                "/@src/" "/src" eq_refl eq_refl)
      as (r & Hcreate & _ & _ & Hused).
    assert (Hchosen : Spec.chosenTarget Examples.projEnv "/proj" ("/@src/", "/src")
                      = Some "/proj/src") by reflexivity.
    rewrite Hchosen in Hused. destruct Hused as (_ & Htable & Hrequest & Hfile).
    exists r. split; [exact Hcreate|]. split; [|split].
    + apply Htable. repeat constructor; discriminate.
    + apply (Hrequest "/@src/app.js" emptyState); [reflexivity|reflexivity|].
      constructor.
    + apply (Hfile "/proj/src/app.js" emptyState); [reflexivity|reflexivity| |].
      * constructor.
      * discriminate.
  - destruct (directory_alias_target Examples.projEnv "/proj" [] Examples.dirsAlias
                [("/@src/", "/src")] [("/@gone/", "/proj/gone")]
                "/@foo/" "/proj/foo-dir" eq_refl eq_refl)
      as (r & Hcreate & _ & _ & Hused).
    assert (Hchosen : Spec.chosenTarget Examples.projEnv "/proj"
                        ("/@foo/", "/proj/foo-dir")
                      = Some "/proj/foo-dir") by reflexivity.
    rewrite Hchosen in Hused. destruct Hused as (_ & Htable & Hrequest & Hfile).
    exists r. split; [exact Hcreate|]. split; [|split].
    + apply Htable. repeat constructor; discriminate.
    + apply (Hrequest "/@foo/util" emptyState); [reflexivity|reflexivity|].
      constructor; [|constructor]. now exists None.
    + apply (Hfile "/proj/foo-dir/util.ts" emptyState);
        [reflexivity|reflexivity| |].
      * constructor; [|constructor]. now exists None.
      * discriminate.
  - destruct (directory_alias_target Examples.projEnv "/proj" [] Examples.dirsAlias
                [("/@src/", "/src"); ("/@foo/", "/proj/foo-dir")] []
                "/@gone/" "/proj/gone" eq_refl eq_refl)
      as (r & Hcreate & _ & _ & Hskipped).
    assert (Hchosen : Spec.chosenTarget Examples.projEnv "/proj"
                        ("/@gone/", "/proj/gone")
                      = None) by reflexivity.
    rewrite Hchosen in Hskipped. destruct Hskipped as [Hchain Htable].
    exists r. split; [exact Hcreate|]. split; [exact Hchain|].
    now rewrite Htable.
Defined.

(** ** The round trip through the chain *)





